(** * evccdb: transfer and rename engine of an evcc SQLite database

    A shallow embedding of [client.go], [transfer.go] and [rename.go],
    of the SQL text of a value in [export.go] and of the transfer,
    rename and delete commands of [cmd/evccdb/main.go], together with
    the part of the SQL engine and of the Go runtime that the
    statements issued by these files rely on.

    - Strings are sequences of bytes ([String.string]); the Go
      functions [strings.HasPrefix], [strings.TrimPrefix],
      [strings.Contains], [strings.Replace] (with [n = 1]),
      [strings.ReplaceAll], [strings.TrimSpace], [strings.Split] and
      [strings.SplitN] are written out on them.
    - A database is a finite map from table names to tables; a table is
      a column list and its rows in rowid order; a cell is NULL, an
      integer or a text.
    - Statements run against a transaction state, which is a working
      copy of the database: commit installs it, rollback drops it.
    - Row counts are natural numbers (a Go [int] is 64 bits wide and a
      table never holds that many rows). *)

From Stdlib Require Import ZArith Ascii String.
From stdpp Require Import gmap strings list fin_maps pretty sorting.

Open Scope string_scope.
Open Scope list_scope.

(* ===================================================================== *)
(** * Part I: definitions *)
(* ===================================================================== *)

(** ** Go's [strings] package *)

(** [strings.HasPrefix(s, prefix)] *)
Fixpoint HasPrefix (s prefix : string) {struct prefix} : bool :=
  match prefix, s with
  | EmptyString, _ => true
  | String c prefix', String d s' => Ascii.eqb c d && HasPrefix s' prefix'
  | String _ _, EmptyString => false
  end.

(** [s[n:]], for [n] at most the length of [s] *)
Fixpoint string_drop (n : nat) (s : string) : string :=
  match n, s with
  | O, _ => s
  | S n', String _ s' => string_drop n' s'
  | S _, EmptyString => EmptyString
  end.

(** [strings.TrimPrefix(s, prefix)]: [s] without the leading [prefix], or
    [s] itself when it does not start with [prefix]. *)
Definition TrimPrefix (s prefix : string) : string :=
  if HasPrefix s prefix then string_drop (String.length prefix) s else s.

(** [strings.Contains(s, substr)] *)
Fixpoint Contains (s substr : string) : bool :=
  HasPrefix s substr ||
  match s with
  | EmptyString => false
  | String _ s' => Contains s' substr
  end.

(** [strings.Replace(s, old, new, 1)]: the leftmost occurrence of [old]
    is replaced, every other character is kept. *)
Fixpoint ReplaceFirst (s old new : string) : string :=
  if HasPrefix s old then new +:+ string_drop (String.length old) s
  else match s with
       | EmptyString => EmptyString
       | String c s' => String c (ReplaceFirst s' old new)
       end.

(** ** The SQL operator LIKE

    SQLite's default LIKE: [%] stands for any run of characters, [_] for
    exactly one, every other pattern character for itself, where the 26
    ASCII letters match without regard to case.  No escape character is
    in force, since none of the statements has an ESCAPE clause. *)

Definition ascii_lower (c : ascii) : ascii :=
  let n := nat_of_ascii c in
  if (65 <=? n)%nat && (n <=? 90)%nat then ascii_of_nat (n + 32) else c.

Fixpoint like (pattern : string) : string -> bool :=
  match pattern with
  | EmptyString => fun s => match s with EmptyString => true | _ => false end
  | String c p =>
      if Ascii.eqb c "%" then
        fix star (s : string) : bool :=
          like p s || match s with
                      | EmptyString => false
                      | String _ s' => star s'
                      end
      else if Ascii.eqb c "_" then
        fun s => match s with
                 | EmptyString => false
                 | String _ s' => like p s'
                 end
      else
        fun s => match s with
                 | EmptyString => false
                 | String d s' =>
                     Ascii.eqb (ascii_lower c) (ascii_lower d) && like p s'
                 end
  end.

(** ** Cells, columns, tables, databases *)

(** A cell holds NULL, an integer or a text (the storage classes that the
    statements of this program read or write by value; the row copier
    moves cells without looking inside them). *)
Inductive Value :=
| VNull
| VInt (n : Z)
| VText (s : string).

#[global] Instance Value_eq_dec : EqDecision Value.
Proof. solve_decision. Defined.

(** [ColumnInfo] of client.go, one row of [PRAGMA table_info]. *)
Record ColumnInfo := mkColumn {
  Name : string;
  ColType : string;
  NotNull : bool;
  Default : option string;
  Primary : bool
}.

#[global] Instance ColumnInfo_eq_dec : EqDecision ColumnInfo.
Proof. solve_decision. Defined.

Abbreviation Row := (list Value).

(** A table: its columns in declaration order and its rows in rowid
    order; the cells of a row follow the column order. *)
Record Table := mkTable {
  columns : list ColumnInfo;
  rows : list Row
}.

#[global] Instance Table_eq_dec : EqDecision Table.
Proof. solve_decision. Defined.

(** The content of one database file. *)
Abbreviation Database := (gmap string Table).

(** ** Errors *)

Inductive error :=
| NoSuchTable (table : string)
| NoSuchColumn (column : string)
| NotNullFailed (column : string)
| ScanFailed
| MarshalFailed
| NoCommonColumns (table : string)
| InvalidIdentifier (name : string)
| UnknownTransferMode (mode : Z)
| Wrapped (context : string) (cause : error).

(** ** The SQL engine *)

(** Position of the column called [name]. *)
Fixpoint col_index (cols : list ColumnInfo) (name : string) : option nat :=
  match cols with
  | [] => None
  | c :: cols' =>
      if String.eqb (Name c) name then Some O
      else option_map S (col_index cols' name)
  end.

Definition cell (r : Row) (i : nat) : Value := nth i r VNull.

(** The comparison [=] of a WHERE clause: NULL equals nothing, and
    values of different storage classes are different. *)
Definition sql_eq (a b : Value) : bool :=
  match a, b with
  | VInt n, VInt m => Z.eqb n m
  | VText s, VText t => String.eqb s t
  | _, _ => false
  end.

(** [v LIKE pattern]: a number is matched through its decimal text. *)
Definition sql_like (pattern : string) (v : Value) : bool :=
  match v with
  | VNull => false
  | VInt n => like pattern (pretty n)
  | VText s => like pattern s
  end.

(** The WHERE clauses that occur in the program. *)
Inductive cond :=
| CTrue
| CEq (column : string) (v : Value)
| CLike (column : string) (pattern : string)
| CAnd (a b : cond).

Fixpoint cond_columns (c : cond) : list string :=
  match c with
  | CTrue => []
  | CEq column _ => [column]
  | CLike column _ => [column]
  | CAnd a b => cond_columns a ++ cond_columns b
  end.

Fixpoint holds (cols : list ColumnInfo) (c : cond) (r : Row) : bool :=
  match c with
  | CTrue => true
  | CEq column v =>
      match col_index cols column with
      | Some i => sql_eq (cell r i) v
      | None => false
      end
  | CLike column pattern =>
      match col_index cols column with
      | Some i => sql_like pattern (cell r i)
      | None => false
      end
  | CAnd a b => holds cols a r && holds cols b r
  end.

(** The first name of [names] that is no column of the table. *)
Fixpoint missing_column (cols : list ColumnInfo) (names : list string)
  : option string :=
  match names with
  | [] => None
  | n :: names' =>
      match col_index cols n with
      | None => Some n
      | Some _ => missing_column cols names'
      end
  end.

(** Preparing a statement: the table and every column it names exist. *)
Definition prepare (db : Database) (table : string) (names : list string)
  : error + Table :=
  match db !! table with
  | None => inl (NoSuchTable table)
  | Some t =>
      match missing_column (columns t) names with
      | Some n => inl (NoSuchColumn n)
      | None => inr t
      end
  end.

(** [SELECT COUNT( * ) FROM table WHERE c] *)
Definition sql_count (db : Database) (table : string) (c : cond)
  : error + nat :=
  match prepare db table (cond_columns c) with
  | inl e => inl e
  | inr t => inr (length (filter (fun r => holds (columns t) c r = true) (rows t)))
  end.

Definition project (cols : list ColumnInfo) (names : list string) (r : Row)
  : Row :=
  map (fun n => match col_index cols n with
                | Some i => cell r i
                | None => VNull
                end) names.

(** [SELECT names FROM table WHERE c], in rowid order. *)
Definition sql_select (db : Database) (table : string) (names : list string)
    (c : cond) : error + list Row :=
  match prepare db table (names ++ cond_columns c) with
  | inl e => inl e
  | inr t =>
      inr (map (project (columns t) names)
               (filter (fun r => holds (columns t) c r = true) (rows t)))
  end.

Definition set_cell (i : nat) (v : Value) (r : Row) : Row := <[i := v]> r.

(** [UPDATE table SET column = v WHERE c]; the number is the driver's
    [RowsAffected], the rows that satisfy the WHERE clause. *)
Definition sql_update (db : Database) (table column : string) (v : Value)
    (c : cond) : error + (Database * nat) :=
  match prepare db table (column :: cond_columns c) with
  | inl e => inl e
  | inr t =>
      match col_index (columns t) column with
      | None => inl (NoSuchColumn column)
      | Some i =>
          let hit r := holds (columns t) c r in
          inr (<[table := mkTable (columns t)
                            (map (fun r => if hit r then set_cell i v r else r)
                                 (rows t))]> db,
               length (filter (fun r => hit r = true) (rows t)))
      end
  end.

(** [DELETE FROM table WHERE c] *)
Definition sql_delete (db : Database) (table : string) (c : cond)
  : error + (Database * nat) :=
  match prepare db table (cond_columns c) with
  | inl e => inl e
  | inr t =>
      let hit r := holds (columns t) c r in
      inr (<[table := mkTable (columns t)
                        (filter (fun r => hit r = false) (rows t))]> db,
           length (filter (fun r => hit r = true) (rows t)))
  end.

(** The value of a column default as [PRAGMA table_info] prints it: a
    quoted text or a decimal integer; a column without default, or with
    any other default expression, defaults to NULL here. *)
Fixpoint digits_value (acc : Z) (s : string) : option Z :=
  match s with
  | EmptyString => Some acc
  | String c s' =>
      let n := nat_of_ascii c in
      if (48 <=? n)%nat && (n <=? 57)%nat
      then digits_value (10 * acc + Z.of_nat (n - 48)) s'
      else None
  end.

Fixpoint quoted_body (s : string) : option string :=
  match s with
  | EmptyString => None
  | String c EmptyString => if Ascii.eqb c "'" then Some EmptyString else None
  | String c s' => option_map (String c) (quoted_body s')
  end.

Definition literal_value (txt : string) : Value :=
  match txt with
  | EmptyString => VNull
  | String c rest =>
      if Ascii.eqb c "'" then
        match quoted_body rest with Some body => VText body | None => VNull end
      else if Ascii.eqb c "-" then
        match rest with
        | EmptyString => VNull
        | _ => match digits_value 0 rest with
               | Some n => VInt (- n)
               | None => VNull
               end
        end
      else
        match digits_value 0 txt with Some n => VInt n | None => VNull end
  end.

Definition default_value (c : ColumnInfo) : Value :=
  match Default c with
  | Some txt => literal_value txt
  | None => VNull
  end.

Fixpoint name_index (names : list string) (name : string) : option nat :=
  match names with
  | [] => None
  | n :: names' =>
      if String.eqb n name then Some O
      else option_map S (name_index names' name)
  end.

(** The cell that an INSERT with column list [names] and values [vals]
    stores in column [c]: the value given for it or else its default;
    under OR REPLACE a NULL given for a NOT NULL column is replaced by
    the default as well. *)
Definition inserted_cell (names : list string) (vals : list Value)
    (c : ColumnInfo) : Value :=
  match name_index names (Name c) with
  | Some j =>
      match nth j vals VNull with
      | VNull => if NotNull c then default_value c else VNull
      | v => v
      end
  | None => default_value c
  end.

Definition inserted_row (cols : list ColumnInfo) (names : list string)
    (vals : list Value) : Row :=
  map (inserted_cell names vals) cols.

(** The first NOT NULL column in which [r] holds NULL. *)
Fixpoint null_violation (cols : list ColumnInfo) (r : Row) : option string :=
  match cols, r with
  | c :: cols', v :: r' =>
      if NotNull c && bool_decide (v = VNull) then Some (Name c)
      else null_violation cols' r'
  | _, _ => None
  end.

(** The cells of [r] in the primary-key columns. *)
Fixpoint key_of (cols : list ColumnInfo) (r : Row) : list Value :=
  match cols, r with
  | c :: cols', v :: r' =>
      if Primary c then v :: key_of cols' r' else key_of cols' r'
  | _, _ => []
  end.

(** Two rows collide when the table has a primary key and they agree on
    it; a key with a NULL cell collides with nothing. *)
Definition pk_conflict (cols : list ColumnInfo) (r r' : Row) : bool :=
  let k := key_of cols r in
  match k with
  | [] => false
  | _ => forallb (fun v => negb (bool_decide (v = VNull))) k
         && bool_decide (key_of cols r' = k)
  end.

(** [INSERT OR REPLACE INTO table (names) VALUES (vals)]: the rows that
    collide with the new row on the primary key are deleted, then the new
    row is appended. *)
Definition sql_insert_or_replace (db : Database) (table : string)
    (names : list string) (vals : list Value) : error + Database :=
  match prepare db table names with
  | inl e => inl e
  | inr t =>
      let r := inserted_row (columns t) names vals in
      match null_violation (columns t) r with
      | Some c => inl (NotNullFailed c)
      | None =>
          inr (<[table := mkTable (columns t)
                   (filter (fun r' => pk_conflict (columns t) r r' = false)
                           (rows t) ++ [r])]> db)
      end
  end.

(** [rows.Scan] into a Go [string] and into a Go [int]. *)
Definition scan_string (v : Value) : option string :=
  match v with
  | VNull => None
  | VInt n => Some (pretty n)
  | VText s => Some s
  end.

Definition scan_int (v : Value) : option Z :=
  match v with
  | VInt n => Some n
  | _ => None
  end.

(** ** client.go *)

(** [TableExists]: one row of [sqlite_master] carries the name. *)
Definition TableExists (c : Database) (name : string) : bool :=
  bool_decide (is_Some (c !! name)).

(** [GetTableColumns]: [PRAGMA table_info] lists the columns of the
    table, and lists nothing, without an error, for an unknown table. *)
Definition GetTableColumns (c : Database) (table : string) : list ColumnInfo :=
  match c !! table with
  | Some t => columns t
  | None => []
  end.

(** [GetRowCount] *)
Definition GetRowCount (c : Database) (table : string) : error + nat :=
  match sql_count c table CTrue with
  | inl e => inl (Wrapped "failed to count rows" e)
  | inr n => inr n
  end.

Definition GetConfigTables : list string := ["settings"; "configs"; "caches"].
Definition GetMetricsTables : list string := ["meters"; "sessions"; "grid_sessions"].
Definition GetAllTables : list string := GetConfigTables ++ GetMetricsTables.

(** The identifier grammar [^[a-zA-Z_][a-zA-Z0-9_]*$]. *)
Definition is_letter (c : ascii) : bool :=
  let n := nat_of_ascii c in
  ((65 <=? n)%nat && (n <=? 90)%nat) || ((97 <=? n)%nat && (n <=? 122)%nat).

Definition is_digit (c : ascii) : bool :=
  let n := nat_of_ascii c in (48 <=? n)%nat && (n <=? 57)%nat.

Fixpoint all_chars (p : ascii -> bool) (s : string) : bool :=
  match s with
  | EmptyString => true
  | String c s' => p c && all_chars p s'
  end.

Definition validIdentifier (name : string) : bool :=
  match name with
  | EmptyString => false
  | String c rest =>
      (is_letter c || Ascii.eqb c "_")
      && all_chars (fun d => is_letter d || is_digit d || Ascii.eqb d "_") rest
  end.

Definition ValidateIdentifier (name : string) : option error :=
  if validIdentifier name then None else Some (InvalidIdentifier name).

(** ** types.go *)

Definition TransferConfig : Z := 0.
Definition TransferMetrics : Z := 1.
Definition TransferAll : Z := 2.

Record RenameMapping := mkRename {
  OldName : string;
  NewName : string
}.

(** [TransferOptions]; [OnProgress] records whether a callback is
    installed, its calls are entries of the run's log. *)
Record TransferOptions := mkOptions {
  Mode : Z;
  Tables : list string;
  DryRun : bool;
  OnProgress : bool;
  LoadpointRenames : list RenameMapping;
  VehicleRenames : list RenameMapping
}.

(** [ResolveTables]: an explicit list wins over the mode. *)
Fixpoint first_invalid (tables : list string) : option error :=
  match tables with
  | [] => None
  | t :: tables' =>
      match ValidateIdentifier t with
      | Some e => Some e
      | None => first_invalid tables'
      end
  end.

Definition ResolveTables (opts : TransferOptions) : error + list string :=
  match Tables opts with
  | _ :: _ =>
      match first_invalid (Tables opts) with
      | Some e => inl e
      | None => inr (Tables opts)
      end
  | [] =>
      if Z.eqb (Mode opts) TransferConfig then inr GetConfigTables
      else if Z.eqb (Mode opts) TransferMetrics then inr GetMetricsTables
      else if Z.eqb (Mode opts) TransferAll then inr GetAllTables
      else inl (UnknownTransferMode (Mode opts))
  end.

(** ** The JSON codec

    [encoding/json] is used through four operations: decoding a text into
    a [map[string]any], the type assertion [.(string)] on a decoded value,
    storing a Go string as a value, and encoding the map again.  The
    development is parametric in them. *)
Class Codec := {
  any : Type;
  Unmarshal : string -> option (gmap string any);
  Marshal : gmap string any -> option string;
  asString : any -> option string;
  ofString : string -> any
}.

(** ** rename.go *)

Record RenameResult := mkResult {
  Sessions : nat;
  Settings : nat;
  Configs : nat
}.

#[global] Instance RenameResult_eq_dec : EqDecision RenameResult.
Proof. solve_decision. Defined.

(** [renameInSessions] *)
Definition renameInSessions (tx : Database) (column oldName newName : string)
  : error + (Database * nat) :=
  sql_update tx "sessions" column (VText newName) (CEq column (VText oldName)).

(** [renameSettingsValue] *)
Definition renameSettingsValue (tx : Database)
    (keyPattern oldValue newValue : string) : error + (Database * nat) :=
  sql_update tx "settings" "value" (VText newValue)
             (CAnd (CLike "key" keyPattern) (CEq "value" (VText oldValue))).

(** Scanning the rows of [SELECT key, value] into [keyValue] structs. *)
Definition scan_keyValue (r : Row) : option (string * string) :=
  match scan_string (cell r 0), scan_string (cell r 1) with
  | Some k, Some v => Some (k, v)
  | _, _ => None
  end.

Fixpoint scan_all {A} (scan : Row -> option A) (rs : list Row)
  : option (list A) :=
  match rs with
  | [] => Some []
  | r :: rs' =>
      match scan r with
      | None => None
      | Some a => option_map (cons a) (scan_all scan rs')
      end
  end.

(** The second loop of [renameSettingsKeys]: insert under the new key,
    delete the old key, one pair after the other. *)
Fixpoint migrate_keys (tx : Database) (oldPrefix newPrefix : string)
    (kvs : list (string * string)) : error + Database :=
  match kvs with
  | [] => inr tx
  | (key, value) :: kvs' =>
      let newKey := newPrefix +:+ TrimPrefix key oldPrefix in
      match sql_insert_or_replace tx "settings" ["key"; "value"]
                                  [VText newKey; VText value] with
      | inl e => inl e
      | inr tx1 =>
          match sql_delete tx1 "settings" (CEq "key" (VText key)) with
          | inl e => inl e
          | inr (tx2, _) => migrate_keys tx2 oldPrefix newPrefix kvs'
          end
      end
  end.

(** [renameSettingsKeys] *)
Definition renameSettingsKeys (tx : Database) (oldPrefix newPrefix : string)
  : error + (Database * nat) :=
  match sql_select tx "settings" ["key"; "value"]
                   (CLike "key" (oldPrefix +:+ "%")) with
  | inl e => inl e
  | inr rs =>
      match scan_all scan_keyValue rs with
      | None => inl ScanFailed
      | Some kvs =>
          match migrate_keys tx oldPrefix newPrefix kvs with
          | inl e => inl e
          | inr tx' => inr (tx', length kvs)
          end
      end
  end.

(** Scanning the rows of [SELECT id, value] into [configRow] structs. *)
Definition scan_configRow (r : Row) : option (Z * string) :=
  match scan_int (cell r 0), scan_string (cell r 1) with
  | Some id, Some value => Some (id, value)
  | _, _ => None
  end.

Section WithCodec.
Context {codec : Codec}.

(** What the body of the loop of [renameInConfigsJSON] decides for one
    blob: [Some (inr v)] is the new text to store, [None] leaves the
    row alone ([continue]), [Some (inl e)] stops the loop. *)
Definition rewrite_blob (value oldTitle newTitle : string)
  : option (error + string) :=
  match Unmarshal value with
  | None =>
      if Contains value ("title: " +:+ oldTitle)
      then Some (inr (ReplaceFirst value ("title: " +:+ oldTitle)
                                   ("title: " +:+ newTitle)))
      else None
  | Some data =>
      match data !! "title" with
      | None => None
      | Some a =>
          match asString a with
          | None => None
          | Some title =>
              if String.eqb title oldTitle then
                match Marshal (<["title" := ofString newTitle]> data) with
                | None => Some (inl MarshalFailed)
                | Some newJSON => Some (inr newJSON)
                end
              else None
          end
      end
  end.

(** The second loop of [renameInConfigsJSON]; the result is the state
    of the transaction, [updated] and the error. *)
Fixpoint rewrite_configs (tx : Database) (oldTitle newTitle : string)
    (configs : list (Z * string)) (updated : nat)
  : Database * nat * option error :=
  match configs with
  | [] => (tx, updated, None)
  | (id, value) :: configs' =>
      match rewrite_blob value oldTitle newTitle with
      | None => rewrite_configs tx oldTitle newTitle configs' updated
      | Some (inl e) => (tx, updated, Some e)
      | Some (inr newValue) =>
          match sql_update tx "configs" "value" (VText newValue)
                           (CEq "id" (VInt id)) with
          | inl e => (tx, updated, Some e)
          | inr (tx', _) =>
              rewrite_configs tx' oldTitle newTitle configs' (S updated)
          end
      end
  end.

(** [renameInConfigsJSON] *)
Definition renameInConfigsJSON (tx : Database) (class : Z)
    (oldTitle newTitle : string) : Database * nat * option error :=
  match sql_select tx "configs" ["id"; "value"] (CEq "class" (VInt class)) with
  | inl e => (tx, O, Some e)
  | inr rs =>
      match scan_all scan_configRow rs with
      | None => (tx, O, Some ScanFailed)
      | Some configs => rewrite_configs tx oldTitle newTitle configs O
      end
  end.

(** [RenameLoadpoint]: the three steps run in one transaction on a
    working copy of the database [c]; an error leaves [c] as it was
    (the deferred rollback), success installs the working copy. *)
Definition RenameLoadpoint (c : Database) (oldName newName : string)
  : Database * (RenameResult * option error) :=
  let result := mkResult 0 0 0 in
  match renameInSessions c "loadpoint" oldName newName with
  | inl e => (c, (result, Some (Wrapped "failed to rename loadpoint in sessions" e)))
  | inr (tx1, count1) =>
      let result := mkResult count1 (Settings result) (Configs result) in
      match renameSettingsValue tx1 "lp%.title" oldName newName with
      | inl e => (c, (result, Some (Wrapped "failed to rename loadpoint in settings" e)))
      | inr (tx2, count2) =>
          let result := mkResult (Sessions result) count2 (Configs result) in
          match renameInConfigsJSON tx2 5 oldName newName with
          | (_, _, Some e) =>
              (c, (result, Some (Wrapped "failed to rename loadpoint in configs" e)))
          | (tx3, count3, None) =>
              (tx3, (mkResult (Sessions result) (Settings result) count3, None))
          end
      end
  end.

(** [RenameVehicle] *)
Definition RenameVehicle (c : Database) (oldName newName : string)
  : Database * (RenameResult * option error) :=
  let result := mkResult 0 0 0 in
  match renameInSessions c "vehicle" oldName newName with
  | inl e => (c, (result, Some (Wrapped "failed to rename vehicle in sessions" e)))
  | inr (tx1, count1) =>
      let result := mkResult count1 (Settings result) (Configs result) in
      let oldPrefix := "vehicle." +:+ oldName +:+ "." in
      let newPrefix := "vehicle." +:+ newName +:+ "." in
      match renameSettingsKeys tx1 oldPrefix newPrefix with
      | inl e => (c, (result, Some (Wrapped "failed to rename vehicle settings keys" e)))
      | inr (tx2, count2) =>
          let result := mkResult (Sessions result) count2 (Configs result) in
          match renameInConfigsJSON tx2 3 oldName newName with
          | (_, _, Some e) =>
              (c, (result, Some (Wrapped "failed to rename vehicle in configs" e)))
          | (tx3, count3, None) =>
              (tx3, (mkResult (Sessions result) (Settings result) count3, None))
          end
      end
  end.

(** Whether [countConfigsWithTitle] counts a blob. *)
Definition title_matches (value title : string) : bool :=
  match Unmarshal value with
  | None => Contains value ("title: " +:+ title)
  | Some data =>
      match data !! "title" with
      | None => false
      | Some a =>
          match asString a with
          | None => false
          | Some t => String.eqb t title
          end
      end
  end.

(** The loop of [countConfigsWithTitle]: a row that does not scan ends
    it with an error and the count 0. *)
Fixpoint count_titles (rs : list Row) (title : string) (count : nat)
  : error + nat :=
  match rs with
  | [] => inr count
  | r :: rs' =>
      match scan_string (cell r 0) with
      | None => inl ScanFailed
      | Some value =>
          count_titles rs' title
                       (if title_matches value title then S count else count)
      end
  end.

(** [countConfigsWithTitle] *)
Definition countConfigsWithTitle (c : Database) (class : Z) (title : string)
  : error + nat :=
  match sql_select c "configs" ["value"] (CEq "class" (VInt class)) with
  | inl e => inl e
  | inr rs => count_titles rs title O
  end.

(** [RenameLoadpointDryRun]; [newName] is not used, as in the source. *)
Definition RenameLoadpointDryRun (c : Database) (oldName newName : string)
  : RenameResult * option error :=
  let result := mkResult 0 0 0 in
  match sql_count c "sessions" (CEq "loadpoint" (VText oldName)) with
  | inl e => (result, Some e)
  | inr count1 =>
      let result := mkResult count1 (Settings result) (Configs result) in
      match sql_count c "settings"
              (CAnd (CLike "key" "lp%.title") (CEq "value" (VText oldName))) with
      | inl e => (result, Some e)
      | inr count2 =>
          let result := mkResult (Sessions result) count2 (Configs result) in
          match countConfigsWithTitle c 5 oldName with
          | inl e => (result, Some e)
          | inr count3 =>
              (mkResult (Sessions result) (Settings result) count3, None)
          end
      end
  end.

(** [RenameVehicleDryRun] *)
Definition RenameVehicleDryRun (c : Database) (oldName newName : string)
  : RenameResult * option error :=
  let result := mkResult 0 0 0 in
  match sql_count c "sessions" (CEq "vehicle" (VText oldName)) with
  | inl e => (result, Some e)
  | inr count1 =>
      let result := mkResult count1 (Settings result) (Configs result) in
      let oldPrefix := "vehicle." +:+ oldName +:+ ".%" in
      match sql_count c "settings" (CLike "key" oldPrefix) with
      | inl e => (result, Some e)
      | inr count2 =>
          let result := mkResult (Sessions result) count2 (Configs result) in
          match countConfigsWithTitle c 3 oldName with
          | inl e => (result, Some e)
          | inr count3 =>
              (mkResult (Sessions result) (Settings result) count3, None)
          end
      end
  end.

End WithCodec.

(** The two entity kinds and the entry points of each, as one function
    of the kind. *)
Inductive kind := Loadpoint | Vehicle.

Definition Rename {codec : Codec} (k : kind)
  : Database -> string -> string -> Database * (RenameResult * option error) :=
  match k with
  | Loadpoint => RenameLoadpoint
  | Vehicle => RenameVehicle
  end.

Definition RenameDryRun {codec : Codec} (k : kind)
  : Database -> string -> string -> RenameResult * option error :=
  match k with
  | Loadpoint => RenameLoadpointDryRun
  | Vehicle => RenameVehicleDryRun
  end.

(** [DeleteLoadpointSessions] and [DeleteVehicleSessions]: the statement
    runs on the database itself, in no transaction; the number is the
    driver's [RowsAffected]. *)
Definition DeleteLoadpointSessions (c : Database) (loadpoint : string)
  : Database * (nat * option error) :=
  match sql_delete c "sessions" (CEq "loadpoint" (VText loadpoint)) with
  | inl e => (c, (O, Some (Wrapped "failed to delete sessions" e)))
  | inr (c', affected) => (c', (affected, None))
  end.

Definition DeleteVehicleSessions (c : Database) (vehicle : string)
  : Database * (nat * option error) :=
  match sql_delete c "sessions" (CEq "vehicle" (VText vehicle)) with
  | inl e => (c, (O, Some (Wrapped "failed to delete sessions" e)))
  | inr (c', affected) => (c', (affected, None))
  end.

(** [CountLoadpointSessions] and [CountVehicleSessions]: the error of the
    query is returned as it is, with the count 0. *)
Definition CountLoadpointSessions (c : Database) (loadpoint : string)
  : nat * option error :=
  match sql_count c "sessions" (CEq "loadpoint" (VText loadpoint)) with
  | inl e => (O, Some e)
  | inr count => (count, None)
  end.

Definition CountVehicleSessions (c : Database) (vehicle : string)
  : nat * option error :=
  match sql_count c "sessions" (CEq "vehicle" (VText vehicle)) with
  | inl e => (O, Some e)
  | inr count => (count, None)
  end.

Definition DeleteSessions (k : kind)
  : Database -> string -> Database * (nat * option error) :=
  match k with
  | Loadpoint => DeleteLoadpointSessions
  | Vehicle => DeleteVehicleSessions
  end.

Definition CountSessions (k : kind) : Database -> string -> nat * option error :=
  match k with
  | Loadpoint => CountLoadpointSessions
  | Vehicle => CountVehicleSessions
  end.

(** ** transfer.go *)

(** What a run prints or reports through the progress callback. *)
Inductive event :=
| DryRunHeader (tables : nat)
| MissingTable (table : string)
| WouldCopy (table : string) (count : nat)
| LoadpointPreview (oldName newName : string) (result : RenameResult)
| VehiclePreview (oldName newName : string) (result : RenameResult)
| SkippedColumn (table column : string)
| Progress (table : string) (count : nat).

(** [intersectColumns]: the columns of [src] whose name is a column name
    of [dst], in the order of [src]. *)
Definition intersectColumns (src dst : list ColumnInfo) : list ColumnInfo :=
  filter (fun col => Name col ∈ map Name dst) src.

(** The insert loop of [copyTableWithTx]: the state of the transaction,
    [copied] and the error. *)
Fixpoint copy_rows (tx : Database) (table : string) (colNames : list string)
    (srcRows : list Row) (copied : nat) : Database * nat * option error :=
  match srcRows with
  | [] => (tx, copied, None)
  | values :: srcRows' =>
      match sql_insert_or_replace tx table colNames values with
      | inl e => (tx, copied, Some (Wrapped "failed to insert row" e))
      | inr tx' => copy_rows tx' table colNames srcRows' (S copied)
      end
  end.

(** [copyTableWithTx]: the result is the state of the transaction, the
    number of rows copied, the error and the warnings printed. *)
Definition copyTableWithTx (tx src dst : Database) (table : string)
  : Database * nat * option error * list event :=
  let srcCols := GetTableColumns src table in
  let dstCols := GetTableColumns dst table in
  let commonCols := intersectColumns srcCols dstCols in
  match commonCols with
  | [] => (tx, O, Some (NoCommonColumns table), [])
  | _ :: _ =>
      let warnings :=
        map (fun col => SkippedColumn table (Name col))
            (filter (fun col => Name col ∉ map Name dstCols) srcCols) in
      match GetRowCount src table with
      | inl e => (tx, O, Some e, warnings)
      | inr O => (tx, O, None, warnings)
      | inr (S _) =>
          let colNames := map Name commonCols in
          match sql_select src table colNames CTrue with
          | inl e =>
              (tx, O, Some (Wrapped "failed to query source data" e), warnings)
          | inr srcRows =>
              let '(tx', copied, err) := copy_rows tx table colNames srcRows O in
              (tx', copied, err, warnings)
          end
      end
  end.

(** The outcome of a run of [Transfer]: both databases afterwards, the
    error returned and the log.  [applied] lists the results that the
    rename calls of a real run returned; [Transfer] drops them, they are
    kept here to be able to speak about them. *)
Record outcome := mkOutcome {
  out_src : Database;
  out_dst : Database;
  out_err : option error;
  out_log : list event;
  applied : list RenameResult
}.

(** The table loop of the dry run. *)
Fixpoint preview_tables (src dst : Database) (tables : list string)
  : list event * option error :=
  match tables with
  | [] => ([], None)
  | table :: tables' =>
      if TableExists dst table then
        match GetRowCount src table with
        | inl e => ([], Some e)
        | inr count =>
            let '(log, err) := preview_tables src dst tables' in
            (WouldCopy table count :: log, err)
        end
      else
        let '(log, err) := preview_tables src dst tables' in
        (MissingTable table :: log, err)
  end.

(** The table loop of the real run, on the transaction [tx] opened on the
    destination. *)
Fixpoint copy_tables (tx src dst : Database) (progress : bool)
    (tables : list string) : Database * list event * option error :=
  match tables with
  | [] => (tx, [], None)
  | table :: tables' =>
      if TableExists dst table then
        match copyTableWithTx tx src dst table with
        | (_, _, Some e, warnings) =>
            (tx, warnings, Some (Wrapped ("failed to copy table " +:+ table) e))
        | (tx', count, None, warnings) =>
            let '(tx'', log, err) := copy_tables tx' src dst progress tables' in
            (tx'',
             warnings ++ (if progress then [Progress table count] else []) ++ log,
             err)
        end
      else
        let '(tx', log, err) := copy_tables tx src dst progress tables' in
        (tx', MissingTable table :: log, err)
  end.

Section TransferWithCodec.
Context {codec : Codec}.

(** The two preview loops of the dry run. *)
Fixpoint preview_renames
    (dryRun : Database -> string -> string -> RenameResult * option error)
    (mk : string -> string -> RenameResult -> event)
    (src : Database) (renames : list RenameMapping)
  : list event * option error :=
  match renames with
  | [] => ([], None)
  | rename :: renames' =>
      match dryRun src (OldName rename) (NewName rename) with
      | (_, Some e) => ([], Some e)
      | (result, None) =>
          let '(log, err) := preview_renames dryRun mk src renames' in
          (mk (OldName rename) (NewName rename) result :: log, err)
      end
  end.

(** The two rename loops of the real run; each call is a transaction of
    its own on the destination. *)
Fixpoint apply_renames
    (run : Database -> string -> string
           -> Database * (RenameResult * option error))
    (context : string) (dst : Database) (renames : list RenameMapping)
  : Database * list RenameResult * option error :=
  match renames with
  | [] => (dst, [], None)
  | rename :: renames' =>
      match run dst (OldName rename) (NewName rename) with
      | (dst', (_, Some e)) => (dst', [], Some (Wrapped context e))
      | (dst', (result, None)) =>
          let '(dst'', results, err) := apply_renames run context dst' renames' in
          (dst'', result :: results, err)
      end
  end.

(** [Transfer] *)
Definition Transfer (src dst : Database) (opts : TransferOptions) : outcome :=
  match ResolveTables opts with
  | inl e => mkOutcome src dst (Some (Wrapped "failed to resolve tables" e)) [] []
  | inr tables =>
      if DryRun opts then
        let header := DryRunHeader (length tables) in
        match preview_tables src dst tables with
        | (log, Some e) => mkOutcome src dst (Some e) (header :: log) []
        | (log, None) =>
            match preview_renames RenameLoadpointDryRun LoadpointPreview
                                  src (LoadpointRenames opts) with
            | (log1, Some e) =>
                mkOutcome src dst (Some e) (header :: log ++ log1) []
            | (log1, None) =>
                match preview_renames RenameVehicleDryRun VehiclePreview
                                      src (VehicleRenames opts) with
                | (log2, err) =>
                    mkOutcome src dst err (header :: log ++ log1 ++ log2) []
                end
            end
        end
      else
        match copy_tables dst src dst (OnProgress opts) tables with
        | (_, log, Some e) => mkOutcome src dst (Some e) log []
        | (tx, log, None) =>
            match apply_renames RenameLoadpoint "failed to rename loadpoint"
                                tx (LoadpointRenames opts) with
            | (dst1, results1, Some e) =>
                mkOutcome src dst1 (Some e) log results1
            | (dst1, results1, None) =>
                match apply_renames RenameVehicle "failed to rename vehicle"
                                    dst1 (VehicleRenames opts) with
                | (dst2, results2, err) =>
                    mkOutcome src dst2 err log (results1 ++ results2)
                end
            end
        end
  end.

End TransferWithCodec.

(** [CopyTablesTo]: the tables are copied in one transaction on the
    destination, without the existence check of [Transfer]; the first
    error ends the loop and the deferred rollback drops the copies made
    so far.  The log holds the warnings printed. *)
Fixpoint copy_each (tx src dst : Database) (tables : list string)
  : Database * list event * option error :=
  match tables with
  | [] => (tx, [], None)
  | table :: tables' =>
      match copyTableWithTx tx src dst table with
      | (_, _, Some e, warnings) => (tx, warnings, Some e)
      | (tx', _, None, warnings) =>
          let '(tx'', log, err) := copy_each tx' src dst tables' in
          (tx'', warnings ++ log, err)
      end
  end.

Definition CopyTablesTo (c dst : Database) (tables : list string)
  : Database * list event * option error :=
  match copy_each dst c dst tables with
  | (_, log, Some e) => (dst, log, Some e)
  | (tx, log, None) => (tx, log, None)
  end.

(** ** cmd/evccdb/main.go *)

(** What [runDelete] prints for one name. *)
Inductive delete_event :=
| WouldDelete (k : kind) (name : string) (count : nat)
| Deleted (k : kind) (name : string) (count : nat).

Definition kind_name (k : kind) : string :=
  match k with
  | Loadpoint => "loadpoint"
  | Vehicle => "vehicle"
  end.

(** One of the two loops of [runDelete] over the parsed names: a dry run
    counts, a real run deletes, each name on the database that the names
    before it have left. *)
Fixpoint delete_names (dryRun : bool) (k : kind) (c : Database)
    (names : list string) : Database * list delete_event * option error :=
  match names with
  | [] => (c, [], None)
  | name :: names' =>
      if dryRun then
        match CountSessions k c name with
        | (_, Some e) =>
            (c, [], Some (Wrapped ("failed to count sessions for " +:+ kind_name k) e))
        | (count, None) =>
            let '(c', log, err) := delete_names dryRun k c names' in
            (c', WouldDelete k name count :: log, err)
        end
      else
        match DeleteSessions k c name with
        | (c1, (_, Some e)) =>
            (c1, [], Some (Wrapped ("failed to delete sessions for " +:+ kind_name k) e))
        | (c1, (count, None)) =>
            let '(c', log, err) := delete_names dryRun k c1 names' in
            (c', Deleted k name count :: log, err)
        end
  end.

(** The two loops of [runDelete], the loadpoints before the vehicles. *)
Definition delete_all (dryRun : bool) (c : Database)
    (loadpoints vehicles : list string)
  : Database * list delete_event * option error :=
  match delete_names dryRun Loadpoint c loadpoints with
  | (c1, log1, Some e) => (c1, log1, Some e)
  | (c1, log1, None) =>
      let '(c2, log2, err) := delete_names dryRun Vehicle c1 vehicles in
      (c2, log1 ++ log2, err)
  end.

(** *** [strings.TrimSpace], [strings.Split] and [strings.SplitN] *)

(** The code points with the Unicode property White_Space, which are the
    ones [unicode.IsSpace] accepts. *)
Definition white_space : list N :=
  [0x09; 0x0A; 0x0B; 0x0C; 0x0D; 0x20; 0x85; 0xA0; 0x1680;
   0x2000; 0x2001; 0x2002; 0x2003; 0x2004; 0x2005; 0x2006; 0x2007;
   0x2008; 0x2009; 0x200A; 0x2028; 0x2029; 0x202F; 0x205F; 0x3000]%N.

(** The UTF-8 encoding of a code point below [0x10000] that is no
    surrogate. *)
Definition utf8 (r : N) : string :=
  if (r <? 0x80)%N then String (ascii_of_N r) ""
  else if (r <? 0x800)%N then
    String (ascii_of_N (0xC0 + r / 64))
      (String (ascii_of_N (0x80 + r mod 64)) "")
  else
    String (ascii_of_N (0xE0 + r / 4096))
      (String (ascii_of_N (0x80 + (r / 64) mod 64))
         (String (ascii_of_N (0x80 + r mod 64)) "")).

Definition spaces : list string := map utf8 white_space.

(** The rest of [s] after the first of [ws] that [s] begins with. *)
Fixpoint strip_one (ws : list string) (s : string) : option string :=
  match ws with
  | [] => None
  | w :: ws' =>
      if HasPrefix s w then Some (string_drop (String.length w) s)
      else strip_one ws' s
  end.

(** At most [n] times. *)
Fixpoint strip (ws : list string) (n : nat) (s : string) : string :=
  match n with
  | O => s
  | S n' =>
      match strip_one ws s with
      | Some rest => strip ws n' rest
      | None => s
      end
  end.

(** [strings.TrimSpace(s)]: the white space at the start is skipped rune
    by rune, then the white space at the end, read backwards.  A string
    is a sequence of bytes; a rune is white space exactly when its bytes
    are the encoding of a White_Space code point (bytes that are no
    well-formed UTF-8 decode to U+FFFD, which is none). *)
Definition TrimLeftSpace (s : string) : string :=
  strip spaces (String.length s) s.

Definition TrimRightSpace (s : string) : string :=
  String.rev (strip (map String.rev spaces) (String.length s) (String.rev s)).

Definition TrimSpace (s : string) : string := TrimRightSpace (TrimLeftSpace s).

(** [strings.Split(s, sep)] for a separator of one byte. *)
Fixpoint Split (s : string) (sep : ascii) : list string :=
  match s with
  | EmptyString => [""]
  | String c s' =>
      if Ascii.eqb c sep then "" :: Split s' sep
      else match Split s' sep with
           | piece :: pieces => String c piece :: pieces
           | [] => [String c ""]
           end
  end.

(** [strings.SplitN(s, sep, 2)] for a separator of one byte: [s] is cut
    at the first separator, if there is one. *)
Fixpoint SplitN2 (s : string) (sep : ascii) : list string :=
  match s with
  | EmptyString => [""]
  | String c s' =>
      if Ascii.eqb c sep then [""; s']
      else match SplitN2 s' sep with
           | [before; after] => [String c before; after]
           | _ => [s]
           end
  end.

(** *** The flags *)

(** [parseNames] *)
Definition parseNames (s : string) : list string :=
  filter (fun name => name ≠ "") (map TrimSpace (Split s ",")).

(** The two errors of [parseRenames], with the pair they quote. *)
Inductive parse_error :=
| ExpectedOldNew (pair : string)
| EmptyName (pair : string).

Fixpoint parse_pairs (pairs : list string) : parse_error + list RenameMapping :=
  match pairs with
  | [] => inr []
  | piece :: pairs' =>
      let pair := TrimSpace piece in
      if String.eqb pair "" then parse_pairs pairs'
      else
        match SplitN2 pair ":" with
        | [a; b] =>
            let oldName := TrimSpace a in
            let newName := TrimSpace b in
            if String.eqb oldName "" || String.eqb newName "" then
              inl (EmptyName pair)
            else
              match parse_pairs pairs' with
              | inl e => inl e
              | inr renames => inr (mkRename oldName newName :: renames)
              end
        | _ => inl (ExpectedOldNew pair)
        end
  end.

(** [parseRenames] *)
Definition parseRenames (s : string) : parse_error + list RenameMapping :=
  if String.eqb s "" then inr [] else parse_pairs (Split s ",").

(** [parseMode] *)
Definition parseMode (modeStr : string) : Z :=
  if String.eqb modeStr "config" then TransferConfig
  else if String.eqb modeStr "metrics" then TransferMetrics
  else if String.eqb modeStr "all" then TransferAll
  else TransferConfig.

(** What a command returns: a flag that does not parse, or the error of
    the library with its context. *)
Inductive cli_error :=
| InvalidFlag (flag : string) (e : parse_error)
| Failed (context : string) (e : error).

(** The options that [runTransfer] builds from its flags. *)
Definition transfer_options
    (modeStr tables renameLoadpoints renameVehicles : string)
    (dryRun verbose : bool) : cli_error + TransferOptions :=
  let mode := parseMode modeStr in
  let tableList :=
    if String.eqb tables "" then []
    else map TrimSpace (Split tables ",") in
  match (if String.eqb renameLoadpoints "" then inr []
         else parseRenames renameLoadpoints) with
  | inl e => inl (InvalidFlag "--rename-loadpoint" e)
  | inr loadpoints =>
      match (if String.eqb renameVehicles "" then inr []
             else parseRenames renameVehicles) with
      | inl e => inl (InvalidFlag "--rename-vehicle" e)
      | inr vehicles =>
          inr (mkOptions mode tableList dryRun verbose loadpoints vehicles)
      end
  end.

(** What [runRename] prints for one rename. *)
Inductive rename_line :=
| WouldRename (k : kind) (oldName newName : string) (result : RenameResult)
| Renamed (k : kind) (oldName newName : string) (result : RenameResult).

Section Commands.
Context {codec : Codec}.

(** [runTransfer] on the two open databases: the destination afterwards,
    the log of [Transfer] and the error.  Both rename flags are parsed
    before [Transfer] is called; the closing line of the command is not
    part of the log. *)
Definition runTransfer (src dst : Database)
    (modeStr tables renameLoadpoints renameVehicles : string)
    (dryRun verbose : bool) : Database * list event * option cli_error :=
  match transfer_options modeStr tables renameLoadpoints renameVehicles
                         dryRun verbose with
  | inl e => (dst, [], Some e)
  | inr opts =>
      let run := Transfer src dst opts in
      (out_dst run, out_log run,
       match out_err run with
       | Some e => Some (Failed "transfer failed" e)
       | None => None
       end)
  end.

(** One of the two loops of [runRename] over the parsed renames: a dry
    run counts on the database as it is and prints each result, a real
    run renames, each rename on the database that the renames before it
    have left, and prints a result when [verbose] is set. *)
Fixpoint rename_each (dryRun verbose : bool) (k : kind) (c : Database)
    (renames : list RenameMapping)
  : Database * list rename_line * option cli_error :=
  match renames with
  | [] => (c, [], None)
  | rename :: renames' =>
      if dryRun then
        match RenameDryRun k c (OldName rename) (NewName rename) with
        | (_, Some e) =>
            (c, [], Some (Failed ("dry run failed for " +:+ kind_name k) e))
        | (result, None) =>
            let '(c', log, err) := rename_each dryRun verbose k c renames' in
            (c', WouldRename k (OldName rename) (NewName rename) result :: log, err)
        end
      else
        match Rename k c (OldName rename) (NewName rename) with
        | (c1, (_, Some e)) =>
            (c1, [], Some (Failed ("failed to rename " +:+ kind_name k) e))
        | (c1, (result, None)) =>
            let '(c', log, err) := rename_each dryRun verbose k c1 renames' in
            (c',
             (if verbose
              then [Renamed k (OldName rename) (NewName rename) result]
              else []) ++ log,
             err)
        end
  end.

(** One flag of [runRename]: parsed, then applied. *)
Definition rename_flag (dryRun verbose : bool) (k : kind) (c : Database)
    (flag : string) : Database * list rename_line * option cli_error :=
  if String.eqb flag "" then (c, [], None)
  else
    match parseRenames flag with
    | inl e => (c, [], Some (InvalidFlag ("--" +:+ kind_name k) e))
    | inr renames => rename_each dryRun verbose k c renames
    end.

(** [runRename] on the open database: the loadpoint flag is parsed and
    applied before the vehicle flag is parsed.  The closing line of the
    command is not among the lines. *)
Definition runRename (dryRun verbose : bool) (c : Database)
    (renameLoadpoints renameVehicles : string)
  : Database * list rename_line * option cli_error :=
  match rename_flag dryRun verbose Loadpoint c renameLoadpoints with
  | (c1, log1, Some e) => (c1, log1, Some e)
  | (c1, log1, None) =>
      let '(c2, log2, err) :=
        rename_flag dryRun verbose Vehicle c1 renameVehicles in
      (c2, log1 ++ log2, err)
  end.

End Commands.

(** ** A codec for flat JSON objects

    An instance of [Codec] on which the functions above can be run: it
    covers the JSON objects whose members are texts, whole numbers of
    magnitude below 2^53, booleans or null, with the short escapes in
    texts, and encodes as [json.Marshal] does (members sorted by key, no
    blanks, the characters [<], [>] and [&] written as [\u00..]).  A text
    that is not JSON is rejected, as [json.Unmarshal] rejects it; so is,
    unlike there, JSON outside this fragment.  The statements below hold
    for every codec; this one serves the concrete runs. *)

Inductive jvalue :=
| JNull
| JBool (b : bool)
| JNumber (n : Z)
| JString (s : string).

Fixpoint skip_blanks (s : string) : string :=
  match s with
  | String c s' =>
      let n := nat_of_ascii c in
      if (n =? 32)%nat || (n =? 9)%nat || (n =? 10)%nat || (n =? 13)%nat
      then skip_blanks s' else s
  | EmptyString => s
  end.

(** The text after an opening quote, up to the closing one. *)
Fixpoint read_text (s : string) : option (string * string) :=
  match s with
  | EmptyString => None
  | String c s' =>
      let n := nat_of_ascii c in
      if (n =? 34)%nat then Some (EmptyString, s')
      else if (n =? 92)%nat then
        match s' with
        | String e s'' =>
            let m := nat_of_ascii e in
            let plain (d : ascii) :=
              match read_text s'' with
              | Some (t, rest) => Some (String d t, rest)
              | None => None
              end in
            if (m =? 34)%nat || (m =? 92)%nat || (m =? 47)%nat then plain e
            else if (m =? 110)%nat then plain (ascii_of_nat 10)
            else if (m =? 114)%nat then plain (ascii_of_nat 13)
            else if (m =? 116)%nat then plain (ascii_of_nat 9)
            else if (m =? 98)%nat then plain (ascii_of_nat 8)
            else if (m =? 102)%nat then plain (ascii_of_nat 12)
            else None
        | EmptyString => None
        end
      else if (n <? 32)%nat then None
      else match read_text s' with
           | Some (t, rest) => Some (String c t, rest)
           | None => None
           end
  end.

(** The longest run of digits at the head of a text. *)
Fixpoint read_digits (s : string) : string * string :=
  match s with
  | String c s' =>
      if is_digit c then let '(d, rest) := read_digits s' in (String c d, rest)
      else (EmptyString, s)
  | EmptyString => (EmptyString, s)
  end.

Definition read_number (s : string) : option (jvalue * string) :=
  let '(negative, body) :=
    match s with
    | String c s' => if Ascii.eqb c "-" then (true, s') else (false, s)
    | EmptyString => (false, s)
    end in
  let '(d, rest) := read_digits body in
  match d with
  | EmptyString => None
  | String c d' =>
      let leading_zero := Ascii.eqb c "0" && negb (String.eqb d' EmptyString) in
      let fraction :=
        match rest with
        | String e _ => Ascii.eqb e "." || Ascii.eqb e "e" || Ascii.eqb e "E"
        | EmptyString => false
        end in
      match digits_value 0 d with
      | Some n =>
          if leading_zero || fraction || negb (n <? 2 ^ 53)%Z
             || (negative && (n =? 0)%Z)
          then None
          else Some (JNumber (if negative then - n else n), rest)
      | None => None
      end
  end.

Definition read_value (s : string) : option (jvalue * string) :=
  match s with
  | String c s' =>
      if (nat_of_ascii c =? 34)%nat then
        match read_text s' with
        | Some (t, rest) => Some (JString t, rest)
        | None => None
        end
      else if HasPrefix s "true" then Some (JBool true, string_drop 4 s)
      else if HasPrefix s "false" then Some (JBool false, string_drop 5 s)
      else if HasPrefix s "null" then Some (JNull, string_drop 4 s)
      else read_number s
  | EmptyString => None
  end.

(** One member [key : value] at the head of [s]. *)
Definition read_member (s : string) : option (string * jvalue * string) :=
  match s with
  | String c s' =>
      if (nat_of_ascii c =? 34)%nat then
        match read_text s' with
        | Some (key, rest) =>
            match skip_blanks rest with
            | String colon rest' =>
                if Ascii.eqb colon ":" then
                  match read_value (skip_blanks rest') with
                  | Some (v, rest'') => Some (key, v, rest'')
                  | None => None
                  end
                else None
            | EmptyString => None
            end
        | None => None
        end
      else None
  | EmptyString => None
  end.

(** The members after the opening brace; a later member replaces an
    earlier one of the same key.  [fuel] bounds the number of members. *)
Fixpoint read_members (fuel : nat) (s : string) (acc : gmap string jvalue)
  : option (gmap string jvalue * string) :=
  match fuel with
  | O => None
  | S fuel' =>
      match read_member s with
      | None => None
      | Some (key, v, rest) =>
          let acc' := <[key := v]> acc in
          match skip_blanks rest with
          | String c rest' =>
              if Ascii.eqb c "," then read_members fuel' (skip_blanks rest') acc'
              else if Ascii.eqb c "}" then Some (acc', rest')
              else None
          | EmptyString => None
          end
      end
  end.

Definition flat_unmarshal (s : string) : option (gmap string jvalue) :=
  let s := skip_blanks s in
  if String.eqb s "null" then Some ∅ else
  match s with
  | String c s' =>
      if Ascii.eqb c "{" then
        match skip_blanks s' with
        | String d rest =>
            if Ascii.eqb d "}" then
              if String.eqb (skip_blanks rest) EmptyString then Some ∅ else None
            else
              match read_members (String.length s) (String d rest) ∅ with
              | Some (m, rest') =>
                  if String.eqb (skip_blanks rest') EmptyString
                  then Some m else None
              | None => None
              end
        | EmptyString => None
        end
      else None
  | EmptyString => None
  end.

Definition hex_digit (n : nat) : ascii :=
  if (n <? 10)%nat then ascii_of_nat (48 + n) else ascii_of_nat (87 + n).

Fixpoint write_text (s : string) : string :=
  match s with
  | EmptyString => EmptyString
  | String c s' =>
      let n := nat_of_ascii c in
      let rest := write_text s' in
      if (n =? 34)%nat || (n =? 92)%nat
      then String (ascii_of_nat 92) (String c rest)
      else if (n =? 10)%nat then "\n" +:+ rest
      else if (n =? 13)%nat then "\r" +:+ rest
      else if (n =? 9)%nat then "\t" +:+ rest
      else if (n =? 8)%nat then "\b" +:+ rest
      else if (n =? 12)%nat then "\f" +:+ rest
      else if (n <? 32)%nat || (n =? 60)%nat || (n =? 62)%nat || (n =? 38)%nat
      then "\u00" +:+ String (hex_digit (n / 16))
                             (String (hex_digit (n mod 16)) rest)
      else String c rest
  end.

Definition quote : string := String (ascii_of_nat 34) EmptyString.

Definition write_value (v : jvalue) : string :=
  match v with
  | JNull => "null"
  | JBool true => "true"
  | JBool false => "false"
  | JNumber n => pretty n
  | JString s => quote +:+ write_text s +:+ quote
  end.

Definition key_le (a b : string * jvalue) : Prop :=
  String.leb (fst a) (fst b) = true.

#[global] Instance key_le_dec : RelDecision key_le.
Proof. intros a b. unfold key_le. apply _. Defined.

Fixpoint write_members (l : list (string * jvalue)) : string :=
  match l with
  | [] => EmptyString
  | [(k, v)] => quote +:+ write_text k +:+ quote +:+ ":" +:+ write_value v
  | (k, v) :: l' =>
      quote +:+ write_text k +:+ quote +:+ ":" +:+ write_value v +:+ ","
      +:+ write_members l'
  end.

Definition flat_marshal (m : gmap string jvalue) : option string :=
  Some ("{" +:+ write_members (merge_sort key_le (map_to_list m)) +:+ "}").

Definition flat_json : Codec := {|
  any := jvalue;
  Unmarshal := flat_unmarshal;
  Marshal := flat_marshal;
  asString := fun v => match v with JString s => Some s | _ => None end;
  ofString := JString
|}.

(** ** Vocabulary of the statements on the settings table *)

(** The key prefix of a vehicle, as [RenameVehicle] builds it. *)
Definition vehicle_prefix (name : string) : string := "vehicle." +:+ name +:+ ".".

#[global] Arguments vehicle_prefix : simpl never.

(** The key that the migration stores the value of [key] under. *)
Definition migrated_key (oldName newName key : string) : string :=
  vehicle_prefix newName +:+ TrimPrefix key (vehicle_prefix oldName).

(** The row has the key [key]. *)
Definition has_key (key : string) (r : Row) : bool :=
  sql_eq (cell r 0) (VText key).

Definition setting (key value : string) : Row := [VText key; VText value].

(** The settings table of the application: the primary key [key] and the
    column [value], both holding texts. *)
Definition settings_schema (cols : list ColumnInfo) : bool :=
  match cols with
  | [kc; vc] =>
      String.eqb (Name kc) "key" && Primary kc
      && String.eqb (Name vc) "value" && negb (Primary vc)
  | _ => false
  end.

Definition is_setting (r : Row) : bool :=
  match r with
  | [VText _; VText _] => true
  | _ => false
  end.

Definition key_text (r : Row) : string :=
  match r with
  | VText k :: _ => k
  | _ => EmptyString
  end.

Definition value_text (r : Row) : string :=
  match r with
  | [_; VText v] => v
  | _ => EmptyString
  end.

Definition settings_table (t : Table) : bool :=
  settings_schema (columns t) && forallb is_setting (rows t).

(** The rows that [renameSettingsKeys] selects for the old name. *)
Definition selected (oldName : string) (r : Row) : bool :=
  sql_like (vehicle_prefix oldName +:+ "%") (cell r 0).

Definition selected_keys (oldName : string) (t : Table) : list string :=
  map key_text (filter (fun r => selected oldName r = true) (rows t)).

(** The [keyValue] structs that the first loop collects. *)
Definition kv_of (r : Row) : string * string := (key_text r, value_text r).

Definition selected_kvs (oldName : string) (t : Table) : list (string * string) :=
  map kv_of (filter (fun r => selected oldName r = true) (rows t)).

(** The row that the migration stores for a [keyValue] struct. *)
Definition migrated (oldName newName : string) (kv : string * string) : Row :=
  setting (migrated_key oldName newName kv.1) kv.2.

(** One round of the second loop of [renameSettingsKeys] on the rows. *)
Definition migrate_step (oldName newName : string) (rs : list Row)
    (kv : string * string) : list Row :=
  filter (fun r => has_key kv.1 r = false)
         (filter (fun r => has_key (migrated_key oldName newName kv.1) r = false) rs
          ++ [setting (migrated_key oldName newName kv.1) kv.2]).

(** The row has none of the keys [ks]. *)
Definition not_among (ks : list string) (r : Row) : bool :=
  forallb (fun k => negb (has_key k r)) ks.

(** The migrated keys are new: different from each other and from every
    key of the table, whose keys are different from each other. *)
Definition no_key_clash (oldName newName : string) (t : Table) : bool :=
  bool_decide (NoDup (map (migrated_key oldName newName) (selected_keys oldName t)
                      ++ map key_text (rows t))).

(** The settings table is the application's and the migration of the
    keys of [oldName] meets no key of the table. *)
Definition clean_migration (c : Database) (oldName newName : string) : bool :=
  match c !! "settings" with
  | Some t => settings_table t && no_key_clash oldName newName t
  | None => false
  end.

(** Every key that the pattern selects starts with the prefix of
    [oldName], letter for letter. *)
Definition literal_selection (oldName : string) (t : Table) : bool :=
  forallb (fun k => HasPrefix k (vehicle_prefix oldName)) (selected_keys oldName t).





(** Two states of a database with the same tables, column for column,
    and as many rows in each. *)
Definition same_counts (a b : Database) : Prop :=
  ∀ table, GetRowCount a table = GetRowCount b table.

(** ** Vocabulary of the statements on the row copier *)

(** The rows that a copy of [table] inserts into the destination, in the
    order of the source: the cells of the common columns, completed with
    the defaults of the other destination columns. *)
Definition rows_to_insert (src dst : Database) (table : string) : list Row :=
  match src !! table, dst !! table with
  | Some s, Some d =>
      let colNames := map Name (intersectColumns (columns s) (columns d)) in
      map (fun r => inserted_row (columns d) colNames
                                 (project (columns s) colNames r))
          (rows s)
  | _, _ => []
  end.

(** No row of the list collides, on the primary key, with a row before
    it. *)
Fixpoint collision_free (cols : list ColumnInfo) (rs : list Row) : bool :=
  match rs with
  | [] => true
  | r :: rs' =>
      forallb (fun r' => negb (pk_conflict cols r' r)) rs'
      && collision_free cols rs'
  end.

(** ** Vocabulary of the statements on the previews of a transfer *)

(** The counts that a log reports for the rename directives, in order. *)
Definition previews (log : list event) : list RenameResult :=
  omap (fun e => match e with
                 | LoadpointPreview _ _ result => Some result
                 | VehiclePreview _ _ result => Some result
                 | _ => None
                 end) log.

(** The counts of the counting mode on the state [c], directive by
    directive. *)
Definition preview_counts {codec : Codec} (k : kind) (c : Database)
    (renames : list RenameMapping) : list RenameResult :=
  map (fun rename => fst (RenameDryRun k c (OldName rename) (NewName rename)))
      renames.

(** The states that the directives of one kind are applied to, one after
    the other, from the state [c] on. *)
Fixpoint states_before {codec : Codec} (k : kind) (c : Database)
    (renames : list RenameMapping) : list Database :=
  match renames with
  | [] => []
  | rename :: renames' =>
      c :: states_before k (fst (Rename k c (OldName rename) (NewName rename)))
                         renames'
  end.

(** The state after the directives of one kind. *)
Fixpoint state_after {codec : Codec} (k : kind) (c : Database)
    (renames : list RenameMapping) : Database :=
  match renames with
  | [] => c
  | rename :: renames' =>
      state_after k (fst (Rename k c (OldName rename) (NewName rename))) renames'
  end.

(** The destination as the copy phase of a real run commits it. *)
Definition committed (src dst : Database) (opts : TransferOptions) : Database :=
  match ResolveTables opts with
  | inr tables => fst (fst (copy_tables dst src dst (OnProgress opts) tables))
  | inl _ => dst
  end.

(** The states that the directives of a real run are applied to. *)
Definition rename_states {codec : Codec} (src dst : Database)
    (opts : TransferOptions) : list Database :=
  states_before Loadpoint (committed src dst opts) (LoadpointRenames opts)
  ++ states_before Vehicle
       (state_after Loadpoint (committed src dst opts) (LoadpointRenames opts))
       (VehicleRenames opts).

(** Two databases with the same three tables that a rename reads. *)
Definition same_entities (a b : Database) : Prop :=
  a !! "sessions" = b !! "sessions"
  ∧ a !! "settings" = b !! "settings"
  ∧ a !! "configs" = b !! "configs".

(** ** Vocabulary of the statements on repeated renames *)

(** The sessions column that holds the name of an entity. *)
Definition entity_column (k : kind) : string :=
  match k with
  | Loadpoint => "loadpoint"
  | Vehicle => "vehicle"
  end.

(** The WHERE clause of [renameSettingsValue] for a loadpoint title. *)
Definition title_setting (name : string) : cond :=
  CAnd (CLike "key" "lp%.title") (CEq "value" (VText name)).

(** The name is unused: the counting queries find no session with it
    and no setting for it. *)
Definition unused (k : kind) (c : Database) (name : string) : bool :=
  match sql_count c "sessions" (CEq (entity_column k) (VText name)),
        sql_count c "settings"
          (match k with
           | Loadpoint => title_setting name
           | Vehicle => CLike "key" (vehicle_prefix name +:+ "%")
           end) with
  | inr O, inr O => true
  | _, _ => false
  end.

(** No migrated key is selected by the pattern of [oldName]. *)
Definition leaves_old_pattern (oldName newName : string) (t : Table) : bool :=
  forallb (fun k => negb (like (vehicle_prefix oldName +:+ "%")
                               (migrated_key oldName newName k)))
          (selected_keys oldName t).

(** The migration of the keys of [oldName] follows the prefixes: it meets
    no key of the table, every selected key starts with the old prefix,
    and no migrated key is selected again. *)
Definition faithful_migration (c : Database) (oldName newName : string) : bool :=
  clean_migration c oldName newName
  && match c !! "settings" with
     | Some t => literal_selection oldName t && leaves_old_pattern oldName newName t
     | None => false
     end.

(** The settings table is the application's and the pattern of [oldName]
    selects no migrated key. *)
Definition settled_migration (c : Database) (oldName newName : string) : bool :=
  match c !! "settings" with
  | Some t => settings_table t && leaves_old_pattern oldName newName t
  | None => false
  end.

(** The settings rows that a migration of the keys of [oldName] keeps,
    and the rows that it stores for the selected ones. *)
Definition kept_rows (oldName : string) (rs : list Row) : list Row :=
  filter (fun r => selected oldName r = false) rs.

Definition moved_rows (oldName newName : string) (rs : list Row) : list Row :=
  map (migrated oldName newName)
      (map kv_of (filter (fun r => selected oldName r = true) rs)).

(** The three runs of a rename and back: the rename, the same rename
    again on the database it leaves, and the rename with the names
    swapped on the database that the second run leaves. *)
Definition first_run {codec : Codec} (k : kind) (c : Database)
    (oldName newName : string) : Database * (RenameResult * option error) :=
  Rename k c oldName newName.

Definition second_run {codec : Codec} (k : kind) (c : Database)
    (oldName newName : string) : Database * (RenameResult * option error) :=
  Rename k (first_run k c oldName newName).1 oldName newName.

Definition third_run {codec : Codec} (k : kind) (c : Database)
    (oldName newName : string) : Database * (RenameResult * option error) :=
  Rename k (second_run k c oldName newName).1 newName oldName.

(** ** Sample data

    Texts with double quotes are written with single quotes and passed
    through [dq]. *)
Fixpoint dq (s : string) : string :=
  match s with
  | EmptyString => EmptyString
  | String c s' =>
      String (if Ascii.eqb c "'" then ascii_of_nat 34 else c) (dq s')
  end.

Definition column (name type : string) (pk : bool) : ColumnInfo :=
  mkColumn name type false None pk.

(** The schema of testutil_test.go. *)
Definition settings_columns : list ColumnInfo :=
  [column "key" "TEXT" true; column "value" "TEXT" false].

Definition configs_columns : list ColumnInfo :=
  [column "id" "INTEGER" true; column "class" "INTEGER" false;
   column "type" "TEXT" false; column "value" "TEXT" false;
   column "title" "TEXT" false; column "icon" "TEXT" false;
   column "product" "TEXT" false].

Definition sessions_columns : list ColumnInfo :=
  [column "id" "INTEGER" true; column "created" "DATETIME" false;
   column "finished" "DATETIME" false; column "loadpoint" "TEXT" false;
   column "identifier" "TEXT" false; column "vehicle" "TEXT" false].

Definition config (id class : Z) (value : string) : Row :=
  [VInt id; VInt class; VText "template"; VText value; VNull; VNull; VNull].

Definition session (id : Z) (created loadpoint : string) (vehicle : Value) : Row :=
  [VInt id; VText created; VNull; VText loadpoint; VNull; vehicle].

(** The sample data of testutil_test.go. *)
Definition test_settings : Table :=
  mkTable settings_columns
    [setting "lp1.title" "Garage"; setting "lp1.mode" "pv";
     setting "lp2.title" "eBikes"; setting "vehicle.e-Golf.minSoc" "25";
     setting "vehicle.e-Golf.limitSoc" "90";
     setting "vehicle.e-Golf.planSoc" "0"].

Definition test_db : Database :=
  <["settings" := test_settings]>
  (<["configs" := mkTable configs_columns
      [config 1 5 (dq "{'title':'Garage','charger':'db:1'}");
       config 2 3 (dq "{'title':'e-Golf','type':'vw'}")]]>
  (<["caches" := mkTable settings_columns []]>
  (<["sessions" := mkTable sessions_columns
      [session 1 "2023-04-01 10:00:00" "Garage" (VText "e-Golf");
       session 2 "2023-04-02 10:00:00" "Garage" (VText "e-Golf");
       session 3 "2023-04-03 10:00:00" "Garage" VNull;
       session 4 "2023-04-04 10:00:00" "eBikes" (VText "e-Bike");
       session 5 "2023-04-05 10:00:00" "eBikes" VNull]]> ∅))).



(** A source with a [settings] table that can be copied into [test_db],
    without a [configs] table, and with a [caches] table that shares no
    column with the one of [test_db]. *)
Definition drifted_src : Database :=
  <["settings" := mkTable settings_columns [setting "lp1.title" "Carport"]]>
  (<["caches" := mkTable [column "name" "TEXT" true] [[VText "tariff"]]]> ∅).

(** [test_db] with a settings key of the vehicle [ID.4]. *)
Definition taken_db : Database :=
  <["settings" := mkTable settings_columns
      [setting "lp1.title" "Garage"; setting "lp1.mode" "pv";
       setting "lp2.title" "eBikes"; setting "vehicle.e-Golf.minSoc" "25";
       setting "vehicle.e-Golf.limitSoc" "90";
       setting "vehicle.e-Golf.planSoc" "0";
       setting "vehicle.ID.4.minSoc" "10"]]> test_db.

(** [test_db] with the settings of a vehicle called [ID]. *)
Definition id_db : Database :=
  <["settings" := mkTable settings_columns
      [setting "vehicle.ID.minSoc" "25"]]> test_db.




(** A destination whose [settings] table is empty. *)
Definition empty_dst : Database :=
  <["settings" := mkTable settings_columns []]> ∅.

(** [test_db] with three other sessions at the loadpoint [Garage]. *)
Definition other_sessions_db : Database :=
  <["sessions" := mkTable sessions_columns
      [session 11 "2024-01-01 08:00:00" "Garage" VNull;
       session 12 "2024-01-02 08:00:00" "Garage" VNull;
       session 13 "2024-01-03 08:00:00" "Garage" VNull]]> test_db.

(** [test_db] with a single session at the loadpoint [Garage]. *)
Definition drop_sessions_db : Database :=
  <["sessions" := mkTable sessions_columns
      [session 11 "2024-01-01 08:00:00" "Garage" VNull]]> test_db.

Definition garage_to_carport (dryRun : bool) : TransferOptions :=
  mkOptions TransferConfig [] dryRun false [mkRename "Garage" "Carport"] [].

(** ** More of Go's [strings] package *)

(** [strings.ReplaceAll(s, old, new)] for a non-empty [old]: the
    occurrences of [old] are replaced from left to right, without
    overlap.  [skip] counts the characters of an occurrence still to be
    dropped. *)
Fixpoint replace_all (skip : nat) (s old new : string) : string :=
  match s with
  | EmptyString => EmptyString
  | String c s' =>
      match skip with
      | S k => replace_all k s' old new
      | O =>
          if HasPrefix s old
          then new +:+ replace_all (String.length old - 1) s' old new
          else String c (replace_all O s' old new)
      end
  end.

Definition ReplaceAll (s old new : string) : string := replace_all O s old new.

(** ** export.go *)

(** [escapeSQL] *)
Definition escapeSQL (s : string) : string := ReplaceAll s "'" "''".

(** The values of type [any] that [formatValueForSQL] tells apart; the
    text that [%v] prints for a [float64] is left open. *)
Class Format := {
  float64 : Type;
  format_float : float64 -> string
}.

Inductive goany {fmt : Format} :=
| ANil
| AString (v : string)
| AFloat64 (v : float64)
| AInt (v : Z)
| ABool (v : bool)
| AOther.

(** [formatValueForSQL]; the column type is not used, as in the source. *)
Definition formatValueForSQL {fmt : Format} (val : goany) (colType : string)
  : string :=
  match val with
  | ANil => "NULL"
  | AString v => "'" +:+ escapeSQL v +:+ "'"
  | AFloat64 v => format_float v
  | AInt v => pretty v
  | ABool true => "1"
  | ABool false => "0"
  | AOther => "NULL"
  end.

(** ** The literals of a statement text *)

(** The SQL string literal at the head of a statement text, read as
    SQLite's tokenizer reads it: after the opening quote, two quotes in a
    row stand for one quote, and a single quote ends the literal.  The
    result is the value of the literal and the text after it. *)
Fixpoint read_sql_text (s : string) : option (string * string) :=
  match s with
  | EmptyString => None
  | String c s' =>
      if Ascii.eqb c "'" then
        match s' with
        | String d s'' =>
            if Ascii.eqb d "'"
            then match read_sql_text s'' with
                 | Some (t, rest) => Some (String "'" t, rest)
                 | None => None
                 end
            else Some (EmptyString, s')
        | EmptyString => Some (EmptyString, EmptyString)
        end
      else match read_sql_text s' with
           | Some (t, rest) => Some (String c t, rest)
           | None => None
           end
  end.

Definition read_sql_literal (s : string) : option (string * string) :=
  match s with
  | String c s' => if Ascii.eqb c "'" then read_sql_text s' else None
  | EmptyString => None
  end.


(** ** Vocabulary of the statements on deleted sessions *)

(** The name and the count of a line that [runDelete] prints. *)
Definition event_count (e : delete_event) : nat :=
  match e with
  | WouldDelete _ _ count => count
  | Deleted _ _ count => count
  end.

Definition event_target (e : delete_event) : kind * string :=
  match e with
  | WouldDelete k name _ => (k, name)
  | Deleted k name _ => (k, name)
  end.

Definition reported_total (log : list delete_event) : nat :=
  foldr (fun e n => event_count e + n)%nat O log.

(** [ci] is [c] with some of its sessions removed. *)
Definition narrowed (c ci : Database) : Prop :=
  (∀ table, table ≠ "sessions" → ci !! table = c !! table)
  ∧ match c !! "sessions", ci !! "sessions" with
    | Some t, Some ti => columns ti = columns t ∧ rows ti `sublist_of` rows t
    | None, None => True
    | _, _ => False
    end.

(** The count that the dry run reports for a name is at least the count
    that the real run reports for it. *)
Definition covers (dry real : delete_event) : Prop :=
  event_target dry = event_target real ∧ (event_count real <= event_count dry)%nat.

(** ** Vocabulary of the statements on the configs table *)

(** The class of the configs of a loadpoint and of a vehicle, as
    [RenameLoadpoint] and [RenameVehicle] pass it. *)
Definition class_of (k : kind) : Z :=
  match k with
  | Loadpoint => 5
  | Vehicle => 3
  end.

(** [row'] is [row], or [row] with another text in cell [iv]. *)
Definition same_but_text (iv : nat) (row row' : Row) : Prop :=
  row' = row ∨ ∃ v, row' = set_cell iv (VText v) row.

(** ** Vocabulary of the statements on copied rows *)

(** The rows of a table after [INSERT OR REPLACE] of the row [r]. *)
Definition upsert (cols : list ColumnInfo) (rs : list Row) (r : Row) : list Row :=
  filter (fun r' => pk_conflict cols r r' = false) rs ++ [r].

(** The row that a copy stores for the source row [r]: a destination
    column takes the cell of the source column of its name, or its
    default when the source has no such column, or when that cell is NULL
    and the column is NOT NULL. *)
Definition carried_cell (scols : list ColumnInfo) (r : Row) (c : ColumnInfo)
  : Value :=
  match col_index scols (Name c) with
  | Some i =>
      match cell r i with
      | VNull => if NotNull c then default_value c else VNull
      | v => v
      end
  | None => default_value c
  end.

Definition carried (scols dcols : list ColumnInfo) (r : Row) : Row :=
  map (carried_cell scols r) dcols.

(** The row has a primary key without NULL. *)
Definition keyed (cols : list ColumnInfo) (r : Row) : bool := pk_conflict cols r r.

(** The progress calls and the skipped tables of a log. *)
Definition progress_of (e : event) : option (string * nat) :=
  match e with
  | Progress table count => Some (table, count)
  | _ => None
  end.

(** The row counts that a dry run announces. *)
Definition would_copy_of (e : event) : option (string * nat) :=
  match e with
  | WouldCopy table count => Some (table, count)
  | _ => None
  end.

Definition missing_of (e : event) : option string :=
  match e with
  | MissingTable table => Some table
  | _ => None
  end.

(** What the progress callback of a real run is expected to receive for
    [table]: nothing when the destination has no such table, and else
    the row count of the source table. *)
Definition expected_progress (src dst : Database) (table : string)
  : option (string * nat) :=
  match dst !! table, src !! table with
  | Some _, Some s => Some (table, length (rows s))
  | _, _ => None
  end.

(** ** Vocabulary of the statements on the flags *)

(** [strings.HasSuffix(s, suffix)] *)
Definition HasSuffix (s suffix : string) : bool :=
  HasPrefix (String.rev s) (String.rev suffix).

(** [strings.Join(elems, sep)] *)
Fixpoint Join (elems : list string) (sep : string) : string :=
  match elems with
  | [] => ""
  | [e] => e
  | e :: elems' => e +:+ sep +:+ Join elems' sep
  end.

(** No white space at either end. *)
Definition trimmed (s : string) : bool :=
  negb (existsb (HasPrefix s) spaces) && negb (existsb (HasSuffix s) spaces).

(** A name that can stand in a list separated by commas. *)
Definition plain_name (name : string) : Prop :=
  name ≠ "" ∧ trimmed name = true ∧ Contains name "," = false.

(** A rename that can stand in a list of pairs [OldName:NewName]. *)
Definition plain_rename (rename : RenameMapping) : Prop :=
  plain_name (OldName rename)
  ∧ Contains (OldName rename) ":" = false
  ∧ plain_name (NewName rename).

(** The text of a rename in a flag. *)
Definition pair_text (rename : RenameMapping) : string :=
  OldName rename +:+ ":" +:+ NewName rename.


(* ===================================================================== *)
(** * Part II: properties *)
(* ===================================================================== *)

Example like_lp_title : like "lp%.title" "lp12.title" = true.
Proof. reflexivity. Qed.
Example like_case : like "vehicle.e-golf.%" "vehicle.E-Golf.minSoc" = true.
Proof. reflexivity. Qed.
Example like_neg : like "lp%.title" "lp1.mode" = false.
Proof. reflexivity. Qed.
Example replace_first_ex :
  ReplaceFirst "title: a, title: a" "title: a" "title: b" = "title: b, title: a".
Proof. reflexivity. Qed.
Example trim_ex : TrimPrefix "vehicle.a.x" "vehicle.a." = "x".
Proof. reflexivity. Qed.

Example flat_decode :
  flat_unmarshal (dq "{ 'title' : 'Garage', 'n': 12, 'on': true }")
  = Some (<["title" := JString "Garage"]>
          (<["n" := JNumber 12]> (<["on" := JBool true]> ∅))).
Proof. vm_compute. reflexivity. Qed.
Example flat_reject : flat_unmarshal "title: YAMLVehicle
type: template" = None.
Proof. reflexivity. Qed.
Example flat_encode :
  flat_marshal (<["title" := JString "Carport"]>
          (<["n" := JNumber 12]> (<["on" := JBool true]> (<["a<b" := JNull]> ∅))))
  = Some (dq "{'a\u003cb':null,'n':12,'on':true,'title':'Carport'}").
Proof. vm_compute. reflexivity. Qed.


(** ** Strings *)

Lemma append_cons c s t : String c s +:+ t = String c (s +:+ t).
Proof. reflexivity. Qed.

Lemma append_nil_l t : "" +:+ t = t.
Proof. reflexivity. Qed.

Lemma append_nil_r s : s +:+ "" = s.
Proof. induction s as [|c s IH]; [done|]. by rewrite append_cons, IH. Qed.

Lemma append_assoc s t u : (s +:+ t) +:+ u = s +:+ t +:+ u.
Proof. induction s as [|c s IH]; [done|]. by rewrite !append_cons, IH. Qed.

Lemma length_append s t :
  String.length (s +:+ t) = String.length s + String.length t.
Proof. induction s as [|c s IH]; [done|]. rewrite append_cons. simpl. by rewrite IH. Qed.

Lemma HasPrefix_app p t : HasPrefix (p +:+ t) p = true.
Proof.
  induction p as [|c p IH]; [done|].
  rewrite append_cons. simpl. by rewrite Ascii.eqb_refl, IH.
Qed.

Lemma string_drop_app p t : string_drop (String.length p) (p +:+ t) = t.
Proof. induction p as [|c p IH]; [done|]. by rewrite append_cons. Qed.

Lemma HasPrefix_split s p :
  HasPrefix s p = true → s = p +:+ string_drop (String.length p) s.
Proof.
  revert s. induction p as [|c p IH]; intros s Hs; [done|].
  destruct s as [|d s]; [done|]. simpl in Hs.
  apply andb_true_iff in Hs as [Hc Hs]. apply Ascii.eqb_eq in Hc as ->.
  rewrite append_cons. simpl. f_equal. by apply IH.
Qed.

Lemma HasPrefix_iff s p : HasPrefix s p = true ↔ ∃ t, s = p +:+ t.
Proof.
  split.
  - intros Hs. eexists. by apply HasPrefix_split.
  - intros [t ->]. apply HasPrefix_app.
Qed.

Lemma TrimPrefix_app p t : TrimPrefix (p +:+ t) p = t.
Proof. unfold TrimPrefix. by rewrite HasPrefix_app, string_drop_app. Qed.

Lemma like_star p s :
  like (String "%" p) s
  = like p s || match s with
                | "" => false
                | String _ s' => like (String "%" p) s'
                end.
Proof. by destruct s. Qed.

Lemma like_percent t : like "%" t = true.
Proof.
  induction t as [|c t IH]; [done|]. rewrite like_star, IH. apply orb_true_r.
Qed.

Lemma like_prefix p t : like (p +:+ "%") (p +:+ t) = true.
Proof.
  induction p as [|c p IH].
  - apply like_percent.
  - rewrite !append_cons.
    destruct (Ascii.eqb c "%") eqn:Hpc.
    + apply Ascii.eqb_eq in Hpc as ->. rewrite like_star, like_star, IH.
      by rewrite !orb_true_r.
    + simpl. rewrite Hpc.
      destruct (Ascii.eqb c "_"); [done|].
      by rewrite Ascii.eqb_refl, IH.
Qed.


Lemma Contains_false_prefix s old :
  Contains s old = false → HasPrefix s old = false.
Proof. destruct s; simpl; intros H; by apply orb_false_iff in H as [? _]. Qed.

Lemma ReplaceFirst_absent s old new :
  Contains s old = false → ReplaceFirst s old new = s.
Proof.
  induction s as [|c s IH]; simpl; intros H; apply orb_false_iff in H as [H1 H2].
  - by rewrite H1.
  - rewrite H1. f_equal. by apply IH.
Qed.


(** ** Statements *)

Lemma prepare_inv db table names t :
  prepare db table names = inr t →
  db !! table = Some t ∧ missing_column (columns t) names = None.
Proof.
  unfold prepare. destruct (db !! table) as [t'|]; [|done].
  destruct (missing_column (columns t') names) eqn:Hm; [done|].
  intros [= <-]. done.
Qed.

Lemma prepare_intro db table names t :
  db !! table = Some t → missing_column (columns t) names = None →
  prepare db table names = inr t.
Proof. unfold prepare. intros -> ->. done. Qed.

Lemma missing_column_None cols names :
  missing_column cols names = None ↔ ∀ n, n ∈ names → is_Some (col_index cols n).
Proof.
  induction names as [|n names IH]; simpl.
  - split; [intros _ n Hn; by apply elem_of_nil in Hn | done].
  - destruct (col_index cols n) eqn:Hn.
    + rewrite IH. split.
      * intros H n' [->|Hn']%elem_of_cons; [by rewrite Hn | by apply H].
      * intros H n' Hn'. apply H. by right.
    + split; [done|]. intros H. destruct (H n) as [? Hx]; [by left|].
      by rewrite Hn in Hx.
Qed.

Lemma missing_column_sub cols names names' :
  missing_column cols names = None → (∀ n, n ∈ names' → n ∈ names) →
  missing_column cols names' = None.
Proof. rewrite !missing_column_None. naive_solver. Qed.

Lemma prepare_insert_ne db table table' names x :
  table ≠ table' →
  prepare (<[table' := x]> db) table names = prepare db table names.
Proof. intros Hne. unfold prepare. by rewrite lookup_insert_ne. Qed.

Lemma sql_update_inv db table column v c db' n :
  sql_update db table column v c = inr (db', n) →
  ∃ t i,
    db !! table = Some t
    ∧ missing_column (columns t) (column :: cond_columns c) = None
    ∧ col_index (columns t) column = Some i
    ∧ db' = <[table := mkTable (columns t)
                (map (fun r => if holds (columns t) c r then set_cell i v r else r)
                     (rows t))]> db
    ∧ n = length (filter (fun r => holds (columns t) c r = true) (rows t)).
Proof.
  unfold sql_update.
  destruct (prepare db table (column :: cond_columns c)) as [|t] eqn:Hp; [done|].
  apply prepare_inv in Hp as [Ht Hm].
  destruct (col_index (columns t) column) as [i|] eqn:Hi; [|done].
  intros [= <- <-]. by exists t, i.
Qed.

Lemma sql_count_intro db table c t :
  db !! table = Some t → missing_column (columns t) (cond_columns c) = None →
  sql_count db table c
  = inr (length (filter (fun r => holds (columns t) c r = true) (rows t))).
Proof. intros Ht Hm. unfold sql_count. by rewrite (prepare_intro _ _ _ t). Qed.

Lemma sql_select_inv db table names c rs :
  sql_select db table names c = inr rs →
  ∃ t,
    db !! table = Some t
    ∧ missing_column (columns t) (names ++ cond_columns c) = None
    ∧ rs = map (project (columns t) names)
               (filter (fun r => holds (columns t) c r = true) (rows t)).
Proof.
  unfold sql_select.
  destruct (prepare db table (names ++ cond_columns c)) as [|t] eqn:Hp; [done|].
  apply prepare_inv in Hp as [Ht Hm]. intros [= <-]. by exists t.
Qed.

Lemma scan_all_length {A} (scan : Row -> option A) rs l :
  scan_all scan rs = Some l → length l = length rs.
Proof.
  revert l. induction rs as [|r rs IH]; intros l; simpl.
  - by intros [= <-].
  - destruct (scan r); [|done]. destruct (scan_all scan rs); [|done].
    intros [= <-]. simpl. f_equal. by apply IH.
Qed.

(** A statement on one table leaves the lookup of the others alone. *)
Lemma sql_update_other db table column v c db' n table' :
  sql_update db table column v c = inr (db', n) → table' ≠ table →
  db' !! table' = db !! table'.
Proof.
  intros (t & i & _ & _ & _ & -> & _)%sql_update_inv Hne.
  by rewrite lookup_insert_ne.
Qed.

(** ** The counting mode agrees with the mutating mode *)

Section Counting.
Context {codec : Codec}.

Lemma rewrite_blob_matches value oldTitle newTitle :
  title_matches value oldTitle = bool_decide (is_Some (rewrite_blob value oldTitle newTitle)).
Proof.
  unfold title_matches, rewrite_blob.
  destruct (Unmarshal value) as [data|].
  - destruct (data !! "title") as [a|]; [|done].
    destruct (asString a) as [t|]; [|done].
    destruct (String.eqb t oldTitle); [|done].
    by destruct (Marshal _).
  - by destruct (Contains value _).
Qed.

Lemma rewrite_configs_count tx oldTitle newTitle configs n tx' n' :
  rewrite_configs tx oldTitle newTitle configs n = (tx', n', None) →
  n' = n + length (filter (fun cfg => title_matches cfg.2 oldTitle = true) configs).
Proof.
  revert tx n. induction configs as [|[id value] configs IH]; intros tx n; simpl.
  - intros [= _ <-]. lia.
  - rewrite filter_cons. simpl.
    rewrite (rewrite_blob_matches value oldTitle newTitle).
    destruct (rewrite_blob value oldTitle newTitle) as [[e|newValue]|]; simpl.
    + done.
    + destruct (sql_update tx "configs" "value" _ _) as [|[tx1 ?]]; [done|].
      intros H%IH. simpl. lia.
    + intros H%IH. done.
Qed.

Lemma count_titles_scanned cols rs configs title n :
  scan_all scan_configRow (map (project cols ["id"; "value"]) rs) = Some configs →
  count_titles (map (project cols ["value"]) rs) title n
  = inr (n + length (filter (fun cfg => title_matches cfg.2 title = true) configs)).
Proof.
  revert configs n. induction rs as [|r rs IH]; intros configs n; simpl.
  - intros [= <-]. f_equal. simpl. lia.
  - unfold scan_configRow at 1. simpl.
    destruct (scan_int _) as [id|]; [|done].
    destruct (scan_string _) as [value|] eqn:Hv; [|done].
    destruct (scan_all scan_configRow _) as [configs'|] eqn:Hs; [|done].
    intros [= <-]. rewrite filter_cons. simpl.
    rewrite (IH configs' _ eq_refl).
    destruct (title_matches value title); simpl; f_equal; lia.
Qed.

Lemma configs_count_agrees tx c class oldTitle newTitle tx' n :
  tx !! "configs" = c !! "configs" →
  renameInConfigsJSON tx class oldTitle newTitle = (tx', n, None) →
  countConfigsWithTitle c class oldTitle = inr n.
Proof.
  intros Hsame. unfold renameInConfigsJSON, countConfigsWithTitle.
  destruct (sql_select tx "configs" ["id"; "value"] _) as [|rs] eqn:Hsel; [done|].
  apply sql_select_inv in Hsel as (t & Ht & Hm & ->).
  destruct (scan_all scan_configRow _) as [configs|] eqn:Hscan; [|done].
  intros Hrw%rewrite_configs_count.
  unfold sql_select. rewrite (prepare_intro _ _ _ t).
  - rewrite (count_titles_scanned _ _ _ _ _ Hscan). by rewrite Hrw.
  - by rewrite <- Hsame.
  - eapply missing_column_sub; [exact Hm|]. set_solver.
Qed.

Lemma sessions_count_agrees c column oldName newName tx n :
  renameInSessions c column oldName newName = inr (tx, n) →
  sql_count c "sessions" (CEq column (VText oldName)) = inr n
  ∧ ∀ table, table ≠ "sessions" → tx !! table = c !! table.
Proof.
  unfold renameInSessions. intros H. split.
  - apply sql_update_inv in H as (t & i & Ht & Hm & _ & _ & ->).
    apply sql_count_intro; [done|].
    eapply missing_column_sub; [exact Hm|]. set_solver.
  - intros table Hne. by eapply sql_update_other.
Qed.

Lemma migrate_keys_other tx oldPrefix newPrefix kvs tx' table :
  migrate_keys tx oldPrefix newPrefix kvs = inr tx' → table ≠ "settings" →
  tx' !! table = tx !! table.
Proof.
  revert tx. induction kvs as [|[k v] kvs IH]; intros tx; simpl.
  - by intros [= <-].
  - unfold sql_insert_or_replace, sql_delete.
    destruct (prepare tx "settings" ["key"; "value"]) as [|t]; [done|].
    destruct (null_violation _ _); [done|].
    destruct (prepare _ "settings" _) as [|t1]; [done|].
    intros H Hne. rewrite (IH _ H Hne).
    by rewrite !lookup_insert_ne.
Qed.

Lemma vehicle_pattern oldName :
  ("vehicle." +:+ oldName +:+ ".") +:+ "%" = "vehicle." +:+ oldName +:+ ".%".
Proof. by rewrite !append_assoc. Qed.

Lemma loadpoint_counts_agree (c : Database) (oldName newName : string)
    (c' : Database) (result : RenameResult) :
  RenameLoadpoint c oldName newName = (c', (result, None)) →
  RenameLoadpointDryRun c oldName newName = (result, None).
Proof.
  unfold RenameLoadpoint, RenameLoadpointDryRun.
  destruct (renameInSessions c "loadpoint" oldName newName)
    as [|[tx1 n1]] eqn:H1; [done|].
  apply sessions_count_agrees in H1 as [-> Hother1].
  destruct (renameSettingsValue tx1 "lp%.title" oldName newName)
    as [|[tx2 n2]] eqn:H2; [done|].
  unfold renameSettingsValue in H2.
  pose proof (λ table, sql_update_other _ _ _ _ _ _ _ table H2) as Hother2.
  apply sql_update_inv in H2 as (t & i & Ht & Hm & _ & _ & ->).
  rewrite (sql_count_intro _ _ _ t); cycle 1.
  { by rewrite <- Hother1. }
  { eapply missing_column_sub; [exact Hm|]. set_solver. }
  destruct (renameInConfigsJSON tx2 5 oldName newName)
    as [[tx3 n3] [e|]] eqn:H3; [done|].
  apply (configs_count_agrees _ c) in H3 as ->.
  + by intros [= <- <-].
  + by rewrite Hother2, Hother1.
Qed.

Lemma vehicle_counts_agree (c : Database) (oldName newName : string)
    (c' : Database) (result : RenameResult) :
  RenameVehicle c oldName newName = (c', (result, None)) →
  RenameVehicleDryRun c oldName newName = (result, None).
Proof.
  unfold RenameVehicle, RenameVehicleDryRun.
  destruct (renameInSessions c "vehicle" oldName newName)
    as [|[tx1 n1]] eqn:H1; [done|].
  apply sessions_count_agrees in H1 as [-> Hother1].
  destruct (renameSettingsKeys tx1 _ _) as [|[tx2 n2]] eqn:H2; [done|].
  unfold renameSettingsKeys in H2.
  destruct (sql_select tx1 "settings" _ _) as [|rs] eqn:Hsel; [done|].
  destruct (scan_all scan_keyValue rs) as [kvs|] eqn:Hscan; [|done].
  destruct (migrate_keys tx1 _ _ kvs) as [|tx2'] eqn:Hmig; [done|].
  injection H2 as <- <-.
  apply sql_select_inv in Hsel as (t & Ht & Hm & ->).
  rewrite vehicle_pattern in Hscan, Hm.
  rewrite (sql_count_intro _ _ _ t); cycle 1.
  { by rewrite <- Hother1. }
  { eapply missing_column_sub; [exact Hm|]. set_solver. }
  destruct (renameInConfigsJSON tx2' 3 oldName newName)
    as [[tx3 n3] [e|]] eqn:H3; [done|].
  apply (configs_count_agrees _ c) in H3 as ->.
  + intros [= <- <-]. simpl.
    apply scan_all_length in Hscan. rewrite length_map in Hscan.
    by rewrite Hscan.
  + rewrite (migrate_keys_other _ _ _ _ _ _ Hmig), Hother1; done.
Qed.


End Counting.



(** ** The text fallback and the skipped blobs *)

Section Blobs.
Context {codec : Codec}.


End Blobs.


(** ** Transfer: the dry run and the rollback *)

Section Runs.
Context {codec : Codec}.

(** C8. A dry run leaves both databases as they are, whether it ends with
    an error or not; in particular no table of either changes its row
    count. *)
Theorem dry_run_changes_nothing (src dst : Database) (opts : TransferOptions) :
  DryRun opts = true →
  out_src (Transfer src dst opts) = src
  ∧ out_dst (Transfer src dst opts) = dst
  ∧ ∀ table,
      GetRowCount (out_src (Transfer src dst opts)) table = GetRowCount src table
      ∧ GetRowCount (out_dst (Transfer src dst opts)) table
        = GetRowCount dst table.
Proof.
  intros Hdry.
  assert (out_src (Transfer src dst opts) = src
          ∧ out_dst (Transfer src dst opts) = dst) as [Hs Hd].
  { unfold Transfer. rewrite Hdry.
    destruct (ResolveTables opts) as [e|tables]; [done|].
    destruct (preview_tables src dst tables) as [log [e|]]; [done|].
    destruct (preview_renames RenameLoadpointDryRun _ _ _) as [log1 [e|]];
      [done|].
    by destruct (preview_renames RenameVehicleDryRun _ _ _) as [log2 err]. }
  rewrite Hs, Hd. done.
Qed.

Lemma apply_renames_context run context dst renames dst' results e :
  apply_renames run context dst renames = (dst', results, Some e) →
  ∃ cause, e = Wrapped context cause.
Proof.
  revert dst dst' results.
  induction renames as [|rename renames IH]; intros dst dst' results; simpl.
  - done.
  - destruct (run dst _ _) as [dst1 [result [e1|]]].
    + intros [= _ _ <-]. by eexists.
    + destruct (apply_renames run context dst1 renames) as [[dst2 rs] err] eqn:H.
      intros [= _ _ ->]. by eapply IH.
Qed.

(** C3. When a real run returns the error of a table copy, among them
    the copy of a table that shares no column with its destination, the
    destination database is exactly the one before the run (the rows of
    the tables copied before the failing one included) and no rename was
    applied. *)
Theorem failed_copy_rolls_back (src dst : Database) (opts : TransferOptions)
    (table : string) (cause : error) :
  DryRun opts = false →
  out_err (Transfer src dst opts)
  = Some (Wrapped ("failed to copy table " +:+ table) cause) →
  out_dst (Transfer src dst opts) = dst
  ∧ out_src (Transfer src dst opts) = src
  ∧ applied (Transfer src dst opts) = [].
Proof.
  intros Hreal. unfold Transfer. rewrite Hreal.
  destruct (ResolveTables opts) as [e|tables]; [done|].
  destruct (copy_tables dst src dst (OnProgress opts) tables)
    as [[tx log] [e|]]; [done|].
  destruct (apply_renames RenameLoadpoint _ tx _) as [[dst1 rs1] [e|]] eqn:H1.
  { apply apply_renames_context in H1 as [c1 ->]. simpl.
    by intros [= H _]. }
  destruct (apply_renames RenameVehicle _ dst1 _) as [[dst2 rs2] [e|]] eqn:H2.
  { apply apply_renames_context in H2 as [c2 ->]. simpl.
    by intros [= H _]. }
  done.
Qed.

End Runs.

Lemma dry_run_changes_nothing_witness :
  out_dst (Transfer (codec := flat_json) drifted_src test_db
             (mkOptions TransferConfig [] true false
                        [mkRename "Garage" "Carport"] []))
  = test_db.
Proof.
  apply (dry_run_changes_nothing (codec := flat_json) drifted_src test_db
           (mkOptions TransferConfig [] true false
                      [mkRename "Garage" "Carport"] [])).
  reflexivity.
Defined.

Lemma failed_copy_rolls_back_witness :
  out_err (Transfer (codec := flat_json) drifted_src test_db
             (mkOptions TransferConfig [] false true
                        [mkRename "Garage" "Carport"] []))
  = Some (Wrapped ("failed to copy table " +:+ "configs")
                  (NoCommonColumns "configs"))
  ∧ out_dst (Transfer (codec := flat_json) drifted_src test_db
               (mkOptions TransferConfig [] false true
                          [mkRename "Garage" "Carport"] []))
    = test_db.
Proof.
  split; [vm_compute; reflexivity|].
  apply (failed_copy_rolls_back (codec := flat_json) drifted_src test_db
           (mkOptions TransferConfig [] false true
                      [mkRename "Garage" "Carport"] [])
           "configs" (NoCommonColumns "configs")).
  - reflexivity.
  - vm_compute. reflexivity.
Defined.

(** ** The key migration of [renameSettingsKeys] *)

Lemma settings_schema_inv cols :
  settings_schema cols = true →
  ∃ kt kn kd vt vn vd,
    cols = [mkColumn "key" kt kn kd true; mkColumn "value" vt vn vd false].
Proof.
  destruct cols as [|[kname kt kn kd kp] [|[vname vt vn vd vp] [|? ?]]];
    try done. simpl.
  rewrite !andb_true_iff, !String.eqb_eq, negb_true_iff.
  intros [[[-> ->] ->] ->]. by exists kt, kn, kd, vt, vn, vd.
Qed.

Lemma key_conflict_has_key kt kn kd vt vn vd key value r :
  pk_conflict [mkColumn "key" kt kn kd true; mkColumn "value" vt vn vd false]
              (setting key value) r
  = has_key key r.
Proof.
  unfold pk_conflict, has_key, setting. simpl.
  destruct r as [|a [|b r]]; simpl; unfold cell; simpl.
  - done.
  - destruct a as [|n|s]; simpl; try done.
    destruct (String.eqb_spec s key) as [->|Hne].
    + by rewrite bool_decide_eq_true_2.
    + rewrite bool_decide_eq_false_2; [done|]. by intros [= ->].
  - destruct a as [|n|s]; simpl; try done.
    destruct (String.eqb_spec s key) as [->|Hne].
    + by rewrite bool_decide_eq_true_2.
    + rewrite bool_decide_eq_false_2; [done|]. by intros [= ->].
Qed.

Lemma upsert_setting tx cols rs key value :
  settings_schema cols = true → tx !! "settings" = Some (mkTable cols rs) →
  sql_insert_or_replace tx "settings" ["key"; "value"] [VText key; VText value]
  = inr (<["settings" := mkTable cols
            (filter (fun r => has_key key r = false) rs ++ [setting key value])]> tx).
Proof.
  intros (kt & kn & kd & vt & vn & vd & ->)%settings_schema_inv Ht.
  unfold sql_insert_or_replace, prepare. rewrite Ht. simpl.
  rewrite !andb_false_r. do 3 f_equal. f_equal.
  apply list_filter_iff. intros r.
  by rewrite <- (key_conflict_has_key kt kn kd vt vn vd key value r).
Qed.

Lemma delete_setting tx cols rs key :
  settings_schema cols = true → tx !! "settings" = Some (mkTable cols rs) →
  sql_delete tx "settings" (CEq "key" (VText key))
  = inr (<["settings" := mkTable cols (filter (fun r => has_key key r = false) rs)]> tx,
         length (filter (fun r => has_key key r = true) rs)).
Proof.
  intros (kt & kn & kd & vt & vn & vd & ->)%settings_schema_inv Ht.
  unfold sql_delete, prepare. rewrite Ht. done.
Qed.

Lemma migrate_keys_fold tx cols rs oldName newName kvs :
  settings_schema cols = true → tx !! "settings" = Some (mkTable cols rs) →
  migrate_keys tx (vehicle_prefix oldName) (vehicle_prefix newName) kvs
  = inr (<["settings" := mkTable cols
            (fold_left (migrate_step oldName newName) kvs rs)]> tx).
Proof.
  intros Hs. revert tx rs. induction kvs as [|[k v] kvs IH]; intros tx rs Ht.
  - simpl. by rewrite insert_id.
  - simpl. erewrite upsert_setting; [|done..].
    erewrite delete_setting; [|done|by rewrite lookup_insert_eq].
    erewrite IH; [|by rewrite lookup_insert_eq].
    by rewrite !insert_insert_eq.
Qed.

Lemma is_setting_eq r : is_setting r = true → r = setting (key_text r) (value_text r).
Proof.
  destruct r as [|[| |k] [|[| |v] [|]]]; try done.
Qed.

Lemma has_key_setting key k v : has_key key (setting k v) = String.eqb k key.
Proof. done. Qed.

Lemma has_key_key_text key r :
  is_setting r = true → has_key key r = String.eqb (key_text r) key.
Proof. intros Hr. by rewrite (is_setting_eq r Hr) at 1. Qed.

Lemma selected_key_text oldName r :
  is_setting r = true →
  selected oldName r = like (vehicle_prefix oldName +:+ "%") (key_text r).
Proof. intros Hr. by rewrite (is_setting_eq r Hr) at 1. Qed.

Lemma settings_table_inv t :
  settings_table t = true →
  settings_schema (columns t) = true ∧ ∀ r, r ∈ rows t → is_setting r = true.
Proof.
  unfold settings_table. rewrite andb_true_iff, forallb_forall.
  intros [? H]. split; [done|]. intros r Hr. apply H. by apply list_elem_of_In.
Qed.

Lemma select_settings tx t pattern :
  tx !! "settings" = Some t → settings_table t = true →
  sql_select tx "settings" ["key"; "value"] (CLike "key" pattern)
  = inr (filter (fun r => sql_like pattern (cell r 0) = true) (rows t))
  ∧ scan_all scan_keyValue
      (filter (fun r => sql_like pattern (cell r 0) = true) (rows t))
    = Some (map kv_of
                (filter (fun r => sql_like pattern (cell r 0) = true) (rows t))).
Proof.
  intros Ht [Hs Hrows]%settings_table_inv.
  apply settings_schema_inv in Hs as (kt & kn & kd & vt & vn & vd & Hcols).
  destruct t as [cols rs]. simpl in *. subst cols.
  unfold sql_select, prepare. rewrite Ht. simpl.
  assert (∀ l : list Row, (∀ r, r ∈ l → is_setting r = true) →
            map (project [mkColumn "key" kt kn kd true;
                          mkColumn "value" vt vn vd false] ["key"; "value"]) l = l
            ∧ scan_all scan_keyValue l = Some (map kv_of l)) as Hl.
  { induction l as [|r l IH]; intros Hall; [done|].
    destruct IH as [IH1 IH2]; [intros r' Hr'; apply Hall; by right|].
    pose proof (is_setting_eq r (Hall r ltac:(by left))) as Hr.
    split.
    - simpl. rewrite IH1. f_equal. by rewrite Hr.
    - simpl. rewrite IH2. by rewrite Hr. }
  destruct (Hl (filter (fun r => sql_like pattern (cell r 0) = true) rs))
    as [H1 H2].
  { intros r [_ Hr]%list_elem_of_filter. by apply Hrows. }
  split; [|done]. f_equal. exact H1.
Qed.

Lemma renameSettingsKeys_fold tx t oldName newName :
  tx !! "settings" = Some t → settings_table t = true →
  renameSettingsKeys tx (vehicle_prefix oldName) (vehicle_prefix newName)
  = inr (<["settings" := mkTable (columns t)
             (fold_left (migrate_step oldName newName)
                        (selected_kvs oldName t) (rows t))]> tx,
         length (selected_kvs oldName t)).
Proof.
  intros Ht Hok. unfold renameSettingsKeys.
  destruct (select_settings tx t (vehicle_prefix oldName +:+ "%") Ht Hok)
    as [-> ->].
  apply settings_table_inv in Hok as [Hs _].
  destruct t as [cols rs]. simpl in *.
  by erewrite migrate_keys_fold.
Qed.

Lemma filter_all {A} (P : A → Prop) `{!∀ x, Decision (P x)} (l : list A) :
  (∀ x, x ∈ l → P x) → filter P l = l.
Proof.
  induction l as [|x l IH]; intros Hall; [done|].
  rewrite filter_cons_True by (apply Hall; by left).
  f_equal. apply IH. intros y Hy. apply Hall. by right.
Qed.

Lemma filter_none {A} (P : A → Prop) `{!∀ x, Decision (P x)} (l : list A) :
  (∀ x, x ∈ l → ¬ P x) → filter P l = [].
Proof.
  induction l as [|x l IH]; intros Hall; [done|].
  rewrite filter_cons_False by (apply Hall; by left).
  apply IH. intros y Hy. apply Hall. by right.
Qed.

Lemma filter_ext_elem {A} (P Q : A → Prop)
    `{!∀ x, Decision (P x), !∀ x, Decision (Q x)} (l : list A) :
  (∀ x, x ∈ l → P x ↔ Q x) → filter P l = filter Q l.
Proof.
  induction l as [|x l IH]; intros Hall; [done|].
  rewrite !filter_cons.
  rewrite IH by (intros y Hy; apply Hall; by right).
  apply decide_ext, Hall. by left.
Qed.

Lemma length_filter_split {A} (P : A → bool) (l : list A) :
  length (filter (fun x => P x = false) l) + length (filter (fun x => P x = true) l)
  = length l.
Proof.
  induction l as [|x l IH]; [done|]. rewrite !filter_cons.
  destruct (P x) eqn:Hx; simpl; lia.
Qed.

(** The migration when no migrated key meets a row of the table: the rows
    that were not selected stay, in their order, and the migrated rows
    follow them. *)
Lemma fold_clean oldName newName kvs R A :
  (∀ kv r, kv ∈ kvs → r ∈ R ++ A →
           has_key (migrated_key oldName newName kv.1) r = false) →
  NoDup (map (fun kv => migrated_key oldName newName kv.1) kvs) →
  (∀ kv r, kv ∈ kvs → r ∈ A → has_key kv.1 r = false) →
  (∀ kv kv', kv ∈ kvs → kv' ∈ kvs → kv.1 ≠ migrated_key oldName newName kv'.1) →
  fold_left (migrate_step oldName newName) kvs (R ++ A)
  = filter (fun r => not_among (map fst kvs) r = true) R ++ A
    ++ map (migrated oldName newName) kvs.
Proof.
  revert R A. induction kvs as [|[k v] kvs IH]; intros R A Hfresh Hnd Hold Hdis.
  - simpl. rewrite app_nil_r. f_equal. by rewrite filter_all.
  - simpl. unfold migrate_step at 2. simpl.
    rewrite (filter_all (fun r => has_key (migrated_key oldName newName k) r = false));
      cycle 1.
    { intros r Hr. apply (Hfresh (k, v)); [by left|done]. }
    rewrite !filter_app.
    rewrite (filter_all _ A); cycle 1.
    { intros r Hr. apply (Hold (k, v)); [by left|done]. }
    rewrite filter_cons_True, filter_nil; cycle 1.
    { rewrite has_key_setting. apply String.eqb_neq. intros Heq.
      apply (Hdis (k, v) (k, v)); [by left|by left|done]. }
    rewrite map_cons in Hnd. apply NoDup_cons in Hnd as [Hk Hnd]. simpl in Hk.
    rewrite <- app_assoc. rewrite IH; try done.
    + rewrite list_filter_filter, <- app_assoc. simpl. f_equal.
      apply list_filter_iff. intros r. simpl.
      rewrite andb_true_iff, negb_true_iff. tauto.
    + intros kv r Hkv [Hr|[Hr|Hr%list_elem_of_singleton]%elem_of_app]%elem_of_app.
      * apply Hfresh; [by right|]. apply elem_of_app. left.
        by apply list_elem_of_filter in Hr as [_ ?].
      * apply Hfresh; [by right|]. apply elem_of_app. by right.
      * subst r. rewrite has_key_setting. apply String.eqb_neq. intros Heq.
        apply Hk. rewrite Heq. apply list_elem_of_In, in_map_iff.
        exists kv. split; [done|]. by apply list_elem_of_In.
    + intros kv r Hkv [Hr|Hr%list_elem_of_singleton]%elem_of_app.
      * apply Hold; [by right|done].
      * subst r. rewrite has_key_setting. apply String.eqb_neq. intros Heq.
        apply (Hdis kv (k, v)); [by right|by left|done].
    + intros kv kv' Hkv Hkv'. apply Hdis; by right.
Qed.

Lemma selected_kvs_keys oldName t :
  map fst (selected_kvs oldName t) = selected_keys oldName t.
Proof. unfold selected_kvs, selected_keys. by rewrite map_map. Qed.

Lemma elem_of_selected_keys oldName t k :
  (∀ r, r ∈ rows t → is_setting r = true) →
  k ∈ selected_keys oldName t
  ↔ like (vehicle_prefix oldName +:+ "%") k = true ∧ k ∈ map key_text (rows t).
Proof.
  intros Hrows. unfold selected_keys.
  rewrite !list_elem_of_In, !in_map_iff. split.
  - intros (r & <- & [Hsel Hr]%list_elem_of_In%list_elem_of_filter). split.
    + by rewrite <- selected_key_text by by apply Hrows.
    + exists r. split; [done|]. by apply list_elem_of_In.
  - intros [Hl (r & <- & Hr%list_elem_of_In)]. exists r. split; [done|].
    apply list_elem_of_In, list_elem_of_filter. split; [|done].
    by rewrite selected_key_text by by apply Hrows.
Qed.

Lemma not_among_elem ks r :
  is_setting r = true → not_among ks r = true ↔ key_text r ∉ ks.
Proof.
  intros Hr. unfold not_among. rewrite forallb_forall. split.
  - intros H Hin. specialize (H _ (proj1 (list_elem_of_In _ _) Hin)).
    rewrite has_key_key_text, String.eqb_refl in H by done. done.
  - intros H k Hk. rewrite has_key_key_text by done.
    apply negb_true_iff, String.eqb_neq. intros <-. apply H.
    by apply list_elem_of_In.
Qed.

Lemma migrate_clean oldName newName t :
  (∀ r, r ∈ rows t → is_setting r = true) →
  no_key_clash oldName newName t = true →
  fold_left (migrate_step oldName newName) (selected_kvs oldName t) (rows t)
  = filter (fun r => selected oldName r = false) (rows t)
    ++ map (migrated oldName newName) (selected_kvs oldName t).
Proof.
  intros Hrows Hclash. apply bool_decide_eq_true in Hclash.
  apply NoDup_app in Hclash as (Hnew & Hfresh & Hkeys).
  assert (∀ kv, kv ∈ selected_kvs oldName t → kv.1 ∈ selected_keys oldName t)
    as Hsel.
  { intros kv Hkv. rewrite <- selected_kvs_keys.
    apply list_elem_of_In, in_map. by apply list_elem_of_In. }
  assert (∀ kv, kv ∈ selected_kvs oldName t →
                migrated_key oldName newName kv.1
                ∈ map (migrated_key oldName newName) (selected_keys oldName t))
    as Hmig.
  { intros kv Hkv. apply list_elem_of_In, in_map, list_elem_of_In. by apply Hsel. }
  rewrite <- (app_nil_r (rows t)) at 1.
  rewrite fold_clean.
  - simpl. f_equal. apply filter_ext_elem. intros r Hr.
    rewrite selected_kvs_keys, not_among_elem by by apply Hrows.
    rewrite elem_of_selected_keys by done.
    rewrite selected_key_text by by apply Hrows.
    split.
    + intros Hn. apply not_true_is_false. intros Hl. apply Hn. split; [done|].
      apply list_elem_of_In, in_map. by apply list_elem_of_In.
    + intros Hl [Hl' _]. by rewrite Hl in Hl'.
  - intros kv r Hkv Hr. rewrite app_nil_r in Hr.
    rewrite has_key_key_text by by apply Hrows.
    apply String.eqb_neq. intros Heq.
    apply (Hfresh _ (Hmig kv Hkv)). rewrite <- Heq.
    apply list_elem_of_In, in_map. by apply list_elem_of_In.
  - revert Hnew. unfold selected_keys, selected_kvs. by rewrite !map_map.
  - intros kv r _ Hr. by apply elem_of_nil in Hr.
  - intros kv kv' Hkv Hkv' Heq.
    apply (Hfresh _ (Hmig kv' Hkv')). rewrite <- Heq.
    by apply (elem_of_selected_keys oldName t), Hsel.
Qed.

(** ** What a rename leaves alone *)

Lemma GetRowCount_lookup c table :
  GetRowCount c table
  = match c !! table with
    | Some t => inr (length (rows t))
    | None => inl (Wrapped "failed to count rows" (NoSuchTable table))
    end.
Proof.
  unfold GetRowCount, sql_count, prepare. simpl.
  destruct (c !! table) as [t|]; [|done]. simpl.
  by rewrite filter_all.
Qed.

Lemma same_counts_refl a : same_counts a a.
Proof. done. Qed.

Lemma same_counts_trans a b c :
  same_counts a b → same_counts b c → same_counts a c.
Proof. intros H1 H2 table. by rewrite H1. Qed.

Lemma same_counts_insert db table t t' :
  db !! table = Some t → length (rows t') = length (rows t) →
  same_counts (<[table := t']> db) db.
Proof.
  intros Ht Hlen table'. rewrite !GetRowCount_lookup.
  destruct (decide (table = table')) as [<-|Hne].
  - by rewrite lookup_insert_eq, Ht, Hlen.
  - by rewrite lookup_insert_ne.
Qed.

Lemma sql_update_counts db table column v c db' n :
  sql_update db table column v c = inr (db', n) → same_counts db' db.
Proof.
  intros (t & i & Ht & _ & _ & -> & _)%sql_update_inv.
  eapply same_counts_insert; [done|]. simpl. by rewrite length_map.
Qed.

Section Frames.
Context {codec : Codec}.

Lemma rewrite_configs_frame tx oldTitle newTitle configs n tx' n' err :
  rewrite_configs tx oldTitle newTitle configs n = (tx', n', err) →
  same_counts tx' tx ∧ ∀ table, table ≠ "configs" → tx' !! table = tx !! table.
Proof.
  revert tx n. induction configs as [|[id value] configs IH]; intros tx n; simpl.
  - by intros [= <- _ _].
  - destruct (rewrite_blob value oldTitle newTitle) as [[e|newValue]|].
    + by intros [= <- _ _].
    + destruct (sql_update tx "configs" "value" _ _) as [e|[tx1 m]] eqn:Hup.
      * by intros [= <- _ _].
      * intros [Hc Ho]%IH. split.
        -- eapply same_counts_trans; [done|]. by eapply sql_update_counts.
        -- intros table Hne. rewrite Ho by done. by eapply sql_update_other.
    + apply IH.
Qed.

Lemma renameInConfigsJSON_frame tx class oldTitle newTitle tx' n err :
  renameInConfigsJSON tx class oldTitle newTitle = (tx', n, err) →
  same_counts tx' tx ∧ ∀ table, table ≠ "configs" → tx' !! table = tx !! table.
Proof.
  unfold renameInConfigsJSON.
  destruct (sql_select tx "configs" _ _) as [e|rs]; [by intros [= <- _ _]|].
  destruct (scan_all scan_configRow rs) as [configs|]; [|by intros [= <- _ _]].
  apply rewrite_configs_frame.
Qed.

(** The steps of a successful [RenameLoadpoint]. *)
Lemma RenameLoadpoint_steps c oldName newName c' result :
  RenameLoadpoint c oldName newName = (c', (result, None)) →
  ∃ tx1 tx2 n1 n2 n3,
    renameInSessions c "loadpoint" oldName newName = inr (tx1, n1)
    ∧ renameSettingsValue tx1 "lp%.title" oldName newName = inr (tx2, n2)
    ∧ renameInConfigsJSON tx2 5 oldName newName = (c', n3, None)
    ∧ result = mkResult n1 n2 n3.
Proof.
  unfold RenameLoadpoint.
  destruct (renameInSessions c "loadpoint" oldName newName)
    as [|[tx1 n1]] eqn:H1; [done|].
  destruct (renameSettingsValue tx1 _ _ _) as [|[tx2 n2]] eqn:H2; [done|].
  destruct (renameInConfigsJSON tx2 5 oldName newName) as [[tx3 n3] [e|]] eqn:H3;
    [done|].
  intros [= <- <-]. by exists tx1, tx2, n1, n2, n3.
Qed.

(** The steps of a successful [RenameVehicle]. *)
Lemma RenameVehicle_steps c oldName newName c' result :
  RenameVehicle c oldName newName = (c', (result, None)) →
  ∃ tx1 tx2 n1 n2 n3,
    renameInSessions c "vehicle" oldName newName = inr (tx1, n1)
    ∧ renameSettingsKeys tx1 (vehicle_prefix oldName) (vehicle_prefix newName)
      = inr (tx2, n2)
    ∧ renameInConfigsJSON tx2 3 oldName newName = (c', n3, None)
    ∧ result = mkResult n1 n2 n3.
Proof.
  unfold RenameVehicle.
  destruct (renameInSessions c "vehicle" oldName newName)
    as [|[tx1 n1]] eqn:H1; [done|].
  fold (vehicle_prefix oldName). fold (vehicle_prefix newName).
  destruct (renameSettingsKeys tx1 _ _) as [|[tx2 n2]] eqn:H2; [done|].
  destruct (renameInConfigsJSON tx2 3 oldName newName) as [[tx3 n3] [e|]] eqn:H3;
    [done|].
  intros [= <- <-]. by exists tx1, tx2, n1, n2, n3.
Qed.

(** The settings table after a successful [RenameVehicle] on a database
    with the application's settings table. *)
Lemma RenameVehicle_settings c oldName newName c' result t :
  RenameVehicle c oldName newName = (c', (result, None)) →
  c !! "settings" = Some t → settings_table t = true →
  c' !! "settings"
  = Some (mkTable (columns t)
            (fold_left (migrate_step oldName newName)
                       (selected_kvs oldName t) (rows t)))
  ∧ Settings result = length (selected_kvs oldName t).
Proof.
  intros (tx1 & tx2 & n1 & n2 & n3 & H1 & H2 & H3 & ->)%RenameVehicle_steps Ht Hok.
  apply sessions_count_agrees in H1 as [_ Hother1].
  rewrite (renameSettingsKeys_fold tx1 t) in H2; [|by rewrite Hother1|done].
  injection H2 as <- <-.
  apply renameInConfigsJSON_frame in H3 as [_ Hother3].
  split; [|done]. rewrite Hother3 by done. by rewrite lookup_insert_eq.
Qed.

End Frames.

(** ** Row counts under a rename *)

Section RowCounts.
Context {codec : Codec}.

Lemma selected_kvs_length oldName t :
  length (selected_kvs oldName t)
  = length (filter (fun r => selected oldName r = true) (rows t)).
Proof. unfold selected_kvs. by rewrite length_map. Qed.

(** C2, as amended. A successful rename leaves the row count of every
    table unchanged, for a loadpoint always, and for a vehicle when the
    settings table is the application's and no migrated key equals
    another migrated key or a key of the table. *)
Theorem rename_keeps_row_counts (k : kind) (c : Database)
    (oldName newName : string) (c' : Database) (result : RenameResult) :
  Rename k c oldName newName = (c', (result, None)) →
  (k = Vehicle → clean_migration c oldName newName = true) →
  ∀ table, GetRowCount c' table = GetRowCount c table.
Proof.
  destruct k; simpl; intros Hrun Hclean.
  - apply RenameLoadpoint_steps in Hrun
      as (tx1 & tx2 & n1 & n2 & n3 & H1 & H2 & H3 & _).
    apply sql_update_counts in H1, H2.
    apply renameInConfigsJSON_frame in H3 as [H3 _].
    eapply same_counts_trans; [done|]. by eapply same_counts_trans.
  - specialize (Hclean eq_refl). unfold clean_migration in Hclean.
    destruct (c !! "settings") as [t|] eqn:Ht; [|done].
    apply andb_true_iff in Hclean as [Hok Hclash].
    apply RenameVehicle_steps in Hrun
      as (tx1 & tx2 & n1 & n2 & n3 & H1 & H2 & H3 & _).
    pose proof (sessions_count_agrees _ _ _ _ _ _ H1) as [_ Hother1].
    apply sql_update_counts in H1.
    apply renameInConfigsJSON_frame in H3 as [H3 _].
    rewrite (renameSettingsKeys_fold tx1 t) in H2; [|by rewrite Hother1|done].
    injection H2 as <- _.
    eapply same_counts_trans; [done|]. eapply same_counts_trans; [|done].
    apply (same_counts_insert _ _ t); [by rewrite Hother1|]. simpl.
    rewrite migrate_clean; [|by apply settings_table_inv|done].
    rewrite length_app, length_map, selected_kvs_length.
    apply length_filter_split.
Qed.

End RowCounts.

Lemma rename_keeps_row_counts_witness :
  GetRowCount (fst (Rename (codec := flat_json) Vehicle test_db "e-Golf" "ID.4"))
              "settings"
  = GetRowCount test_db "settings".
Proof.
  eapply (rename_keeps_row_counts (codec := flat_json) Vehicle test_db
            "e-Golf" "ID.4").
  - vm_compute. reflexivity.
  - intros _. vm_compute. reflexivity.
Defined.

(** C2, the claim as stated fails: renaming a vehicle to its own name
    deletes its settings rows, and renaming it to a name whose key is
    taken replaces the row of that key. *)
Lemma rename_changes_settings_row_count :
  (snd (RenameVehicle (codec := flat_json) test_db "e-Golf" "e-Golf")
   = (mkResult 2 3 1, None)
   ∧ GetRowCount test_db "settings" = inr 6
   ∧ GetRowCount (fst (RenameVehicle (codec := flat_json) test_db
                         "e-Golf" "e-Golf")) "settings" = inr 3)
  ∧ (snd (RenameVehicle (codec := flat_json) taken_db "e-Golf" "ID.4")
     = (mkResult 2 3 1, None)
     ∧ GetRowCount taken_db "settings" = inr 7
     ∧ GetRowCount (fst (RenameVehicle (codec := flat_json) taken_db
                           "e-Golf" "ID.4")) "settings" = inr 6).
Proof. vm_compute. done. Qed.


(** ** The keys of a vehicle *)

Section VehicleKeys.
Context {codec : Codec}.


Lemma migrated_key_prefix oldName newName suffix :
  migrated_key oldName newName (vehicle_prefix oldName +:+ suffix)
  = vehicle_prefix newName +:+ suffix.
Proof. unfold migrated_key. by rewrite TrimPrefix_app. Qed.


End VehicleKeys.



(** ** What a rename rewrites *)


Section Rewrites.
Context {codec : Codec}.


End Rewrites.




(** ** The row copier *)

Lemma copy_rows_count tx table colNames srcRows n tx' copied :
  copy_rows tx table colNames srcRows n = (tx', copied, None) →
  copied = n + length srcRows.
Proof.
  revert tx n. induction srcRows as [|values srcRows IH]; intros tx n; simpl.
  - intros [= _ <-]. lia.
  - destruct (sql_insert_or_replace tx table colNames values) as [e|tx1];
      [done|].
    intros ->%IH. lia.
Qed.







(** ** Previews and applied renames of a transfer *)

Section Previews.
Context {codec : Codec}.

Lemma previews_app log1 log2 : previews (log1 ++ log2) = previews log1 ++ previews log2.
Proof. apply omap_app. Qed.

Lemma preview_tables_previews src dst tables :
  previews (fst (preview_tables src dst tables)) = [].
Proof.
  induction tables as [|table tables IH]; [done|]. simpl.
  destruct (TableExists dst table).
  - destruct (GetRowCount src table) as [e|count]; [done|].
    by destruct (preview_tables src dst tables).
  - by destruct (preview_tables src dst tables).
Qed.

Lemma preview_renames_previews (k : kind) src renames log :
  preview_renames (RenameDryRun k)
    (match k with Loadpoint => LoadpointPreview | Vehicle => VehiclePreview end)
    src renames = (log, None) →
  previews log = preview_counts k src renames.
Proof.
  revert log. induction renames as [|rename renames IH]; intros log; simpl.
  - by intros [= <-].
  - destruct (RenameDryRun k src _ _) as [result [e|]] eqn:Hdry; [done|].
    destruct (preview_renames _ _ src renames) as [log' err].
    intros [= <- ->]. rewrite <- (IH log' eq_refl). by destruct k.
Qed.

Lemma apply_renames_counts (k : kind) context c renames c' results :
  apply_renames (Rename k) context c renames = (c', results, None) →
  c' = state_after k c renames
  ∧ results
    = zip_with (fun st rename =>
                  fst (RenameDryRun k st (OldName rename) (NewName rename)))
               (states_before k c renames) renames.
Proof.
  revert c results. induction renames as [|rename renames IH]; intros c results.
  - simpl. by intros [= <- <-].
  - cbn [apply_renames states_before state_after zip_with].
    destruct (Rename k c (OldName rename) (NewName rename))
      as [c1 [result [e|]]] eqn:Hrun; [done|].
    destruct (apply_renames (Rename k) context c1 renames)
      as [[c2 results'] err] eqn:Hrest.
    intros [= <- <- ->]. destruct (IH _ _ Hrest) as [-> ->].
    f_equal. destruct k; simpl in *.
    + by rewrite (loadpoint_counts_agree c _ _ c1 result Hrun).
    + by rewrite (vehicle_counts_agree c _ _ c1 result Hrun).
Qed.

Lemma RenameDryRun_same_entities (k : kind) a b oldName newName :
  same_entities a b →
  RenameDryRun k a oldName newName = RenameDryRun k b oldName newName.
Proof.
  intros (Hs & Hk & Hc).
  destruct k; simpl;
    unfold RenameLoadpointDryRun, RenameVehicleDryRun, countConfigsWithTitle,
      sql_count, sql_select, prepare;
    by rewrite Hs, Hk, Hc.
Qed.

Lemma zip_with_same_entities (k : kind) src states renames :
  Forall (same_entities src) states → length states = length renames →
  zip_with (fun st rename =>
              fst (RenameDryRun k st (OldName rename) (NewName rename)))
           states renames
  = preview_counts k src renames.
Proof.
  intros Hall. revert renames.
  induction Hall as [|st states Hst Hall IH]; intros [|rename renames]; try done.
  simpl. intros [= Hlen]. rewrite IH by done.
  by rewrite (RenameDryRun_same_entities k src st).
Qed.

Lemma states_before_length (k : kind) c renames :
  length (states_before k c renames) = length renames.
Proof.
  revert c. induction renames as [|rename renames IH]; intros c; [done|].
  simpl. by rewrite IH.
Qed.

(** C10, as amended. A dry run that ends without error reports, for every
    directive, the counts of the counting mode on the source database.  A
    real run that ends without error applies the directives to the
    destination, from the state that the copy phase committed on, and the
    counts of every directive are those of the counting mode on the state
    it is applied to.  So the counts of the real run are the counts that
    the dry run reports whenever each of these states has the same
    sessions, settings and configs tables as the source. *)
Theorem previews_count_source_renames_change_destination
    (src dst : Database) (opts : TransferOptions) :
  (DryRun opts = true → out_err (Transfer src dst opts) = None →
   previews (out_log (Transfer src dst opts))
   = preview_counts Loadpoint src (LoadpointRenames opts)
     ++ preview_counts Vehicle src (VehicleRenames opts))
  ∧ (DryRun opts = false → out_err (Transfer src dst opts) = None →
     applied (Transfer src dst opts)
     = zip_with (fun st rename =>
                   fst (RenameDryRun Loadpoint st (OldName rename) (NewName rename)))
                (states_before Loadpoint (committed src dst opts)
                               (LoadpointRenames opts))
                (LoadpointRenames opts)
       ++ zip_with (fun st rename =>
                      fst (RenameDryRun Vehicle st (OldName rename) (NewName rename)))
                   (states_before Vehicle
                      (state_after Loadpoint (committed src dst opts)
                                   (LoadpointRenames opts))
                      (VehicleRenames opts))
                   (VehicleRenames opts)
     ∧ (Forall (same_entities src) (rename_states src dst opts) →
        applied (Transfer src dst opts)
        = preview_counts Loadpoint src (LoadpointRenames opts)
          ++ preview_counts Vehicle src (VehicleRenames opts))).
Proof.
  split.
  - intros Hdry. unfold Transfer. rewrite Hdry.
    destruct (ResolveTables opts) as [e|tables]; [done|].
    pose proof (preview_tables_previews src dst tables) as Htables.
    destruct (preview_tables src dst tables) as [log [e|]]; [done|].
    destruct (preview_renames RenameLoadpointDryRun _ _ _)
      as [log1 [e|]] eqn:H1; [done|].
    destruct (preview_renames RenameVehicleDryRun _ _ _)
      as [log2 err] eqn:H2.
    cbn [out_err out_log]. intros ->.
    apply (preview_renames_previews Loadpoint) in H1.
    apply (preview_renames_previews Vehicle) in H2.
    change (previews (DryRunHeader (length tables) :: log ++ log1 ++ log2))
      with (previews (log ++ log1 ++ log2)).
    rewrite !previews_app, H1, H2. simpl in Htables. by rewrite Htables.
  - intros Hreal Herr.
    assert (applied (Transfer src dst opts)
            = zip_with (fun st rename =>
                   fst (RenameDryRun Loadpoint st (OldName rename) (NewName rename)))
                (states_before Loadpoint (committed src dst opts)
                               (LoadpointRenames opts))
                (LoadpointRenames opts)
              ++ zip_with (fun st rename =>
                      fst (RenameDryRun Vehicle st (OldName rename) (NewName rename)))
                   (states_before Vehicle
                      (state_after Loadpoint (committed src dst opts)
                                   (LoadpointRenames opts))
                      (VehicleRenames opts))
                   (VehicleRenames opts)) as Happlied.
    { revert Herr. unfold Transfer, committed. rewrite Hreal.
      destruct (ResolveTables opts) as [e|tables]; [done|].
      destruct (copy_tables dst src dst (OnProgress opts) tables)
        as [[tx log] [e|]]; [done|].
      destruct (apply_renames RenameLoadpoint _ tx _)
        as [[dst1 results1] [e|]] eqn:H1; [done|].
      destruct (apply_renames RenameVehicle _ dst1 _)
        as [[dst2 results2] err] eqn:H2.
      cbn [out_err applied fst]. intros ->.
      apply (apply_renames_counts Loadpoint) in H1 as [-> ->].
      by apply (apply_renames_counts Vehicle) in H2 as [_ ->]. }
    split; [done|]. rewrite Happlied. unfold rename_states.
    intros [H1 H2]%Forall_app.
    by rewrite !(zip_with_same_entities _ src)
      by (done || apply states_before_length).
Qed.

End Previews.

Lemma previews_count_source_renames_change_destination_witness :
  previews (out_log (Transfer (codec := flat_json) test_db test_db
                       (garage_to_carport true)))
  = [mkResult 3 1 1]
  ∧ applied (Transfer (codec := flat_json) test_db test_db
               (garage_to_carport false))
    = [mkResult 3 1 1].
Proof.
  split.
  - rewrite (proj1 (previews_count_source_renames_change_destination
                      (codec := flat_json) test_db test_db
                      (garage_to_carport true)) eq_refl);
      vm_compute; reflexivity.
  - destruct (proj2 (previews_count_source_renames_change_destination
                       (codec := flat_json) test_db test_db
                       (garage_to_carport false)) eq_refl)
      as [_ Hsame]; [vm_compute; reflexivity|].
    rewrite Hsame; [vm_compute; reflexivity|].
    assert (rename_states (codec := flat_json) test_db test_db
              (garage_to_carport false) = [test_db]) as ->
      by (vm_compute; reflexivity).
    by repeat constructor.
Defined.

(** C10, the claim as stated fails: source and destination hold different
    sessions at the loadpoint [Garage], and the counts that the dry run
    reports are the counts that the real run produces. *)
Lemma counts_agree_on_different_rows :
  sql_select test_db "sessions" ["id"] (CEq "loadpoint" (VText "Garage"))
  = inr [[VInt 1]; [VInt 2]; [VInt 3]]
  ∧ sql_select (committed test_db other_sessions_db (garage_to_carport false))
               "sessions" ["id"] (CEq "loadpoint" (VText "Garage"))
    = inr [[VInt 11]; [VInt 12]; [VInt 13]]
  ∧ previews (out_log (Transfer (codec := flat_json) test_db other_sessions_db
                         (garage_to_carport true)))
    = [mkResult 3 1 1]
  ∧ out_err (Transfer (codec := flat_json) test_db other_sessions_db
               (garage_to_carport false)) = None
  ∧ applied (Transfer (codec := flat_json) test_db other_sessions_db
               (garage_to_carport false))
    = [mkResult 3 1 1].
Proof. vm_compute. done. Qed.

(** When source and destination hold different numbers of such sessions,
    the counts differ. *)
Example counts_differ_on_different_rows :
  previews (out_log (Transfer (codec := flat_json) test_db drop_sessions_db
                       (garage_to_carport true)))
  = [mkResult 3 1 1]
  ∧ applied (Transfer (codec := flat_json) test_db drop_sessions_db
               (garage_to_carport false))
    = [mkResult 1 1 1].
Proof. vm_compute. done. Qed.

(** ** Renaming twice, and back *)

Lemma cell_set_cell i v r : (i < length r)%nat → cell (set_cell i v r) i = v.
Proof.
  intros Hi. unfold cell, set_cell.
  rewrite (nth_lookup_Some _ _ _ v); [done|]. by apply list_lookup_insert_eq.
Qed.

Lemma cell_set_cell_ne i j v r : i ≠ j → cell (set_cell i v r) j = cell r j.
Proof.
  intros Hne. unfold cell, set_cell.
  rewrite !nth_lookup. by rewrite list_lookup_insert_ne.
Qed.

Lemma sql_eq_text_inv a x : sql_eq a (VText x) = true → a = VText x.
Proof. destruct a as [|n|s]; simpl; try done. by intros ->%String.eqb_eq. Qed.

Lemma cell_in_range r i a : cell r i = a → a ≠ VNull → (i < length r)%nat.
Proof.
  unfold cell. intros Hc Ha. destruct (decide (i < length r)%nat); [done|].
  rewrite nth_overflow in Hc by lia. by subst a.
Qed.

Lemma set_cell_same i x r : cell r i = VText x → set_cell i (VText x) r = r.
Proof.
  intros Hc. unfold set_cell. apply list_insert_id.
  assert (i < length r)%nat as Hi by (by eapply cell_in_range).
  apply lookup_lt_is_Some in Hi as [a Ha].
  unfold cell in Hc. by rewrite (nth_lookup_Some _ _ _ _ Ha) in Hc; subst a.
Qed.

Lemma set_cell_twice i v w r : set_cell i w (set_cell i v r) = set_cell i w r.
Proof. unfold set_cell. apply list_insert_insert_eq. Qed.

(** An UPDATE that sets a text cell where a guard holds and the cell has
    a given text: [hit x] is its WHERE clause for the text [x]. *)
Section GuardedUpdate.
Variable i : nat.
Variable hit : string → Row → bool.
Variable guard : Row → bool.
Hypothesis hit_guard :
  ∀ x r, hit x r = guard r && sql_eq (cell r i) (VText x).
Hypothesis guard_set : ∀ v r, guard (set_cell i v r) = guard r.

Lemma hit_after_update x y r :
  hit x r = true → hit y (set_cell i (VText y) r) = true.
Proof.
  rewrite !hit_guard, guard_set. intros [Hg Hc]%andb_true_iff.
  rewrite Hg. simpl. apply sql_eq_text_inv in Hc.
  rewrite cell_set_cell by (by eapply cell_in_range).
  simpl. apply String.eqb_refl.
Qed.

Lemma no_hit_after_update x y rs r :
  x ≠ y →
  r ∈ map (fun r => if hit x r then set_cell i (VText y) r else r) rs →
  hit x r = false.
Proof.
  intros Hne (r0 & <- & _)%list_elem_of_In%in_map_iff.
  destruct (hit x r0) eqn:Hx; [|done].
  pose proof (hit_after_update x y r0 Hx) as Hy.
  rewrite hit_guard in Hy |- *. apply andb_true_iff in Hy as [-> Hc].
  apply sql_eq_text_inv in Hc. rewrite Hc. simpl.
  by apply String.eqb_neq.
Qed.

Lemma update_without_hit x v rs :
  (∀ r, r ∈ rs → hit x r = false) →
  map (fun r => if hit x r then set_cell i v r else r) rs = rs.
Proof.
  induction rs as [|r rs IH]; intros Hall; [done|]. simpl.
  rewrite (Hall r) by by left. f_equal. apply IH. intros r' Hr'. apply Hall. by right.
Qed.

Lemma count_without_hit x rs :
  (∀ r, r ∈ rs → hit x r = false) →
  length (filter (fun r => hit x r = true) rs) = 0%nat.
Proof.
  intros Hall. induction rs as [|r rs IH]; [done|].
  rewrite filter_cons_False by (rewrite (Hall r) by (by left); done).
  apply IH. intros r' Hr'. apply Hall. by right.
Qed.

Lemma update_and_back x y rs :
  (∀ r, r ∈ rs → hit y r = false) →
  map (fun r => if hit y r then set_cell i (VText x) r else r)
      (map (fun r => if hit x r then set_cell i (VText y) r else r) rs)
  = rs.
Proof.
  induction rs as [|r rs IH]; intros Hall; [done|]. simpl.
  rewrite IH by (intros r' Hr'; apply Hall; by right). f_equal.
  destruct (hit x r) eqn:Hx.
  - rewrite (hit_after_update x y r Hx), set_cell_twice.
    rewrite hit_guard in Hx. apply andb_true_iff in Hx as [_ Hc].
    by apply set_cell_same, sql_eq_text_inv.
  - by rewrite (Hall r) by by left.
Qed.

End GuardedUpdate.


(** The settings rows after a faithful migration, and after the migration
    back. *)
Section RoundTrip.
Variables oldName newName : string.
Variable rs : list Row.
Hypothesis typed : ∀ r, r ∈ rs → is_setting r = true.
Hypothesis literal :
  ∀ r, r ∈ rs → selected oldName r = true →
       HasPrefix (key_text r) (vehicle_prefix oldName) = true.
Hypothesis leaves :
  ∀ r, r ∈ rs → selected oldName r = true →
       like (vehicle_prefix oldName +:+ "%")
            (migrated_key oldName newName (key_text r)) = false.

Lemma moved_elem m :
  m ∈ moved_rows oldName newName rs →
  ∃ suffix value,
    setting (vehicle_prefix oldName +:+ suffix) value ∈ rs
    ∧ selected oldName (setting (vehicle_prefix oldName +:+ suffix) value) = true
    ∧ m = setting (vehicle_prefix newName +:+ suffix) value.
Proof.
  unfold moved_rows. rewrite map_map.
  intros (r & <- & [Hsel Hr]%list_elem_of_In%list_elem_of_filter)
         %list_elem_of_In%in_map_iff.
  pose proof (literal r Hr Hsel) as [suffix Hk]%HasPrefix_iff.
  exists suffix, (value_text r).
  rewrite <- Hk, <- (is_setting_eq r) by by apply typed.
  split_and!; [done..|].
  unfold migrated, kv_of. cbn [key_text setting kv_of migrated fst snd value_text].
  by rewrite Hk, migrated_key_prefix.
Qed.

Lemma round_trip_typed r :
  r ∈ kept_rows oldName rs ++ moved_rows oldName newName rs → is_setting r = true.
Proof.
  intros [[_ Hr]%list_elem_of_filter|Hr]%elem_of_app; [by apply typed|].
  by apply moved_elem in Hr as (suffix & value & _ & _ & ->).
Qed.

Lemma round_trip_unselected :
  filter (fun r => selected oldName r = true)
         (kept_rows oldName rs ++ moved_rows oldName newName rs) = [].
Proof.
  apply filter_none. intros r [[Hsel _]%list_elem_of_filter|Hr]%elem_of_app.
  - by rewrite Hsel.
  - apply moved_elem in Hr as (suffix & value & Hin & Hsel & ->).
    rewrite selected_key_text by done.
      cbn [key_text setting kv_of migrated fst snd value_text].
    pose proof (leaves _ Hin Hsel) as Hl. cbn [key_text setting] in Hl.
    rewrite migrated_key_prefix in Hl. by rewrite Hl.
Qed.

Hypothesis unused_new : ∀ r, r ∈ rs → selected newName r = false.

Lemma round_trip_selected_back :
  filter (fun r => selected newName r = true)
         (kept_rows oldName rs ++ moved_rows oldName newName rs)
  = moved_rows oldName newName rs
  ∧ filter (fun r => selected newName r = false)
           (kept_rows oldName rs ++ moved_rows oldName newName rs)
    = kept_rows oldName rs.
Proof.
  rewrite !filter_app. split.
  - rewrite (filter_none _ (kept_rows oldName rs)),
            (filter_all _ (moved_rows oldName newName rs)); [done| |].
    + intros m (suffix & value & _ & _ & ->)%moved_elem.
      rewrite selected_key_text by done.
      cbn [key_text setting kv_of migrated fst snd value_text]. apply like_prefix.
    + intros r [_ Hr]%list_elem_of_filter. by rewrite (unused_new r Hr).
  - rewrite (filter_all _ (kept_rows oldName rs)),
            (filter_none _ (moved_rows oldName newName rs)).
    + by rewrite app_nil_r.
    + intros m (suffix & value & _ & _ & ->)%moved_elem.
      rewrite selected_key_text by done.
      cbn [key_text setting kv_of migrated fst snd value_text]. by rewrite like_prefix.
    + intros r [_ Hr]%list_elem_of_filter. by apply unused_new.
Qed.

Lemma round_trip_moved_back :
  map (migrated newName oldName) (map kv_of (moved_rows oldName newName rs))
  = filter (fun r => selected oldName r = true) rs.
Proof.
  unfold moved_rows. rewrite !map_map.
  rewrite <- (map_id (filter _ rs)) at 2. apply map_ext_in.
  intros r [Hsel Hr]%list_elem_of_In%list_elem_of_filter.
  pose proof (literal r Hr Hsel) as [suffix Hk]%HasPrefix_iff.
  rewrite (is_setting_eq r) at 2 by by apply typed.
  unfold migrated, kv_of. cbn [key_text setting kv_of migrated fst snd value_text].
  by rewrite Hk, !migrated_key_prefix.
Qed.

Lemma round_trip_permutation :
  (kept_rows oldName rs) ++ filter (fun r => selected oldName r = true) rs ≡ₚ rs.
Proof.
  rewrite Permutation_app_comm. unfold kept_rows.
  rewrite (list_filter_iff (fun r => selected oldName r = false)
                           (fun r => ¬ selected oldName r = true)).
  - apply filter_app_complement.
  - intros r. by destruct (selected oldName r).
Qed.

Hypothesis clash :
  NoDup (map (migrated_key oldName newName)
             (map key_text (filter (fun r => selected oldName r = true) rs))
         ++ map key_text rs).

Lemma moved_keys :
  map key_text (moved_rows oldName newName rs)
  = map (migrated_key oldName newName)
        (map key_text (filter (fun r => selected oldName r = true) rs)).
Proof. unfold moved_rows. by rewrite !map_map. Qed.

Lemma moved_keys_back :
  map (migrated_key newName oldName) (map key_text (moved_rows oldName newName rs))
  = map key_text (filter (fun r => selected oldName r = true) rs).
Proof.
  rewrite moved_keys, !map_map. apply map_ext_in.
  intros r [Hsel Hr]%list_elem_of_In%list_elem_of_filter.
  pose proof (literal r Hr Hsel) as [suffix Hk]%HasPrefix_iff.
  by rewrite Hk, !migrated_key_prefix.
Qed.

Lemma round_trip_no_clash :
  NoDup (map (migrated_key newName oldName) (map key_text (moved_rows oldName newName rs))
         ++ map key_text (kept_rows oldName rs ++ moved_rows oldName newName rs)).
Proof.
  rewrite moved_keys_back, map_app, moved_keys.
  set (S := map key_text (filter (fun r => selected oldName r = true) rs)) in *.
  set (N := map (migrated_key oldName newName) S) in *.
  assert (N ++ map key_text rs ≡ₚ S ++ map key_text (kept_rows oldName rs) ++ N) as <-; [|done].
  rewrite <- round_trip_permutation at 1. rewrite map_app. fold S.
  rewrite (Permutation_app_comm N), <- app_assoc.
  apply Permutation_app_swap_app.
Qed.

End RoundTrip.

Lemma col_index_lookup cols name i :
  col_index cols name = Some i → ∃ c, cols !! i = Some c ∧ Name c = name.
Proof.
  revert i. induction cols as [|c cols IH]; intros i; simpl; [done|].
  destruct (String.eqb_spec (Name c) name) as [Hn|Hn].
  - intros [= <-]. by exists c.
  - destruct (col_index cols name) as [j|]; [|done].
    intros [= <-]. simpl. by apply IH.
Qed.

Lemma col_index_ne cols name name' i j :
  col_index cols name = Some i → col_index cols name' = Some j →
  name ≠ name' → i ≠ j.
Proof.
  intros (c & Hc & <-)%col_index_lookup (c' & Hc' & <-)%col_index_lookup Hne ->.
  rewrite Hc in Hc'. by injection Hc' as ->.
Qed.

Lemma missing_column_elem cols names n :
  missing_column cols names = None → n ∈ names →
  ∃ i, col_index cols n = Some i.
Proof. rewrite missing_column_None. intros H Hn. by apply H. Qed.

Lemma filter_length_zero {A} (P : A → bool) (l : list A) :
  length (filter (fun x => P x = true) l) = 0%nat → ∀ x, x ∈ l → P x = false.
Proof.
  intros Hlen%nil_length_inv x Hx. apply not_true_is_false. intros HP.
  by eapply (filter_nil_not_elem_of (fun x => P x = true)).
Qed.

Section Thrice.
Context {codec : Codec}.

Lemma renameSettingsKeys_other tx oldPrefix newPrefix tx' n table :
  renameSettingsKeys tx oldPrefix newPrefix = inr (tx', n) →
  table ≠ "settings" → tx' !! table = tx !! table.
Proof.
  unfold renameSettingsKeys.
  destruct (sql_select tx "settings" _ _) as [|rs]; [done|].
  destruct (scan_all scan_keyValue rs) as [kvs|]; [|done].
  destruct (migrate_keys tx _ _ kvs) as [|tx2] eqn:Hmig; [done|].
  intros [= <- _] Hne. by eapply migrate_keys_other.
Qed.

(** The sessions table after a successful rename of either kind, and the
    tables that no rename touches. *)
Lemma Rename_sessions (k : kind) c oldName newName c' result :
  Rename k c oldName newName = (c', (result, None)) →
  ∃ t i,
    c !! "sessions" = Some t
    ∧ col_index (columns t) (entity_column k) = Some i
    ∧ c' !! "sessions"
      = Some (mkTable (columns t)
                (map (fun r => if holds (columns t)
                                        (CEq (entity_column k) (VText oldName)) r
                               then set_cell i (VText newName) r else r)
                     (rows t)))
    ∧ Sessions result
      = length (filter (fun r => holds (columns t)
                                   (CEq (entity_column k) (VText oldName)) r = true)
                       (rows t))
    ∧ ∀ table, table ≠ "sessions" → table ≠ "settings" → table ≠ "configs" →
               c' !! table = c !! table.
Proof.
  intros Hrun.
  assert (∃ tx1 tx2 n1 n2 n3,
            renameInSessions c (entity_column k) oldName newName = inr (tx1, n1)
            ∧ (∀ table, table ≠ "settings" → tx2 !! table = tx1 !! table)
            ∧ renameInConfigsJSON tx2 (match k with Loadpoint => 5 | Vehicle => 3 end)
                oldName newName = (c', n3, None)
            ∧ result = mkResult n1 n2 n3)
    as (tx1 & tx2 & n1 & n2 & n3 & H1 & H2 & H3 & ->).
  { destruct k; simpl in Hrun.
    - apply RenameLoadpoint_steps in Hrun
        as (tx1 & tx2 & n1 & n2 & n3 & H1 & H2 & H3 & ->).
      exists tx1, tx2, n1, n2, n3. split_and!; try done.
      intros table Hne. by eapply sql_update_other.
    - apply RenameVehicle_steps in Hrun
        as (tx1 & tx2 & n1 & n2 & n3 & H1 & H2 & H3 & ->).
      exists tx1, tx2, n1, n2, n3. split_and!; try done.
      intros table Hne. by eapply renameSettingsKeys_other. }
  apply renameInConfigsJSON_frame in H3 as [_ H3].
  unfold renameInSessions in H1.
  apply sql_update_inv in H1 as (t & i & Ht & _ & Hi & -> & ->).
  exists t, i. split_and!; try done.
  - rewrite H3, H2 by done. by rewrite lookup_insert_eq.
  - intros table ? ? ?. rewrite H3, H2 by done. by rewrite lookup_insert_ne.
Qed.

(** The settings table after a successful [RenameLoadpoint]. *)
Lemma RenameLoadpoint_settings c oldName newName c' result :
  RenameLoadpoint c oldName newName = (c', (result, None)) →
  ∃ t ik iv,
    c !! "settings" = Some t
    ∧ col_index (columns t) "key" = Some ik
    ∧ col_index (columns t) "value" = Some iv
    ∧ c' !! "settings"
      = Some (mkTable (columns t)
                (map (fun r => if holds (columns t) (title_setting oldName) r
                               then set_cell iv (VText newName) r else r)
                     (rows t)))
    ∧ Settings result
      = length (filter (fun r => holds (columns t) (title_setting oldName) r = true)
                       (rows t)).
Proof.
  intros (tx1 & tx2 & n1 & n2 & n3 & H1 & H2 & H3 & ->)%RenameLoadpoint_steps.
  apply sessions_count_agrees in H1 as [_ H1].
  apply renameInConfigsJSON_frame in H3 as [_ H3].
  unfold renameSettingsValue in H2. fold (title_setting oldName) in H2.
  apply sql_update_inv in H2 as (t & iv & Ht & Hm & Hiv & -> & ->).
  destruct (missing_column_elem _ _ "key" Hm) as [ik Hik]; [set_solver|].
  exists t, ik, iv. split_and!; try done.
  - by rewrite <- H1.
  - rewrite H3 by done. by rewrite lookup_insert_eq.
Qed.

End Thrice.

Lemma sql_count_inv db table c n :
  sql_count db table c = inr n →
  ∃ t, db !! table = Some t
       ∧ n = length (filter (fun r => holds (columns t) c r = true) (rows t)).
Proof.
  unfold sql_count.
  destruct (prepare db table (cond_columns c)) as [|t] eqn:Hp; [done|].
  apply prepare_inv in Hp as [Ht _]. intros [= <-]. by exists t.
Qed.

Lemma unused_inv k c name :
  unused k c name = true →
  sql_count c "sessions" (CEq (entity_column k) (VText name)) = inr 0%nat
  ∧ sql_count c "settings"
      (match k with
       | Loadpoint => title_setting name
       | Vehicle => CLike "key" (vehicle_prefix name +:+ "%")
       end) = inr 0%nat.
Proof.
  unfold unused.
  destruct (sql_count c "sessions" _) as [|[|?]]; try done.
  by destruct (sql_count c "settings" _) as [|[|?]].
Qed.

Lemma holds_eq_cell cols column i x r :
  col_index cols column = Some i →
  holds cols (CEq column (VText x)) r = true && sql_eq (cell r i) (VText x).
Proof. intros Hi. simpl. by rewrite Hi. Qed.

Lemma holds_title_setting cols ik iv x r :
  col_index cols "key" = Some ik → col_index cols "value" = Some iv →
  holds cols (title_setting x) r
  = sql_like "lp%.title" (cell r ik) && sql_eq (cell r iv) (VText x).
Proof. intros Hik Hiv. unfold title_setting. cbn [holds]. by rewrite Hik, Hiv. Qed.

Section ThriceSessions.
Context {codec : Codec}.

(** The sessions table over the three runs. *)
Lemma sessions_thrice (k : kind) c oldName newName c1 r1 c2 r2 c3 r3 :
  oldName ≠ newName →
  Rename k c oldName newName = (c1, (r1, None)) →
  Rename k c1 oldName newName = (c2, (r2, None)) →
  Rename k c2 newName oldName = (c3, (r3, None)) →
  Sessions r2 = 0%nat
  ∧ (∀ table, table ≠ "sessions" → table ≠ "settings" → table ≠ "configs" →
              c3 !! table = c !! table)
  ∧ (sql_count c "sessions" (CEq (entity_column k) (VText newName)) = inr 0%nat →
     c3 !! "sessions" = c !! "sessions").
Proof.
  intros Hne (t & i & Ht & Hi & Ht1 & _ & Ho1)%Rename_sessions
         (t1 & i1 & Ht1' & Hi1 & Ht2 & Hn2 & Ho2)%Rename_sessions
         (t2 & i2 & Ht2' & Hi2 & Ht3 & _ & Ho3)%Rename_sessions.
  pose (hit := fun x r => holds (columns t) (CEq (entity_column k) (VText x)) r).
  pose (upd := fun x y => map (fun r => if hit x r then set_cell i (VText y) r else r)).
  assert (∀ x r, hit x r = (fun _ => true) r && sql_eq (cell r i) (VText x))
    as Hhit by (intros x r; by apply holds_eq_cell).
  assert (∀ r, r ∈ upd oldName newName (rows t) → hit oldName r = false) as Hnone.
  { intros r. by apply (no_hit_after_update i hit (fun _ => true)). }
  assert (t1 = mkTable (columns t) (upd oldName newName (rows t))) as E1.
  { rewrite Ht1 in Ht1'. by apply (inj Some) in Ht1'. }
  assert (i1 = i) as Ei1.
  { rewrite E1 in Hi1. cbn [columns] in Hi1. rewrite Hi in Hi1. by apply (inj Some) in Hi1. }
  assert (c2 !! "sessions" = Some t1) as Ht2c.
  { rewrite Ht2, Ei1, E1. cbn [columns rows]. do 2 f_equal.
    by apply (update_without_hit i hit). }
  assert (Sessions r2 = 0%nat) as Hzero.
  { rewrite Hn2, E1. cbn [columns rows]. by apply (count_without_hit hit). }
  assert (t2 = t1) as E2.
  { rewrite Ht2c in Ht2'. by apply (inj Some) in Ht2'. }
  assert (i2 = i) as Ei2.
  { rewrite E2, E1 in Hi2. cbn [columns] in Hi2. rewrite Hi in Hi2.
    by apply (inj Some) in Hi2. }
  split_and!.
  - done.
  - intros table ? ? ?. by rewrite Ho3, Ho2, Ho1.
  - intros (t' & Ht' & Hlen)%sql_count_inv.
    rewrite Ht in Ht'. apply (inj Some) in Ht' as <-. symmetry in Hlen.
    rewrite Ht3, Ht. f_equal. rewrite E2, Ei2, E1. cbn [columns rows].
    destruct t as [cols rs]. cbn [columns rows] in *.
    f_equal. apply (update_and_back i hit (fun _ => true)); [done..|].
    by apply filter_length_zero.
Qed.

End ThriceSessions.

(** After the migration of keys that the old pattern does not select
    again, the old pattern selects no row. *)
Lemma migrate_steps_settled oldName newName kvs R :
  (∀ r, r ∈ R → is_setting r = true) →
  (∀ r, r ∈ R → selected oldName r = true → key_text r ∈ map fst kvs) →
  (∀ kv, kv ∈ kvs →
         like (vehicle_prefix oldName +:+ "%")
              (migrated_key oldName newName kv.1) = false) →
  ∀ r, r ∈ fold_left (migrate_step oldName newName) kvs R →
       is_setting r = true ∧ selected oldName r = false.
Proof.
  revert R. induction kvs as [|kv kvs IH]; intros R Htyped Hsel Hleaves r; simpl.
  - intros Hr. split; [by apply Htyped|].
    apply not_true_is_false. intros Hs. by apply Hsel, elem_of_nil in Hs.
  - apply IH.
    + intros r' [_ [[_ Hr']%list_elem_of_filter|Hr'%list_elem_of_singleton]%elem_of_app]
             %list_elem_of_filter; [by apply Htyped|by subst r'].
    + intros r' [Hk [[_ Hr']%list_elem_of_filter|Hr'%list_elem_of_singleton]%elem_of_app]
             %list_elem_of_filter Hs.
      * apply Hsel in Hs; [|done]. simpl in Hs.
        apply elem_of_cons in Hs as [Hs|Hs]; [|done].
        rewrite has_key_key_text, Hs, String.eqb_refl in Hk by by apply Htyped. done.
      * subst r'. rewrite selected_key_text in Hs by done. cbn [key_text setting] in Hs.
        rewrite Hleaves in Hs by by left. done.
    + intros kv' Hkv'. apply Hleaves. by right.
Qed.

Lemma leaves_old_pattern_inv oldName newName t kv :
  leaves_old_pattern oldName newName t = true →
  kv ∈ selected_kvs oldName t →
  like (vehicle_prefix oldName +:+ "%") (migrated_key oldName newName kv.1) = false.
Proof.
  unfold leaves_old_pattern. rewrite forallb_forall. intros Hall Hkv.
  apply negb_true_iff, Hall, list_elem_of_In. rewrite <- selected_kvs_keys.
  by apply list_elem_of_In, in_map, list_elem_of_In.
Qed.

Lemma settings_table_intro cols rs :
  settings_schema cols = true → (∀ r, r ∈ rs → is_setting r = true) →
  settings_table (mkTable cols rs) = true.
Proof.
  intros Hs Hr. unfold settings_table. cbn [columns rows].
  rewrite Hs. simpl. apply forallb_forall. intros r Hin. by apply Hr, list_elem_of_In.
Qed.

Lemma selected_kvs_nil oldName t :
  (∀ r, r ∈ rows t → selected oldName r = false) → selected_kvs oldName t = [].
Proof.
  intros Hall. unfold selected_kvs. rewrite filter_none; [done|].
  intros r Hr. by rewrite (Hall r Hr).
Qed.

Section ThriceSettings.
Context {codec : Codec}.

(** The settings table over the first two runs of a vehicle rename. *)
Lemma vehicle_settings_twice c oldName newName c1 r1 c2 r2 t :
  RenameVehicle c oldName newName = (c1, (r1, None)) →
  RenameVehicle c1 oldName newName = (c2, (r2, None)) →
  c !! "settings" = Some t → settings_table t = true →
  leaves_old_pattern oldName newName t = true →
  Settings r2 = 0%nat
  ∧ c2 !! "settings"
    = Some (mkTable (columns t)
              (fold_left (migrate_step oldName newName)
                         (selected_kvs oldName t) (rows t))).
Proof.
  intros Hrun1 Hrun2 Ht Hok Hleaves.
  pose proof (settings_table_inv t Hok) as [Hschema Htyped].
  destruct (RenameVehicle_settings _ _ _ _ _ t Hrun1 Ht Hok) as [Ht1 _].
  set (rs1 := fold_left (migrate_step oldName newName) (selected_kvs oldName t) (rows t))
    in *.
  assert (∀ r, r ∈ rs1 → is_setting r = true ∧ selected oldName r = false) as Hsettled.
  { apply migrate_steps_settled; [done| |].
    - intros r Hr Hs. rewrite selected_kvs_keys. unfold selected_keys.
      apply list_elem_of_In, in_map, list_elem_of_In. by apply list_elem_of_filter.
    - intros kv Hkv. by eapply leaves_old_pattern_inv. }
  assert (settings_table (mkTable (columns t) rs1) = true) as Hok1.
  { apply settings_table_intro; [done|]. intros r Hr. by apply Hsettled. }
  destruct (RenameVehicle_settings _ _ _ _ _ _ Hrun2 Ht1 Hok1) as [Ht2 Hn2].
  rewrite selected_kvs_nil in Ht2, Hn2 by (intros r Hr; by apply Hsettled).
  done.
Qed.

(** The settings table after the three runs of a vehicle rename whose
    migration is faithful and whose new name was unused. *)
Lemma vehicle_settings_thrice c oldName newName c1 r1 c2 r2 c3 r3 :
  RenameVehicle c oldName newName = (c1, (r1, None)) →
  RenameVehicle c1 oldName newName = (c2, (r2, None)) →
  RenameVehicle c2 newName oldName = (c3, (r3, None)) →
  faithful_migration c oldName newName = true →
  sql_count c "settings" (CLike "key" (vehicle_prefix newName +:+ "%")) = inr 0%nat →
  ∃ t t3, c !! "settings" = Some t ∧ c3 !! "settings" = Some t3
          ∧ columns t3 = columns t ∧ rows t3 ≡ₚ rows t.
Proof.
  intros Hrun1 Hrun2 Hrun3 Hfaith Hunused.
  unfold faithful_migration, clean_migration in Hfaith.
  destruct (c !! "settings") as [t|] eqn:Ht; [|done].
  apply andb_true_iff in Hfaith as [[Hok Hclash]%andb_true_iff [Hlit Hleaves]%andb_true_iff].
  pose proof (settings_table_inv t Hok) as [Hschema Htyped].
  destruct (vehicle_settings_twice _ _ _ _ _ _ _ t Hrun1 Hrun2 Ht Hok Hleaves) as [_ Ht2].
  rewrite migrate_clean in Ht2 by done.
  assert (∀ r, r ∈ rows t → selected oldName r = true →
               HasPrefix (key_text r) (vehicle_prefix oldName) = true) as Hliteral.
  { intros r Hr Hs. unfold literal_selection in Hlit.
    rewrite forallb_forall in Hlit. apply Hlit. unfold selected_keys.
    apply in_map, list_elem_of_In. by apply list_elem_of_filter. }
  assert (∀ r, r ∈ rows t → selected newName r = false) as Hfree.
  { apply sql_count_inv in Hunused as (t' & Ht' & Hlen).
    rewrite Ht in Ht'. apply (inj Some) in Ht' as <-. symmetry in Hlen.
    intros r Hr. pose proof (filter_length_zero _ _ Hlen r Hr) as Hh.
    apply settings_schema_inv in Hschema as (kt & kn & kd & vt & vn & vd & Hcols).
    by rewrite Hcols in Hh. }
  assert (NoDup (map (migrated_key oldName newName)
                     (map key_text (filter (fun r => selected oldName r = true) (rows t)))
                 ++ map key_text (rows t))) as Hnodup.
  { by apply bool_decide_eq_true in Hclash. }
  unfold selected_kvs in Ht2.
  change (c2 !! "settings"
          = Some (mkTable (columns t)
                    (kept_rows oldName (rows t) ++ moved_rows oldName newName (rows t))))
    in Ht2.
  assert (settings_table
            (mkTable (columns t)
               (kept_rows oldName (rows t) ++ moved_rows oldName newName (rows t)))
          = true) as Hok2.
  { apply settings_table_intro; [done|]. by apply round_trip_typed. }
  destruct (RenameVehicle_settings _ _ _ _ _ _ Hrun3 Ht2 Hok2) as [Ht3 _].
  destruct (round_trip_selected_back oldName newName (rows t)) as [Hsel Hrest];
    [done..|].
  rewrite migrate_clean in Ht3.
  - unfold selected_kvs in Ht3. cbn [columns rows] in Ht3.
    rewrite Hsel, Hrest, round_trip_moved_back in Ht3 by done.
    eexists t, _. split_and!; [done..|]. cbn [rows]. apply round_trip_permutation.
  - cbn [rows]. by apply round_trip_typed.
  - apply bool_decide_eq_true. unfold selected_keys. cbn [rows].
    rewrite Hsel. by apply round_trip_no_clash.
Qed.

(** The settings table over the three runs of a loadpoint rename. *)
Lemma loadpoint_settings_thrice c oldName newName c1 r1 c2 r2 c3 r3 :
  oldName ≠ newName →
  RenameLoadpoint c oldName newName = (c1, (r1, None)) →
  RenameLoadpoint c1 oldName newName = (c2, (r2, None)) →
  RenameLoadpoint c2 newName oldName = (c3, (r3, None)) →
  Settings r2 = 0%nat
  ∧ (sql_count c "settings" (title_setting newName) = inr 0%nat →
     c3 !! "settings" = c !! "settings").
Proof.
  intros Hne (t & ik & iv & Ht & Hik & Hiv & Ht1 & _)%RenameLoadpoint_settings
         (t1 & ik1 & iv1 & Ht1' & Hik1 & Hiv1 & Ht2 & Hn2)%RenameLoadpoint_settings
         (t2 & ik2 & iv2 & Ht2' & Hik2 & Hiv2 & Ht3 & _)%RenameLoadpoint_settings.
  pose (hit := fun x r => holds (columns t) (title_setting x) r).
  pose (guard := fun r : Row => sql_like "lp%.title" (cell r ik)).
  pose (upd := fun x y => map (fun r => if hit x r then set_cell iv (VText y) r else r)).
  assert (∀ x r, hit x r = guard r && sql_eq (cell r iv) (VText x)) as Hhit.
  { intros x r. by apply holds_title_setting. }
  assert (∀ v r, guard (set_cell iv v r) = guard r) as Hguard.
  { intros v r. unfold guard. rewrite cell_set_cell_ne; [done|].
    by eapply (col_index_ne (columns t) "value" "key"). }
  assert (∀ r, r ∈ upd oldName newName (rows t) → hit oldName r = false) as Hnone.
  { intros r. by apply (no_hit_after_update iv hit guard). }
  assert (t1 = mkTable (columns t) (upd oldName newName (rows t))) as E1.
  { rewrite Ht1 in Ht1'. by apply (inj Some) in Ht1'. }
  assert (iv1 = iv) as Ei1.
  { rewrite E1 in Hiv1. cbn [columns] in Hiv1. rewrite Hiv in Hiv1.
    by apply (inj Some) in Hiv1. }
  assert (c2 !! "settings" = Some t1) as Ht2c.
  { rewrite Ht2, Ei1, E1. cbn [columns rows]. do 2 f_equal.
    by apply (update_without_hit iv hit). }
  assert (Settings r2 = 0%nat) as Hzero.
  { rewrite Hn2, E1. cbn [columns rows]. by apply (count_without_hit hit). }
  assert (t2 = t1) as E2.
  { rewrite Ht2c in Ht2'. by apply (inj Some) in Ht2'. }
  assert (iv2 = iv) as Ei2.
  { rewrite E2, E1 in Hiv2. cbn [columns] in Hiv2. rewrite Hiv in Hiv2.
    by apply (inj Some) in Hiv2. }
  split; [done|].
  intros (t' & Ht' & Hlen)%sql_count_inv.
  rewrite Ht in Ht'. apply (inj Some) in Ht' as <-. symmetry in Hlen.
  rewrite Ht3, Ht. f_equal. rewrite E2, Ei2, E1. cbn [columns rows].
  destruct t as [cols rs]. cbn [columns rows] in *.
  f_equal. apply (update_and_back iv hit guard); [done..|].
  by apply filter_length_zero.
Qed.

End ThriceSettings.

(** ** A rename, the rename again, and the rename back *)

Section Thrice_and_back.
Context {codec : Codec}.

(** C9, as amended. Let a rename of [oldName] to a different [newName]
    succeed, then succeed again on the database it leaves, and let the
    rename of [newName] to [oldName] succeed on the database after that.
    The second run reports zero sessions.  It reports zero settings for
    a loadpoint, and for a vehicle when the settings table is the
    application's and the pattern of the old name selects no migrated
    key.  When the counting queries find [newName] in no session and no
    setting before the first run, and, for a vehicle, the migration is
    faithful, the third run restores every table other than [settings]
    and [configs], and the [settings] table has its columns and its
    rows again, the rows possibly in another order. *)
Theorem rename_twice_and_back (k : kind) (c : Database) (oldName newName : string)
    (c1 c2 c3 : Database) (r1 r2 r3 : RenameResult) :
  oldName ≠ newName →
  Rename k c oldName newName = (c1, (r1, None)) →
  Rename k c1 oldName newName = (c2, (r2, None)) →
  Rename k c2 newName oldName = (c3, (r3, None)) →
  Sessions r2 = 0%nat
  ∧ ((k = Vehicle → settled_migration c oldName newName = true) →
     Settings r2 = 0%nat)
  ∧ (unused k c newName = true →
     (k = Vehicle → faithful_migration c oldName newName = true) →
     (∀ table, table ≠ "settings" → table ≠ "configs" → c3 !! table = c !! table)
     ∧ ∃ t t3, c !! "settings" = Some t ∧ c3 !! "settings" = Some t3
               ∧ columns t3 = columns t ∧ rows t3 ≡ₚ rows t).
Proof.
  intros Hne Hrun1 Hrun2 Hrun3.
  destruct (sessions_thrice k c oldName newName c1 r1 c2 r2 c3 r3 Hne Hrun1 Hrun2 Hrun3)
    as (Hsessions & Hframe & Hback).
  split; [done|].
  assert (sql_count c "sessions" (CEq (entity_column k) (VText newName)) = inr 0%nat →
          ∀ table, table ≠ "settings" → table ≠ "configs" → c3 !! table = c !! table)
    as Hothers.
  { intros Hcount table ? ?. destruct (decide (table = "sessions")) as [->|?].
    - by apply Hback.
    - by apply Hframe. }
  destruct k; simpl in Hrun1, Hrun2, Hrun3.
  - destruct (loadpoint_settings_thrice c oldName newName c1 r1 c2 r2 c3 r3
                Hne Hrun1 Hrun2 Hrun3) as [Hzero Hsettings].
    split; [done|].
    intros [Hcount1 Hcount2]%unused_inv _. split; [by apply Hothers|].
    pose proof (Hsettings Hcount2) as H3.
    apply sql_count_inv in Hcount2 as (t & Ht & _).
    exists t, t. rewrite H3. done.
  - split.
    + intros Hsettled. specialize (Hsettled eq_refl).
      unfold settled_migration in Hsettled.
      destruct (c !! "settings") as [t|] eqn:Ht; [|done].
      apply andb_true_iff in Hsettled as [Hok Hleaves].
      by destruct (vehicle_settings_twice c oldName newName c1 r1 c2 r2 t).
    + intros [Hcount1 Hcount2]%unused_inv Hfaith. split; [by apply Hothers|].
      by eapply vehicle_settings_thrice; [..|apply Hfaith|].
Qed.

End Thrice_and_back.

Lemma rename_twice_and_back_witness :
  Sessions (second_run (codec := flat_json) Vehicle test_db "e-Golf" "ID.4").2.1 = 0%nat
  ∧ Settings (second_run (codec := flat_json) Vehicle test_db "e-Golf" "ID.4").2.1
    = 0%nat
  ∧ (third_run (codec := flat_json) Vehicle test_db "e-Golf" "ID.4").1 !! "sessions"
    = test_db !! "sessions"
  ∧ ∃ t3, (third_run (codec := flat_json) Vehicle test_db "e-Golf" "ID.4").1
          !! "settings" = Some t3
          ∧ rows t3 ≡ₚ rows test_settings.
Proof.
  destruct (rename_twice_and_back (codec := flat_json) Vehicle test_db "e-Golf" "ID.4"
              (first_run (codec := flat_json) Vehicle test_db "e-Golf" "ID.4").1
              (second_run (codec := flat_json) Vehicle test_db "e-Golf" "ID.4").1
              (third_run (codec := flat_json) Vehicle test_db "e-Golf" "ID.4").1
              (first_run (codec := flat_json) Vehicle test_db "e-Golf" "ID.4").2.1
              (second_run (codec := flat_json) Vehicle test_db "e-Golf" "ID.4").2.1
              (third_run (codec := flat_json) Vehicle test_db "e-Golf" "ID.4").2.1)
    as (Hsessions & Hsettings & Hback).
  - discriminate.
  - vm_compute. reflexivity.
  - vm_compute. reflexivity.
  - vm_compute. reflexivity.
  - split; [exact Hsessions|]. split.
    + apply Hsettings. intros _. vm_compute. reflexivity.
    + destruct Hback as [Hothers (t & t3 & Ht & Ht3 & _ & Hrows)].
      * vm_compute. reflexivity.
      * intros _. vm_compute. reflexivity.
      * split; [by apply Hothers|].
        exists t3. split; [exact Ht3|].
        assert (t = test_settings) as <-; [|exact Hrows].
        apply (inj Some). rewrite <- Ht. reflexivity.
Defined.

(** C9, the claim as stated fails.  After the successful rename of the
    vehicle [ID] to [ID.4] the second run finds the migrated key again
    and reports one setting, and the run back leaves the key
    [vehicle.ID.4.minSoc] where [vehicle.ID.minSoc] was.  After the
    rename of the loadpoint [Garage] to [eBikes], a name in use, the run
    back gives the name [Garage] to five sessions where three had it.
    After the rename of [Garage] to the unused [Carport], the run back
    stores the blob of the loadpoint re-encoded, its members in the
    order of their keys. *)
Lemma rename_back_does_not_restore :
  (snd (first_run (codec := flat_json) Vehicle id_db "ID" "ID.4")
   = (mkResult 0 1 0, None)
   ∧ snd (second_run (codec := flat_json) Vehicle id_db "ID" "ID.4")
     = (mkResult 0 1 0, None)
   ∧ snd (third_run (codec := flat_json) Vehicle id_db "ID" "ID.4")
     = (mkResult 0 1 0, None)
   ∧ id_db !! "settings"
     = Some (mkTable settings_columns [setting "vehicle.ID.minSoc" "25"])
   ∧ (third_run (codec := flat_json) Vehicle id_db "ID" "ID.4").1 !! "settings"
     = Some (mkTable settings_columns [setting "vehicle.ID.4.minSoc" "25"]))
  ∧ (snd (first_run (codec := flat_json) Loadpoint test_db "Garage" "eBikes")
     = (mkResult 3 1 1, None)
     ∧ snd (second_run (codec := flat_json) Loadpoint test_db "Garage" "eBikes")
       = (mkResult 0 0 0, None)
     ∧ snd (third_run (codec := flat_json) Loadpoint test_db "Garage" "eBikes")
       = (mkResult 5 2 1, None)
     ∧ sql_count test_db "sessions" (CEq "loadpoint" (VText "Garage")) = inr 3%nat
     ∧ sql_count (third_run (codec := flat_json) Loadpoint test_db "Garage" "eBikes").1
         "sessions" (CEq "loadpoint" (VText "Garage")) = inr 5%nat)
  ∧ (snd (first_run (codec := flat_json) Loadpoint test_db "Garage" "Carport")
     = (mkResult 3 1 1, None)
     ∧ snd (second_run (codec := flat_json) Loadpoint test_db "Garage" "Carport")
       = (mkResult 0 0 0, None)
     ∧ snd (third_run (codec := flat_json) Loadpoint test_db "Garage" "Carport")
       = (mkResult 3 1 1, None)
     ∧ test_db !! "configs"
       = Some (mkTable configs_columns
                 [config 1 5 (dq "{'title':'Garage','charger':'db:1'}");
                  config 2 3 (dq "{'title':'e-Golf','type':'vw'}")])
     ∧ (third_run (codec := flat_json) Loadpoint test_db "Garage" "Carport").1
       !! "configs"
       = Some (mkTable configs_columns
                 [config 1 5 (dq "{'charger':'db:1','title':'Garage'}");
                  config 2 3 (dq "{'title':'e-Golf','type':'vw'}")])).
Proof. vm_compute. done. Qed.

(* ===================================================================== *)
(** * Part III: further properties *)
(* ===================================================================== *)

(** ** Deleting sessions *)

Lemma sql_delete_inv db table c db' n :
  sql_delete db table c = inr (db', n) →
  ∃ t, db !! table = Some t
       ∧ missing_column (columns t) (cond_columns c) = None
       ∧ db' = <[table := mkTable (columns t)
                   (filter (fun r => holds (columns t) c r = false) (rows t))]> db
       ∧ n = length (filter (fun r => holds (columns t) c r = true) (rows t)).
Proof.
  unfold sql_delete.
  destruct (prepare db table (cond_columns c)) as [|t] eqn:Hp; [done|].
  apply prepare_inv in Hp as [Ht Hm]. intros [= <- <-]. by exists t.
Qed.

Lemma DeleteSessions_inv k c name c' n :
  DeleteSessions k c name = (c', (n, None)) →
  sql_delete c "sessions" (CEq (entity_column k) (VText name)) = inr (c', n).
Proof.
  destruct k; simpl; unfold DeleteLoadpointSessions, DeleteVehicleSessions;
    destruct (sql_delete c "sessions" _) as [|[c1 n1]]; by intros [= <- <-].
Qed.

Lemma CountSessions_eq k c name :
  CountSessions k c name
  = match sql_count c "sessions" (CEq (entity_column k) (VText name)) with
    | inl e => (O, Some e)
    | inr count => (count, None)
    end.
Proof. by destruct k. Qed.

Lemma text_hits_disjoint cols column x y r :
  x ≠ y →
  holds cols (CEq column (VText x)) r = true →
  holds cols (CEq column (VText y)) r = false.
Proof.
  intros Hne. simpl. destruct (col_index cols column) as [i|]; [|done].
  intros ->%sql_eq_text_inv. simpl. by apply String.eqb_neq.
Qed.

Lemma filter_filter_false {A} (P : A → bool) (l : list A) :
  filter (fun x => P x = true) (filter (fun x => P x = false) l) = [].
Proof.
  apply filter_none. intros x [Hx _]%list_elem_of_filter. by rewrite Hx.
Qed.

(** X1. A delete that succeeds removes what the count reports: it
    returns the number that [CountLoadpointSessions] (or
    [CountVehicleSessions]) returns for the name on the database before,
    the count of the name is zero afterwards, the counts of all other
    names are unchanged, the sessions table has that many rows less, and
    no other table is touched. *)
Theorem delete_removes_what_count_reports (k : kind) (c c' : Database)
    (name : string) (n : nat) :
  DeleteSessions k c name = (c', (n, None)) →
  CountSessions k c name = (n, None)
  ∧ CountSessions k c' name = (O, None)
  ∧ (∀ other, other ≠ name → CountSessions k c' other = CountSessions k c other)
  ∧ (∃ m, GetRowCount c "sessions" = inr (m + n)%nat
          ∧ GetRowCount c' "sessions" = inr m)
  ∧ ∀ table, table ≠ "sessions" → c' !! table = c !! table.
Proof.
  intros (t & Ht & Hm & -> & ->)%DeleteSessions_inv%sql_delete_inv.
  rewrite !CountSessions_eq.
  split_and!.
  - by rewrite (sql_count_intro _ _ _ t).
  - erewrite sql_count_intro; [|by rewrite lookup_insert_eq|done].
    cbn [columns rows]. by rewrite filter_filter_false.
  - intros other Hne. rewrite !CountSessions_eq.
    erewrite (sql_count_intro (<[_ := _]> c)); [|by rewrite lookup_insert_eq|done].
    rewrite (sql_count_intro c _ _ t) by done.
    cbn [columns rows]. do 2 f_equal.
    rewrite list_filter_filter. apply filter_ext_elem. intros r _. split; [tauto|].
    intros Hr. split; [done|]. by eapply text_hits_disjoint.
  - eexists. rewrite !GetRowCount_lookup, lookup_insert_eq, Ht. cbn [rows].
    split; [|done]. f_equal. symmetry. apply length_filter_split.
  - intros table Hne. by rewrite lookup_insert_ne.
Qed.

Lemma delete_removes_what_count_reports_witness :
  CountSessions Loadpoint test_db "Garage" = (3%nat, None)
  ∧ CountSessions Loadpoint (DeleteSessions Loadpoint test_db "Garage").1 "Garage"
    = (O, None)
  ∧ CountSessions Loadpoint (DeleteSessions Loadpoint test_db "Garage").1 "eBikes"
    = CountSessions Loadpoint test_db "eBikes".
Proof.
  destruct (delete_removes_what_count_reports Loadpoint test_db
              (DeleteSessions Loadpoint test_db "Garage").1 "Garage" 3)
    as (Hbefore & Hafter & Hothers & _).
  - vm_compute. reflexivity.
  - split_and!; [exact Hbefore|exact Hafter|]. by apply Hothers.
Defined.

Lemma DeleteSessions_eq k c name :
  DeleteSessions k c name
  = match c !! "sessions" with
    | None => (c, (O, Some (Wrapped "failed to delete sessions"
                                    (NoSuchTable "sessions"))))
    | Some t =>
        match col_index (columns t) (entity_column k) with
        | None => (c, (O, Some (Wrapped "failed to delete sessions"
                                        (NoSuchColumn (entity_column k)))))
        | Some i =>
            (<["sessions" := mkTable (columns t)
                 (filter (fun r => sql_eq (cell r i) (VText name) = false) (rows t))]> c,
             (length (filter (fun r => sql_eq (cell r i) (VText name) = true)
                             (rows t)), None))
        end
    end.
Proof.
  destruct k; simpl; unfold DeleteLoadpointSessions, DeleteVehicleSessions,
    sql_delete, prepare; simpl.
  all: destruct (c !! "sessions") as [t|]; [|done].
  all: by destruct (col_index (columns t) _) eqn:E; simpl; rewrite ?E.
Qed.

(** X2. Two deletes, of either kind and for any names, leave the same
    database in either order; and a delete that is repeated leaves the
    database of the first delete, with the count zero and the same
    error, if any. *)
Theorem deletes_commute_and_repeat (c : Database) :
  (∀ k1 k2 name1 name2,
     (DeleteSessions k2 (DeleteSessions k1 c name1).1 name2).1
     = (DeleteSessions k1 (DeleteSessions k2 c name2).1 name1).1)
  ∧ (∀ k name,
       DeleteSessions k (DeleteSessions k c name).1 name
       = ((DeleteSessions k c name).1, (O, (DeleteSessions k c name).2.2))).
Proof.
  split.
  - intros k1 k2 name1 name2. rewrite (DeleteSessions_eq k1 c), (DeleteSessions_eq k2 c).
    destruct (c !! "sessions") as [t|] eqn:Ht; cbn [fst].
    + destruct (col_index (columns t) (entity_column k1)) as [i1|] eqn:H1,
               (col_index (columns t) (entity_column k2)) as [i2|] eqn:H2; cbn [fst].
      * rewrite !DeleteSessions_eq, !lookup_insert_eq. cbn [columns rows].
        rewrite H1, H2. cbn [fst]. rewrite !insert_insert_eq. do 2 f_equal.
        rewrite !list_filter_filter. apply filter_ext_elem. tauto.
      * rewrite !DeleteSessions_eq, !lookup_insert_eq, Ht. cbn [columns rows].
        by rewrite H1, H2.
      * rewrite !DeleteSessions_eq, !lookup_insert_eq, Ht. cbn [columns rows].
        by rewrite H1, H2.
      * rewrite !DeleteSessions_eq, Ht. by rewrite H1, H2.
    + rewrite !DeleteSessions_eq, Ht. done.
  - intros k name. rewrite (DeleteSessions_eq k c).
    destruct (c !! "sessions") as [t|] eqn:Ht; cbn [fst snd].
    + destruct (col_index (columns t) (entity_column k)) as [i|] eqn:Hi; cbn [fst snd].
      * rewrite DeleteSessions_eq, lookup_insert_eq. cbn [columns rows].
        rewrite Hi, insert_insert_eq. f_equal.
        -- do 2 f_equal. rewrite list_filter_filter. apply filter_ext_elem. tauto.
        -- by rewrite filter_filter_false.
      * rewrite DeleteSessions_eq, Ht. by rewrite Hi.
    + rewrite DeleteSessions_eq, Ht. done.
Qed.

(** What a successful delete does to the sessions table. *)
Lemma delete_step k c name c' n :
  DeleteSessions k c name = (c', (n, None)) →
  ∃ t, c !! "sessions" = Some t
       ∧ c' !! "sessions"
         = Some (mkTable (columns t)
                   (filter (fun r => holds (columns t)
                                       (CEq (entity_column k) (VText name)) r = false)
                           (rows t)))
       ∧ n = length (filter (fun r => holds (columns t)
                                        (CEq (entity_column k) (VText name)) r = true)
                            (rows t))
       ∧ missing_column (columns t) [entity_column k] = None
       ∧ ∀ table, table ≠ "sessions" → c' !! table = c !! table.
Proof.
  intros (t & Ht & Hm & -> & ->)%DeleteSessions_inv%sql_delete_inv.
  exists t. split_and!; [done|by rewrite lookup_insert_eq|done..|].
  intros table Hne. by rewrite lookup_insert_ne.
Qed.

Lemma narrowed_refl c : narrowed c c.
Proof. split; [done|]. by destruct (c !! "sessions"). Qed.

Lemma narrowed_trans a b c : narrowed a b → narrowed b c → narrowed a c.
Proof.
  intros [Hab Hs] [Hbc Hs']. split.
  - intros table Hne. by rewrite Hbc, Hab.
  - destruct (a !! "sessions"), (b !! "sessions"), (c !! "sessions"); try done.
    destruct Hs as [E1 ?], Hs' as [E2 ?]. split; [by rewrite E2|]. by etrans.
Qed.

Lemma narrowed_delete k c name c' n :
  DeleteSessions k c name = (c', (n, None)) → narrowed c c'.
Proof.
  intros (t & Ht & Ht' & _ & _ & Hother)%delete_step. split; [done|].
  rewrite Ht, Ht'. split; [done|]. apply sublist_filter.
Qed.

Lemma sublist_filter_length {A} (P : A → Prop) `{!∀ x, Decision (P x)} (l k : list A) :
  l `sublist_of` k → (length (filter P l) <= length (filter P k))%nat.
Proof.
  induction 1 as [|x l k _ IH|x l k _ IH]; [done|..]; rewrite ?filter_cons;
    repeat case_decide; simpl; lia.
Qed.

Lemma sql_count_prepared db table c n :
  sql_count db table c = inr n →
  ∃ t, db !! table = Some t
       ∧ missing_column (columns t) (cond_columns c) = None
       ∧ n = length (filter (fun r => holds (columns t) c r = true) (rows t)).
Proof.
  unfold sql_count.
  destruct (prepare db table (cond_columns c)) as [|t] eqn:Hp; [done|].
  apply prepare_inv in Hp as [Ht Hm]. intros [= <-]. by exists t.
Qed.

Lemma narrowed_count k c ci name n :
  narrowed c ci → CountSessions k ci name = (n, None) →
  ∃ n', CountSessions k c name = (n', None) ∧ (n <= n')%nat.
Proof.
  intros [_ Hs]. rewrite !CountSessions_eq.
  destruct (sql_count ci "sessions" _) as [|m] eqn:Hc; [done|]. intros [= ->].
  apply sql_count_prepared in Hc as (ti & Hti & Hm & ->).
  rewrite Hti in Hs. destruct (c !! "sessions") as [t|] eqn:Ht; [|done].
  destruct Hs as [Hcols Hrows].
  rewrite Hcols in Hm |- *.
  rewrite (sql_count_intro c _ _ t) by done.
  eexists. split; [done|]. by apply sublist_filter_length.
Qed.

Lemma delete_names_dry k c names c' log err :
  delete_names true k c names = (c', log, err) →
  c' = c
  ∧ (err = None →
     log = map (fun name => WouldDelete k name (CountSessions k c name).1) names).
Proof.
  revert log. induction names as [|name names IH]; intros log; simpl.
  - by intros [= <- <- <-].
  - destruct (CountSessions k c name) as [count [e|]] eqn:Hcount.
    + by intros [= <- <- <-].
    + destruct (delete_names true k c names) as [[c1 log1] err1].
      intros [= <- <- <-]. destruct (IH log1 eq_refl) as [-> Hlog].
      split; [done|]. intros ->. by rewrite Hlog.
Qed.

Lemma delete_names_real k c names c' log :
  delete_names false k c names = (c', log, None) →
  narrowed c c'
  ∧ map event_target log = map (pair k) names
  ∧ ∀ b, GetRowCount c "sessions" = inr b →
         GetRowCount c' "sessions" = inr (b - reported_total log)%nat
         ∧ (reported_total log <= b)%nat.
Proof.
  revert c log. induction names as [|name names IH]; intros c log; simpl.
  - intros [= <- <-]. split_and!; [apply narrowed_refl|done|].
    intros b ->. simpl. split; [f_equal|]; lia.
  - destruct (DeleteSessions k c name) as [c1 [count [e|]]] eqn:Hdel; [done|].
    destruct (delete_names false k c1 names) as [[c2 log2] err2] eqn:Hrest.
    intros [= <- <- ->].
    destruct (IH _ _ Hrest) as (Hnarrow & Htargets & Hrows).
    split_and!.
    + eapply narrowed_trans; [|done]. by eapply narrowed_delete.
    + simpl. by rewrite Htargets.
    + intros b Hb.
      apply delete_step in Hdel as (t & Ht & Ht1 & -> & _ & _).
      rewrite GetRowCount_lookup, Ht in Hb. injection Hb as <-.
      destruct (Hrows (length (filter (fun r => holds (columns t)
                   (CEq (entity_column k) (VText name)) r = false) (rows t))))
        as [-> Hle].
      { by rewrite GetRowCount_lookup, Ht1. }
      pose proof (length_filter_split
                    (holds (columns t) (CEq (entity_column k) (VText name)))
                    (rows t)) as Hsplit.
      change (reported_total (?e :: ?l)) with (event_count e + reported_total l)%nat.
      cbn [event_count]. split; [f_equal|]; lia.
Qed.

Lemma delete_names_covered k c ci names c' rlog :
  narrowed c ci →
  delete_names false k ci names = (c', rlog, None) →
  ∃ dlog, delete_names true k c names = (c, dlog, None)
          ∧ Forall2 covers dlog rlog.
Proof.
  revert ci rlog. induction names as [|name names IH]; intros ci rlog Hnarrow; simpl.
  - intros [= <- <-]. by exists [].
  - destruct (DeleteSessions k ci name) as [c1 [count [e|]]] eqn:Hdel; [done|].
    destruct (delete_names false k c1 names) as [[c2 log2] err2] eqn:Hrest.
    intros [= <- <- ->].
    destruct (IH c1 log2) as (dlog & Hdry & Hcov); [|done|].
    { eapply narrowed_trans; [done|]. by eapply narrowed_delete. }
    assert (CountSessions k ci name = (count, None)) as Hcount.
    { apply delete_step in Hdel as (t & Ht & _ & -> & Hm & _).
      rewrite CountSessions_eq. by rewrite (sql_count_intro _ _ _ t). }
    destruct (narrowed_count _ _ _ _ _ Hnarrow Hcount) as (n' & -> & Hle).
    rewrite Hdry. eexists. split; [done|]. by constructor.
Qed.

Lemma covers_total dlog rlog :
  Forall2 covers dlog rlog → (reported_total rlog <= reported_total dlog)%nat.
Proof. induction 1 as [|d r dlog rlog [_ Hle] _ IH]; simpl; lia. Qed.

Lemma reported_total_app log1 log2 :
  reported_total (log1 ++ log2) = (reported_total log1 + reported_total log2)%nat.
Proof. induction log1 as [|e log1 IH]; simpl; lia. Qed.

(** X3. A real run of the two delete loops that ends without error
    prints one line for each loadpoint name and then for each vehicle
    name, in the order given, touches no table other than [sessions],
    and the counts it prints add up to the number of rows that the
    sessions table has lost. *)
Theorem delete_run_removes_what_it_reports (c c' : Database)
    (loadpoints vehicles : list string) (log : list delete_event) :
  delete_all false c loadpoints vehicles = (c', log, None) →
  map event_target log = map (pair Loadpoint) loadpoints ++ map (pair Vehicle) vehicles
  ∧ (∀ table, table ≠ "sessions" → c' !! table = c !! table)
  ∧ ∀ before, GetRowCount c "sessions" = inr before →
              GetRowCount c' "sessions" = inr (before - reported_total log)%nat
              ∧ (reported_total log <= before)%nat.
Proof.
  unfold delete_all.
  destruct (delete_names false Loadpoint c loadpoints) as [[c1 log1] [e|]] eqn:H1;
    [done|].
  destruct (delete_names false Vehicle c1 vehicles) as [[c2 log2] err2] eqn:H2.
  intros [= <- <- ->].
  apply delete_names_real in H1 as ([Hother1 _] & Ht1 & Hrows1).
  apply delete_names_real in H2 as ([Hother2 _] & Ht2 & Hrows2).
  split_and!.
  - by rewrite map_app, Ht1, Ht2.
  - intros table Hne. by rewrite Hother2, Hother1.
  - intros before Hb. destruct (Hrows1 _ Hb) as [Hb1 Hle1].
    destruct (Hrows2 _ Hb1) as [-> Hle2]. rewrite reported_total_app.
    split; [f_equal|]; lia.
Qed.

Lemma delete_run_removes_what_it_reports_witness :
  GetRowCount (delete_all false test_db ["Garage"] ["e-Golf"]).1.1 "sessions"
  = inr 2%nat.
Proof.
  destruct (delete_run_removes_what_it_reports test_db
              (delete_all false test_db ["Garage"] ["e-Golf"]).1.1
              ["Garage"] ["e-Golf"]
              [Deleted Loadpoint "Garage" 3; Deleted Vehicle "e-Golf" 0])
    as (_ & _ & Hrows).
  - vm_compute. reflexivity.
  - destruct (Hrows 5%nat) as [Hafter _]; [vm_compute; reflexivity|exact Hafter].
Defined.

(** X4. A dry run of the two delete loops leaves the database as it is.
    Whenever the real run succeeds the dry run succeeds, it prints for
    each name the count of the name on the database before, and each
    count is at least the count that the real run prints for that name
    (a session that two names match is counted for both by the dry
    run, and deleted once by the real run). *)
Theorem delete_dry_run_covers_real_run (c : Database)
    (loadpoints vehicles : list string) :
  (delete_all true c loadpoints vehicles).1.1 = c
  ∧ ∀ c' rlog,
      delete_all false c loadpoints vehicles = (c', rlog, None) →
      ∃ dlog, delete_all true c loadpoints vehicles = (c, dlog, None)
              ∧ dlog = map (fun name => WouldDelete Loadpoint name
                                          (CountSessions Loadpoint c name).1)
                           loadpoints
                       ++ map (fun name => WouldDelete Vehicle name
                                             (CountSessions Vehicle c name).1)
                              vehicles
              ∧ Forall2 covers dlog rlog
              ∧ (reported_total rlog <= reported_total dlog)%nat.
Proof.
  split.
  - unfold delete_all.
    destruct (delete_names true Loadpoint c loadpoints) as [[c1 log1] [e|]] eqn:H1.
    + by apply delete_names_dry in H1 as [-> _].
    + apply delete_names_dry in H1 as [-> _].
      destruct (delete_names true Vehicle c vehicles) as [[c2 log2] err2] eqn:H2.
      by apply delete_names_dry in H2 as [-> _].
  - intros c' rlog. unfold delete_all.
    destruct (delete_names false Loadpoint c loadpoints) as [[c1 log1] [e|]] eqn:H1;
      [done|].
    destruct (delete_names false Vehicle c1 vehicles) as [[c2 log2] err2] eqn:H2.
    intros [= <- <- ->].
    destruct (delete_names_covered Loadpoint c c loadpoints c1 log1)
      as (dlog1 & Hd1 & Hcov1); [apply narrowed_refl|done|].
    destruct (delete_names_covered Vehicle c c1 vehicles c2 log2)
      as (dlog2 & Hd2 & Hcov2); [by apply delete_names_real in H1 as [? _]|done|].
    rewrite Hd1, Hd2. exists (dlog1 ++ dlog2).
    apply delete_names_dry in Hd1 as [_ E1]. specialize (E1 eq_refl).
    apply delete_names_dry in Hd2 as [_ E2]. specialize (E2 eq_refl).
    split_and!; [done|by rewrite E1, E2| |].
    + by apply Forall2_app.
    + apply covers_total. by apply Forall2_app.
Qed.

Lemma delete_dry_run_covers_real_run_witness :
  (reported_total [Deleted Loadpoint "Garage" 3; Deleted Vehicle "e-Golf" 0]
   <= reported_total [WouldDelete Loadpoint "Garage" 3; WouldDelete Vehicle "e-Golf" 2])%nat.
Proof.
  destruct (proj2 (delete_dry_run_covers_real_run test_db ["Garage"] ["e-Golf"])
              (delete_all false test_db ["Garage"] ["e-Golf"]).1.1
              [Deleted Loadpoint "Garage" 3; Deleted Vehicle "e-Golf" 0])
    as (dlog & _ & -> & _ & Hle).
  - vm_compute. reflexivity.
  - exact Hle.
Defined.


(** ** Where the sessions of a renamed entity are counted *)

Lemma length_filter_cons {A} (P : A → bool) (x : A) (l : list A) :
  length (filter (fun x => P x = true) (x :: l))
  = ((if P x then 1 else 0) + length (filter (fun x => P x = true) l))%nat.
Proof. rewrite filter_cons. destruct (P x); by case_decide. Qed.

Section GuardedCount.
Variable i : nat.
Variable hit : string → Row → bool.
Variable guard : Row → bool.
Hypothesis hit_guard :
  ∀ x r, hit x r = guard r && sql_eq (cell r i) (VText x).
Hypothesis guard_set : ∀ v r, guard (set_cell i v r) = guard r.

Lemma hit_exclusive x y r : x ≠ y → hit x r = true → hit y r = false.
Proof.
  rewrite !hit_guard. intros Hne [-> Hc%sql_eq_text_inv]%andb_true_iff.
  rewrite Hc. simpl. by apply String.eqb_neq.
Qed.

Lemma hit_updated_iff x y z r :
  hit x r = true → hit z (set_cell i (VText y) r) = String.eqb y z.
Proof.
  intros Hx. rewrite hit_guard, guard_set.
  rewrite hit_guard in Hx. apply andb_true_iff in Hx as [-> Hc]. simpl.
  apply sql_eq_text_inv in Hc.
  by rewrite cell_set_cell by (by eapply cell_in_range).
Qed.

Lemma count_after_update x y z rs :
  x ≠ y →
  length (filter (fun r => hit z r = true)
                 (map (fun r => if hit x r then set_cell i (VText y) r else r) rs))
  = if decide (z = x) then O
    else if decide (z = y)
         then (length (filter (fun r => hit x r = true) rs)
               + length (filter (fun r => hit y r = true) rs))%nat
         else length (filter (fun r => hit z r = true) rs).
Proof.
  intros Hne. induction rs as [|r rs IH]; [by repeat case_decide|].
  rewrite map_cons, !length_filter_cons, IH. clear IH.
  destruct (hit x r) eqn:Hx.
  - rewrite (hit_updated_iff x y z r Hx), (hit_exclusive x y r Hne Hx).
    destruct (decide (z = x)) as [->|Hzx].
    + rewrite (proj2 (String.eqb_neq y x)) by done. done.
    + destruct (decide (z = y)) as [->|Hzy].
      * rewrite String.eqb_refl. simpl. lia.
      * rewrite (proj2 (String.eqb_neq y z)) by done.
        by rewrite (hit_exclusive x z r) by done.
  - destruct (decide (z = x)) as [->|Hzx]; [by rewrite Hx|].
    destruct (decide (z = y)) as [->|Hzy]; simpl; lia.
Qed.

End GuardedCount.

Lemma count_then_delete k c name n :
  CountSessions k c name = (n, None) → (DeleteSessions k c name).2 = (n, None).
Proof.
  rewrite CountSessions_eq.
  destruct (sql_count c "sessions" _) as [|m] eqn:Hc; [done|]. intros [= ->].
  apply sql_count_prepared in Hc as (t & Ht & Hm & ->).
  destruct k; simpl; unfold DeleteLoadpointSessions, DeleteVehicleSessions,
    sql_delete; by rewrite (prepare_intro _ _ _ t).
Qed.

Section RenamedSessions.
Context {codec : Codec}.

(** X5. After a successful rename of [oldName] to a different
    [newName] the sessions of [oldName] are counted under [newName],
    together with the sessions that [newName] had: the count of
    [oldName] is zero, the count of [newName] is the sum, which is also
    what a delete of [newName] removes, and the count of every other
    name is unchanged. *)
Theorem rename_merges_sessions (k : kind) (c c1 : Database)
    (oldName newName : string) (result : RenameResult) :
  oldName ≠ newName →
  Rename k c oldName newName = (c1, (result, None)) →
  ∃ a b,
    CountSessions k c oldName = (a, None)
    ∧ CountSessions k c newName = (b, None)
    ∧ Sessions result = a
    ∧ CountSessions k c1 oldName = (O, None)
    ∧ CountSessions k c1 newName = ((a + b)%nat, None)
    ∧ (DeleteSessions k c1 newName).2 = ((a + b)%nat, None)
    ∧ ∀ other, other ≠ oldName → other ≠ newName →
               CountSessions k c1 other = CountSessions k c other.
Proof.
  intros Hne (t & i & Ht & Hi & Ht1 & Hn & _)%Rename_sessions.
  assert (∀ name, missing_column (columns t)
                    (cond_columns (CEq (entity_column k) (VText name))) = None) as Hm.
  { intros name. simpl. by rewrite Hi. }
  pose (hit := fun x r => holds (columns t) (CEq (entity_column k) (VText x)) r).
  assert (∀ x r, hit x r = (fun _ => true) r && sql_eq (cell r i) (VText x))
    as Hhit by (intros x r; by apply holds_eq_cell).
  assert (∀ z, CountSessions k c z
               = (length (filter (fun r => hit z r = true) (rows t)), None)) as Hc.
  { intros z. by rewrite CountSessions_eq, (sql_count_intro _ _ _ t). }
  assert (∀ z, CountSessions k c1 z
               = (if decide (z = oldName) then O
                  else if decide (z = newName)
                       then (length (filter (fun r => hit oldName r = true) (rows t))
                             + length (filter (fun r => hit newName r = true) (rows t)))%nat
                       else length (filter (fun r => hit z r = true) (rows t)), None))
    as Hc1.
  { intros z. rewrite CountSessions_eq.
    erewrite sql_count_intro; [|exact Ht1|apply Hm]. cbn [columns rows].
    f_equal. by apply (count_after_update i hit (fun _ => true)). }
  eexists _, _. split_and!; [apply Hc|apply Hc|done|..].
  - rewrite Hc1. by rewrite decide_True.
  - rewrite Hc1. by rewrite decide_False, decide_True by done.
  - apply count_then_delete. rewrite Hc1.
    by rewrite decide_False, decide_True by done.
  - intros other H1 H2. by rewrite Hc1, Hc, !decide_False.
Qed.

End RenamedSessions.

Lemma rename_merges_sessions_witness :
  CountSessions Loadpoint
    (Rename (codec := flat_json) Loadpoint test_db "Garage" "eBikes").1 "eBikes"
  = (5%nat, None).
Proof.
  destruct (rename_merges_sessions (codec := flat_json) Loadpoint test_db
              (Rename (codec := flat_json) Loadpoint test_db "Garage" "eBikes").1
              "Garage" "eBikes" (mkResult 3 1 1))
    as (a & b & Ha & Hb & _ & _ & Hsum & _).
  - discriminate.
  - vm_compute. reflexivity.
  - vm_compute in Ha, Hb. injection Ha as <-. injection Hb as <-. exact Hsum.
Defined.

(** ** A rename that matches nothing *)

Lemma sql_update_no_hit db table column v c db' :
  sql_update db table column v c = inr (db', O) → db' = db.
Proof.
  intros (t & i & Ht & _ & _ & -> & Hlen)%sql_update_inv. symmetry in Hlen.
  pose proof (filter_length_zero _ _ Hlen) as Hnone.
  rewrite (update_without_hit i (fun _ : string => holds (columns t) c) "" v)
    by done.
  apply insert_id. rewrite Ht. by destruct t.
Qed.

Lemma rewrite_configs_unchanged {codec : Codec} tx oldTitle newTitle configs n tx' :
  rewrite_configs tx oldTitle newTitle configs n = (tx', n, None) → tx' = tx.
Proof.
  revert tx. induction configs as [|[id value] configs IH]; intros tx; simpl.
  - by intros [= <-].
  - destruct (rewrite_blob value oldTitle newTitle) as [[e|newValue]|]; [done| |].
    + destruct (sql_update tx "configs" "value" _ _) as [|[tx1 ?]]; [done|].
      intros H%rewrite_configs_count. lia.
    + apply IH.
Qed.

Section Unmatched.
Context {codec : Codec}.

(** X6. A successful rename that reports no session, no setting and no
    config leaves the database exactly as it was. *)
Theorem rename_without_match_changes_nothing (k : kind) (c c' : Database)
    (oldName newName : string) :
  Rename k c oldName newName = (c', (mkResult 0 0 0, None)) → c' = c.
Proof.
  assert (∀ tx class, renameInConfigsJSON tx class oldName newName = (c', O, None) →
                      c' = tx) as Hconfigs.
  { intros tx class. unfold renameInConfigsJSON.
    destruct (sql_select tx "configs" _ _) as [|rs]; [done|].
    destruct (scan_all scan_configRow rs) as [configs|]; [|done].
    apply rewrite_configs_unchanged. }
  destruct k; simpl.
  - intros (tx1 & tx2 & n1 & n2 & n3 & H1 & H2 & H3 & [= <- <- <-])
           %RenameLoadpoint_steps.
    apply sql_update_no_hit in H1 as ->. apply sql_update_no_hit in H2 as ->.
    by apply Hconfigs in H3.
  - intros (tx1 & tx2 & n1 & n2 & n3 & H1 & H2 & H3 & [= <- <- <-])
           %RenameVehicle_steps.
    apply sql_update_no_hit in H1 as ->.
    apply Hconfigs in H3 as ->. revert H2. unfold renameSettingsKeys.
    destruct (sql_select c "settings" _ _) as [|rs]; [done|].
    destruct (scan_all scan_keyValue rs) as [[|kv kvs]|]; [|..|done].
    + simpl. by intros [= <-].
    + by destruct (migrate_keys c _ _ (kv :: kvs)).
Qed.

End Unmatched.

Lemma rename_without_match_changes_nothing_witness :
  (Rename (codec := flat_json) Loadpoint test_db "Nowhere" "Carport").1 = test_db.
Proof.
  apply (rename_without_match_changes_nothing (codec := flat_json) Loadpoint
           test_db _ "Nowhere" "Carport").
  vm_compute. reflexivity.
Defined.

(** ** A rename of a name to itself *)

Lemma fold_self name kvs R :
  (∀ kv, kv ∈ kvs → migrated_key name name kv.1 = kv.1) →
  fold_left (migrate_step name name) kvs R
  = filter (fun r => not_among (map fst kvs) r = true) R.
Proof.
  revert R. induction kvs as [|[k v] kvs IH]; intros R Hself; simpl.
  - by rewrite filter_all.
  - rewrite IH by (intros kv Hkv; apply Hself; by right).
    pose proof (Hself (k, v) ltac:(by left)) as Hk. cbn [fst] in Hk.
    unfold migrate_step. cbn [fst snd]. rewrite Hk. rewrite filter_app, filter_cons_False, filter_nil, app_nil_r;
      cycle 1.
    { rewrite has_key_setting, String.eqb_refl. done. }
    rewrite !list_filter_filter. apply list_filter_iff. intros r.
    rewrite andb_true_iff, negb_true_iff. tauto.
Qed.

Lemma update_same_text cols column i name rs :
  col_index cols column = Some i →
  map (fun r => if holds cols (CEq column (VText name)) r
                then set_cell i (VText name) r else r) rs = rs.
Proof.
  intros Hi. rewrite <- (map_id rs) at 2. apply map_ext. intros r.
  simpl. rewrite Hi. destruct (sql_eq (cell r i) (VText name)) eqn:Hc; [|done].
  by apply set_cell_same, sql_eq_text_inv.
Qed.

Section SelfRename.
Context {codec : Codec}.

(** X7. A successful rename of a name to itself leaves every table other
    than [settings] and [configs] as it was.  For a loadpoint the
    settings are unchanged as well.  For a vehicle, on the application's
    settings table whose selected keys start with the prefix letter for
    letter, the settings of the vehicle are removed: each key is stored
    again under its own name and then deleted. *)
Theorem rename_to_itself (k : kind) (c c' : Database) (name : string)
    (result : RenameResult) :
  Rename k c name name = (c', (result, None)) →
  (∀ table, table ≠ "settings" → table ≠ "configs" → c' !! table = c !! table)
  ∧ (k = Loadpoint → c' !! "settings" = c !! "settings")
  ∧ (k = Vehicle →
     ∀ t, c !! "settings" = Some t → settings_table t = true →
          literal_selection name t = true →
          c' !! "settings"
          = Some (mkTable (columns t)
                    (filter (fun r => selected name r = false) (rows t)))
          ∧ Settings result
            = length (filter (fun r => selected name r = true) (rows t))).
Proof.
  intros Hrun. split_and!.
  - intros table H1 H2.
    apply Rename_sessions in Hrun as (t & i & Ht & Hi & Ht' & _ & Hother).
    destruct (decide (table = "sessions")) as [->|H3]; [|by apply Hother].
    rewrite Ht', Ht, update_same_text by done. by destruct t.
  - intros ->. simpl in Hrun.
    apply RenameLoadpoint_settings in Hrun
      as (t & ik & iv & Ht & Hik & Hiv & Ht' & _).
    rewrite Ht', Ht. f_equal. destruct t as [cols rs]. cbn [columns rows] in *.
    f_equal. rewrite <- (map_id rs) at 2. apply map_ext. intros r.
    rewrite (holds_title_setting cols ik iv) by done.
    destruct (sql_like _ _); [|done]. simpl.
    destruct (sql_eq (cell r iv) (VText name)) eqn:Hc; [|done].
    by apply set_cell_same, sql_eq_text_inv.
  - intros -> t Ht Hok Hlit. simpl in Hrun.
    pose proof (settings_table_inv t Hok) as [_ Htyped].
    destruct (RenameVehicle_settings _ _ _ _ _ t Hrun Ht Hok) as [-> ->].
    split; [|by rewrite selected_kvs_length].
    do 2 f_equal. rewrite fold_self.
    + apply filter_ext_elem. intros r Hr.
      rewrite selected_kvs_keys, not_among_elem by by apply Htyped.
      rewrite elem_of_selected_keys by done.
      rewrite selected_key_text by by apply Htyped.
      split.
      * intros Hn. apply not_true_is_false. intros Hl. apply Hn. split; [done|].
        apply list_elem_of_In, in_map. by apply list_elem_of_In.
      * intros Hl [Hl' _]. by rewrite Hl in Hl'.
    + intros kv Hkv. unfold literal_selection in Hlit.
      rewrite forallb_forall in Hlit.
      assert (HasPrefix kv.1 (vehicle_prefix name) = true) as [suffix ->]%HasPrefix_iff.
      { apply Hlit. rewrite <- selected_kvs_keys.
        by apply in_map, list_elem_of_In. }
      apply migrated_key_prefix.
Qed.

End SelfRename.

Lemma rename_to_itself_witness :
  (Rename (codec := flat_json) Vehicle test_db "e-Golf" "e-Golf").1 !! "settings"
  = Some (mkTable settings_columns
            [setting "lp1.title" "Garage"; setting "lp1.mode" "pv";
             setting "lp2.title" "eBikes"]).
Proof.
  destruct (rename_to_itself (codec := flat_json) Vehicle test_db
              (Rename (codec := flat_json) Vehicle test_db "e-Golf" "e-Golf").1
              "e-Golf" (mkResult 2 3 1))
    as (_ & _ & Hsettings).
  - vm_compute. reflexivity.
  - destruct (Hsettings eq_refl test_settings) as [Hrows _];
      [vm_compute; reflexivity..|].
    rewrite Hrows. vm_compute. reflexivity.
Defined.

(** ** The configs table under a rename *)

Lemma scan_all_elem {A} (scan : Row → option A) rs l x :
  scan_all scan rs = Some l → x ∈ l → ∃ r, r ∈ rs ∧ scan r = Some x.
Proof.
  revert l. induction rs as [|r rs IH]; intros l; simpl.
  - intros [= <-] Hx. by apply elem_of_nil in Hx.
  - destruct (scan r) as [a|] eqn:Hr; [|done].
    destruct (scan_all scan rs) as [l'|]; [|done]. simpl.
    intros [= <-] [->|Hx]%elem_of_cons.
    + exists r. split; [by left|done].
    + destruct (IH l' eq_refl Hx) as (r' & Hr' & Hs). exists r'. split; [by right|done].
Qed.

(** The rows after the rewrite loop: each is the row before, or the row
    before with another text in the value cell and the id of one of the
    blobs rewritten. *)
Lemma rewrite_configs_rows {codec : Codec} iid iv oldTitle newTitle configs :
  iid ≠ iv →
  ∀ tx n tx' n' t,
    rewrite_configs tx oldTitle newTitle configs n = (tx', n', None) →
    tx !! "configs" = Some t →
    col_index (columns t) "id" = Some iid →
    col_index (columns t) "value" = Some iv →
    ∃ rs', tx' !! "configs" = Some (mkTable (columns t) rs')
           ∧ Forall2 (fun row row' =>
                        row' = row
                        ∨ ∃ v id, row' = set_cell iv (VText v) row
                                  ∧ id ∈ map fst configs
                                  ∧ cell row iid = VInt id)
                     (rows t) rs'.
Proof.
  intros Hne. induction configs as [|[id value] configs IH];
    intros tx n tx' n' t; simpl.
  - intros [= <- _] Ht _ _. exists (rows t). split; [by destruct t|].
    apply Forall2_same_length_lookup_2; [done|]. intros j x y Hx Hy. left. congruence.
  - intros Hrun Ht Hid Hv.
    destruct (rewrite_blob value oldTitle newTitle) as [[e|newValue]|]; [done| |].
    + destruct (sql_update tx "configs" "value" _ _) as [|[tx1 m]] eqn:Hup; [done|].
      apply sql_update_inv in Hup as (t0 & i & Ht0 & _ & Hi & -> & _).
      rewrite Ht in Ht0. injection Ht0 as <-. rewrite Hv in Hi. injection Hi as <-.
      destruct (IH _ _ _ _ _ Hrun (lookup_insert_eq _ _ _) Hid Hv)
        as (rs' & Ht' & Hrows).
      cbn [columns rows] in *. exists rs'. split; [done|].
      apply Forall2_fmap_l in Hrows.
      eapply Forall2_impl; [exact Hrows|]. intros row row' Hrow.
      unfold compose in Hrow. simpl holds in Hrow. rewrite Hid in Hrow.
      cbn beta in Hrow.
      destruct (sql_eq (cell row iid) (VInt id)) eqn:Hhit.
      * assert (cell row iid = VInt id) as Hcell.
        { destruct (cell row iid) as [|m'|]; try done. simpl in Hhit.
          by apply Z.eqb_eq in Hhit as ->. }
        right. destruct Hrow as [->|(v & id' & -> & _ & _)].
        -- exists newValue, id. split_and!; [done|by left|done].
        -- exists v, id. rewrite set_cell_twice. split_and!; [done|by left|done].
      * destruct Hrow as [->|(v & id' & -> & Hin & Hcell)]; [by left|].
        right. exists v, id'. split_and!; [done|by right|done].
    + destruct (IH _ _ _ _ _ Hrun Ht Hid Hv) as (rs' & Ht' & Hrows).
      exists rs'. split; [done|].
      eapply Forall2_impl; [exact Hrows|]. intros row row' [->|(v & id' & -> & Hin & Hcell)];
        [by left|].
      right. exists v, id'. split_and!; [done|by right|done].
Qed.

Lemma NoDup_map_inj_on {A B} (f : A → B) (l : list A) x y :
  NoDup (map f l) → x ∈ l → y ∈ l → f x = f y → x = y.
Proof.
  induction l as [|a l IH]; simpl; [by intros _ ?%elem_of_nil|].
  intros [Ha Hl]%NoDup_cons [->|Hx]%elem_of_cons [->|Hy]%elem_of_cons Heq.
  - done.
  - exfalso. apply Ha. rewrite Heq. by apply list_elem_of_In, in_map, list_elem_of_In.
  - exfalso. apply Ha. rewrite <- Heq. by apply list_elem_of_In, in_map, list_elem_of_In.
  - by apply IH.
Qed.

Section ConfigRows.
Context {codec : Codec}.

(** The step of a successful rename that rewrites the configs. *)
Lemma Rename_configs_step (k : kind) c oldName newName c' result :
  Rename k c oldName newName = (c', (result, None)) →
  ∃ tx n, tx !! "configs" = c !! "configs"
          ∧ renameInConfigsJSON tx (class_of k) oldName newName = (c', n, None).
Proof.
  destruct k; simpl.
  - intros (tx1 & tx2 & n1 & n2 & n3 & H1 & H2 & H3 & _)%RenameLoadpoint_steps.
    exists tx2, n3. split; [|done].
    rewrite (sql_update_other _ _ _ _ _ _ _ "configs" H2) by done.
    by rewrite (sql_update_other _ _ _ _ _ _ _ "configs" H1).
  - intros (tx1 & tx2 & n1 & n2 & n3 & H1 & H2 & H3 & _)%RenameVehicle_steps.
    exists tx2, n3. split; [|done].
    rewrite (renameSettingsKeys_other _ _ _ _ _ "configs" H2) by done.
    by rewrite (sql_update_other _ _ _ _ _ _ _ "configs" H1).
Qed.

(** X8. A successful rename keeps the columns of the configs table and
    its rows in their order; a row afterwards is the row before, or the
    row before with another text in the column [value] (no other
    column, the column [title] included, is written).  When no two rows
    have the same id, a row that is changed is of the class of the
    renamed entity. *)
Theorem rename_rewrites_only_config_values (k : kind) (c c' : Database)
    (oldName newName : string) (result : RenameResult) (t : Table) :
  Rename k c oldName newName = (c', (result, None)) →
  c !! "configs" = Some t →
  ∃ t' iid icls iv,
    col_index (columns t) "id" = Some iid
    ∧ col_index (columns t) "class" = Some icls
    ∧ col_index (columns t) "value" = Some iv
    ∧ c' !! "configs" = Some t'
    ∧ columns t' = columns t
    ∧ Forall2 (same_but_text iv) (rows t) (rows t')
    ∧ (NoDup (map (fun r => cell r iid) (rows t)) →
       Forall2 (fun row row' => row' = row ∨ cell row icls = VInt (class_of k))
               (rows t) (rows t')).
Proof.
  intros (tx & n & Htx & Hrun)%Rename_configs_step Ht. rewrite Ht in Htx.
  unfold renameInConfigsJSON in Hrun.
  destruct (sql_select tx "configs" _ _) as [|rs] eqn:Hsel; [done|].
  destruct (scan_all scan_configRow rs) as [configs|] eqn:Hscan; [|done].
  apply sql_select_inv in Hsel as (t0 & Ht0 & Hm & ->).
  rewrite Htx in Ht0. injection Ht0 as <-.
  destruct (missing_column_elem _ _ "id" Hm) as [iid Hid]; [set_solver|].
  destruct (missing_column_elem _ _ "value" Hm) as [iv Hv]; [set_solver|].
  destruct (missing_column_elem _ _ "class" Hm) as [icls Hcls]; [set_solver|].
  assert (iid ≠ iv) as Hne by (by eapply (col_index_ne (columns t) "id" "value")).
  destruct (rewrite_configs_rows iid iv oldName newName configs Hne
              _ _ _ _ t Hrun Htx Hid Hv) as (rs' & Ht' & Hrows).
  exists (mkTable (columns t) rs'), iid, icls, iv.
  split_and!; [done..| |].
  - cbn [rows]. eapply Forall2_impl; [exact Hrows|].
    intros row row' [->|(v & id & -> & _)]; [by left|]. right. by exists v.
  - intros Hnodup. cbn [rows].
    apply Forall2_same_length_lookup_2; [by eapply Forall2_length|].
    intros j row row' Hrow Hrow'.
    destruct (Forall2_lookup_lr _ _ _ _ _ _ Hrows Hrow Hrow')
      as [->|(v & id & -> & Hin & Hcell)]; [by left|]. right.
    apply list_elem_of_In, in_map_iff in Hin as ([id' value] & [= ->] & Hin).
    apply list_elem_of_In in Hin.
    destruct (scan_all_elem _ _ _ _ Hscan Hin) as (p & Hp & Hscanned).
    apply list_elem_of_In, in_map_iff in Hp
      as (r0 & <- & [Hhit Hr0]%list_elem_of_In%list_elem_of_filter).
    unfold scan_configRow, project in Hscanned. cbn [map cell nth] in Hscanned.
    rewrite Hid in Hscanned.
    destruct (cell r0 iid) as [|m|] eqn:Hcell0; try done. simpl in Hscanned.
    destruct (match col_index (columns t) "value" with
              | Some i => cell r0 i | None => VNull end); try done;
      simpl in Hscanned; injection Hscanned as -> _.
    all: assert (row = r0) as ->
        by (apply (NoDup_map_inj_on (fun r => cell r iid) (rows t));
            [done|by eapply list_elem_of_lookup_2|done|congruence]).
    all: simpl in Hhit; rewrite Hcls in Hhit.
    all: destruct (cell r0 icls) as [|m'|]; try done; simpl in Hhit.
    all: by apply Z.eqb_eq in Hhit as ->.
Qed.

End ConfigRows.

Lemma rename_rewrites_only_config_values_witness :
  ∃ t', (Rename (codec := flat_json) Loadpoint test_db "Garage" "Carport").1
        !! "configs" = Some t'
        ∧ columns t' = configs_columns.
Proof.
  destruct (rename_rewrites_only_config_values (codec := flat_json) Loadpoint test_db
              (Rename (codec := flat_json) Loadpoint test_db "Garage" "Carport").1
              "Garage" "Carport" (mkResult 3 1 1)
              (mkTable configs_columns
                 [config 1 5 (dq "{'title':'Garage','charger':'db:1'}");
                  config 2 3 (dq "{'title':'e-Golf','type':'vw'}")]))
    as (t' & iid & icls & iv & _ & _ & _ & Ht' & Hcols & _).
  - vm_compute. reflexivity.
  - vm_compute. reflexivity.
  - exists t'. split; [exact Ht'|exact Hcols].
Defined.

(** ** What the row copier stores *)

Lemma name_index_Some names n j :
  name_index names n = Some j → names !! j = Some n.
Proof.
  revert j. induction names as [|m names IH]; intros j; simpl; [done|].
  destruct (String.eqb_spec m n) as [->|Hne].
  - by intros [= <-].
  - destruct (name_index names n) as [j'|]; [|done]. intros [= <-]. by apply IH.
Qed.

Lemma name_index_None names n : name_index names n = None ↔ n ∉ names.
Proof.
  induction names as [|m names IH]; simpl.
  - split; [|done]. intros _ H. by apply elem_of_nil in H.
  - destruct (String.eqb_spec m n) as [->|Hne].
    + split; [done|]. intros H. exfalso. apply H. by left.
    + destruct (name_index names n) as [j'|]; simpl.
      * split; [done|]. intros H. exfalso.
        assert (n ∉ names) as H' by (intros ?; apply H; by right).
        by apply IH in H'.
      * split; [|done]. intros _ [->|H]%elem_of_cons; [done|].
        by apply (proj1 IH).
Qed.

Lemma col_index_None cols n : col_index cols n = None ↔ n ∉ map Name cols.
Proof.
  induction cols as [|c cols IH]; simpl.
  - split; [|done]. intros _ H. by apply elem_of_nil in H.
  - destruct (String.eqb_spec (Name c) n) as [<-|Hne].
    + split; [done|]. intros H. exfalso. apply H. by left.
    + destruct (col_index cols n) as [j'|]; simpl.
      * split; [done|]. intros H. exfalso.
        assert (n ∉ map Name cols) as H' by (intros ?; apply H; by right).
        by apply IH in H'.
      * split; [|done]. intros _ [->|H]%elem_of_cons; [done|].
        by apply (proj1 IH).
Qed.

Lemma elem_of_intersect_names scols dcols n :
  n ∈ map Name (intersectColumns scols dcols)
  ↔ n ∈ map Name scols ∧ n ∈ map Name dcols.
Proof.
  unfold intersectColumns. split.
  - intros (c & <- & [Hd Hc]%list_elem_of_In%list_elem_of_filter)
           %list_elem_of_In%in_map_iff.
    split; [|done]. by apply list_elem_of_In, in_map, list_elem_of_In.
  - intros [(c & <- & Hc)%list_elem_of_In%in_map_iff Hd].
    apply list_elem_of_In, in_map, list_elem_of_In, list_elem_of_filter.
    split; [done|by apply list_elem_of_In].
Qed.

Lemma inserted_row_carried scols dcols r :
  inserted_row dcols (map Name (intersectColumns scols dcols))
               (project scols (map Name (intersectColumns scols dcols)) r)
  = carried scols dcols r.
Proof.
  unfold inserted_row, carried. apply map_ext_in. intros c Hc%list_elem_of_In.
  unfold inserted_cell, carried_cell.
  set (names := map Name (intersectColumns scols dcols)).
  destruct (name_index names (Name c)) as [j|] eqn:Hj.
  - apply name_index_Some in Hj.
    unfold project. rewrite (nth_lookup_Some _ _ VNull
      (match col_index scols (Name c) with Some i => cell r i | None => VNull end));
      [|by rewrite list_lookup_fmap, Hj].
    apply list_elem_of_lookup_2, elem_of_intersect_names in Hj as [Hs _].
    destruct (col_index scols (Name c)) as [i|] eqn:Hi; [done|].
    by apply col_index_None in Hi.
  - apply name_index_None in Hj.
    destruct (col_index scols (Name c)) as [i|] eqn:Hi; [|done].
    exfalso. apply Hj, elem_of_intersect_names. split.
    + apply dec_stable. intros Hn%col_index_None. congruence.
    + by apply list_elem_of_In, in_map, list_elem_of_In.
Qed.

Lemma rows_to_insert_carried src dst table s d :
  src !! table = Some s → dst !! table = Some d →
  rows_to_insert src dst table = map (carried (columns s) (columns d)) (rows s).
Proof.
  intros Hs Hd. unfold rows_to_insert. rewrite Hs, Hd.
  apply map_ext. intros r. apply inserted_row_carried.
Qed.

Lemma sql_insert_inv db table names vals db' :
  sql_insert_or_replace db table names vals = inr db' →
  ∃ t, db !! table = Some t
       ∧ db' = <[table := mkTable (columns t)
                   (upsert (columns t) (rows t)
                           (inserted_row (columns t) names vals))]> db.
Proof.
  unfold sql_insert_or_replace.
  destruct (prepare db table names) as [|t] eqn:Hp; [done|].
  apply prepare_inv in Hp as [Ht _].
  destruct (null_violation _ _); [done|]. intros [= <-]. by exists t.
Qed.

Lemma copy_rows_fold table colNames srcRows :
  ∀ tx dcols R n tx' copied,
    tx !! table = Some (mkTable dcols R) →
    copy_rows tx table colNames srcRows n = (tx', copied, None) →
    tx' !! table
    = Some (mkTable dcols
              (fold_left (upsert dcols) (map (inserted_row dcols colNames) srcRows) R))
    ∧ ∀ table', table' ≠ table → tx' !! table' = tx !! table'.
Proof.
  induction srcRows as [|values srcRows IH]; intros tx dcols R n tx' copied Ht; simpl.
  - by intros [= <- _].
  - destruct (sql_insert_or_replace tx table colNames values) as [|tx1] eqn:Hins;
      [done|].
    apply sql_insert_inv in Hins as (t & Ht0 & ->).
    rewrite Ht in Ht0. injection Ht0 as <-. cbn [columns rows].
    intros Hrest.
    destruct (IH _ _ _ _ _ _ (lookup_insert_eq _ _ _) Hrest) as [Ht' Hother].
    split; [done|]. intros table' Hne. rewrite Hother by done.
    by rewrite lookup_insert_ne.
Qed.

(** The destination table after a successful copy. *)
Lemma copyTableWithTx_table tx src dst table tx' n warnings d0 d :
  copyTableWithTx tx src dst table = (tx', n, None, warnings) →
  dst !! table = Some d0 → tx !! table = Some d → columns d = columns d0 →
  ∃ s, src !! table = Some s
       ∧ tx' !! table
         = Some (mkTable (columns d)
                   (fold_left (upsert (columns d))
                              (map (carried (columns s) (columns d)) (rows s))
                              (rows d)))
       ∧ ∀ table', table' ≠ table → tx' !! table' = tx !! table'.
Proof.
  unfold copyTableWithTx. intros Hrun Hd0 Hd Hcols.
  destruct (intersectColumns _ _) as [|col commonCols] eqn:Hcommon; [done|].
  rewrite GetRowCount_lookup in Hrun. unfold GetTableColumns in Hcommon.
  rewrite Hd0 in Hcommon.
  destruct (src !! table) as [s|] eqn:Hs; [|done]. exists s. split; [done|].
  destruct (length (rows s)) as [|m] eqn:Hlen.
  { injection Hrun as <- _ _. apply nil_length_inv in Hlen. rewrite Hlen. simpl.
    split; [|done]. rewrite Hd. by destruct d. }
  unfold sql_select, prepare in Hrun. rewrite Hs, app_nil_r in Hrun.
  destruct (missing_column (columns s) _); [done|].
  simpl holds in Hrun. rewrite filter_all in Hrun by done.
  destruct (copy_rows tx table _ _ 0) as [[tx1 copied1] err] eqn:Hcopy.
  injection Hrun as <- _ -> _.
  destruct d as [dcols R]. cbn [columns rows] in *.
  destruct (copy_rows_fold _ _ _ _ _ _ _ _ _ Hd Hcopy) as [Ht' Hother].
  split; [|done]. rewrite Ht'. do 3 f_equal.
  rewrite map_map. apply map_ext. intros r. rewrite <- Hcommon, Hcols.
  apply inserted_row_carried.
Qed.

Lemma pk_conflict_sym cols r r' : pk_conflict cols r r' = pk_conflict cols r' r.
Proof.
  unfold pk_conflict.
  destruct (decide (key_of cols r' = key_of cols r)) as [Heq|Hne].
  - rewrite Heq. destruct (key_of cols r); [done|]. by rewrite !bool_decide_eq_true_2.
  - rewrite (bool_decide_eq_false_2 (key_of cols r' = key_of cols r)) by done.
    rewrite (bool_decide_eq_false_2 (key_of cols r = key_of cols r')) by done.
    rewrite !andb_false_r. by destruct (key_of cols r), (key_of cols r').
Qed.

(** No two rows of the list collide. *)
Lemma collision_free_pairwise cols l l1 x l2 y :
  collision_free cols l = true → l = l1 ++ x :: l2 → y ∈ l1 ++ l2 →
  pk_conflict cols x y = false.
Proof.
  revert l1. induction l as [|a l IH]; intros l1 Hfree Hl Hy.
  - by destruct l1.
  - simpl in Hfree. apply andb_true_iff in Hfree as [Hall Hfree].
    rewrite forallb_forall in Hall.
    destruct l1 as [|b l1]; simpl in Hl; injection Hl as -> ->.
    + simpl in Hy. rewrite pk_conflict_sym.
      apply negb_true_iff, Hall. by apply list_elem_of_In.
    + simpl in Hy. apply elem_of_cons in Hy as [->|Hy].
      * apply negb_true_iff, Hall, in_or_app. right. by left.
      * by eapply IH.
Qed.

Lemma upsert_app cols R J r :
  upsert cols (R ++ J) r
  = filter (fun r' => pk_conflict cols r r' = false) R
    ++ filter (fun r' => pk_conflict cols r r' = false) J ++ [r].
Proof. unfold upsert. by rewrite filter_app, <- app_assoc. Qed.

(** Rows that collide with no row inserted stay; the colliding ones go. *)
Lemma fold_upsert_fresh cols I :
  ∀ R J,
    collision_free cols (J ++ I) = true →
    fold_left (upsert cols) I (R ++ J)
    = filter (fun x => forallb (fun r => negb (pk_conflict cols r x)) I = true) R
      ++ J ++ I.
Proof.
  induction I as [|r I IH]; intros R J Hfree; simpl.
  - rewrite app_nil_r. by rewrite filter_all.
  - rewrite upsert_app.
    rewrite (filter_all _ J); cycle 1.
    { intros y Hy. eapply collision_free_pairwise; [exact Hfree|done|].
      apply elem_of_app. by left. }
    rewrite (cons_middle r J I), app_assoc in Hfree.
    rewrite (IH _ (J ++ [r]) Hfree), <- app_assoc. simpl. f_equal.
    rewrite list_filter_filter. apply list_filter_iff. intros x.
    rewrite andb_true_iff, negb_true_iff. tauto.
Qed.

(** Inserting again rows that are in the table and have a key puts each
    of them back at the end. *)
Lemma fold_upsert_again cols K I2 :
  ∀ I1,
    collision_free cols (I1 ++ I2) = true →
    (∀ r, r ∈ I2 → keyed cols r = true) →
    (∀ r x, r ∈ I2 → x ∈ K → pk_conflict cols r x = false) →
    fold_left (upsert cols) I2 (K ++ I2 ++ I1) = K ++ I1 ++ I2.
Proof.
  induction I2 as [|r I2 IH]; intros I1 Hfree Hkeyed Hfresh; simpl.
  - by rewrite app_nil_r.
  - rewrite upsert_app, filter_cons_False, filter_app; cycle 1.
    { unfold keyed in Hkeyed. rewrite (Hkeyed r) by by left. done. }
    rewrite (filter_all _ K), (filter_all _ I2), (filter_all _ I1); cycle 1.
    { intros y Hy. eapply collision_free_pairwise; [exact Hfree|done|].
      apply elem_of_app. by left. }
    { intros y Hy. eapply collision_free_pairwise; [exact Hfree|done|].
      apply elem_of_app. by right. }
    { intros y Hy. apply Hfresh; [by left|done]. }
    rewrite (cons_middle r I1 I2), app_assoc in Hfree.
    rewrite <- (app_assoc I2 I1 [r]), (cons_middle r I1 I2), (app_assoc I1 [r] I2).
    apply (IH (I1 ++ [r]) Hfree).
    + intros r' Hr'. apply Hkeyed. by right.
    + intros r' x Hr'. apply Hfresh. by right.
Qed.

Lemma fold_upsert_twice cols I R :
  collision_free cols I = true →
  (∀ r, r ∈ I → keyed cols r = true) →
  fold_left (upsert cols) I (fold_left (upsert cols) I R)
  = fold_left (upsert cols) I R.
Proof.
  intros Hfree Hkeyed.
  rewrite <- (app_nil_r R), (fold_upsert_fresh cols I R []) by done. simpl.
  pose proof (fold_upsert_again cols
                (filter (fun x => forallb (fun r => negb (pk_conflict cols r x)) I
                                  = true) R) I []) as Hagain.
  rewrite app_nil_r in Hagain. apply Hagain; [done..|].
  intros r x Hr [Hx _]%list_elem_of_filter.
  rewrite forallb_forall in Hx. apply negb_true_iff, Hx. by apply list_elem_of_In.
Qed.




(** What makes the insert loop succeed. *)
Lemma copy_rows_inv table colNames srcRows :
  ∀ tx dcols R n tx' copied,
    tx !! table = Some (mkTable dcols R) →
    copy_rows tx table colNames srcRows n = (tx', copied, None) →
    copied = (n + length srcRows)%nat
    ∧ (srcRows ≠ [] → missing_column dcols colNames = None)
    ∧ ∀ values, values ∈ srcRows →
                null_violation dcols (inserted_row dcols colNames values) = None.
Proof.
  induction srcRows as [|values srcRows IH]; intros tx dcols R n tx' copied Ht; simpl.
  - intros [= _ <-]. split_and!; [lia|done|]. by intros ? ?%elem_of_nil.
  - unfold sql_insert_or_replace, prepare. rewrite Ht. cbn [columns rows].
    destruct (missing_column dcols colNames) eqn:Hm; [done|]. cbn [columns rows].
    destruct (null_violation dcols (inserted_row dcols colNames values)) eqn:Hnull;
      [done|].
    intros Hrest.
    destruct (IH _ _ _ _ _ _ (lookup_insert_eq _ _ _) Hrest) as (-> & _ & Hall).
    split_and!; [lia|done|].
    intros v [->|Hv]%elem_of_cons; [done|by apply Hall].
Qed.

Lemma copy_rows_succeeds table colNames srcRows :
  ∀ tx dcols R n,
    tx !! table = Some (mkTable dcols R) →
    missing_column dcols colNames = None →
    (∀ values, values ∈ srcRows →
               null_violation dcols (inserted_row dcols colNames values) = None) →
    ∃ tx', copy_rows tx table colNames srcRows n
           = (tx', (n + length srcRows)%nat, None).
Proof.
  induction srcRows as [|values srcRows IH]; intros tx dcols R n Ht Hm Hall; simpl.
  - exists tx. do 2 f_equal. lia.
  - unfold sql_insert_or_replace, prepare. rewrite Ht. cbn [columns rows].
    rewrite Hm. cbn [columns rows]. rewrite (Hall values) by by left.
    match goal with
    | |- ∃ tx', copy_rows ?tx1 _ _ _ _ = _ =>
        destruct (IH tx1 dcols _ (S n) (lookup_insert_eq _ _ _) Hm) as [tx' ->]
    end.
    { intros v Hv. apply Hall. by right. }
    exists tx'. do 2 f_equal. lia.
Qed.





(** X11. When the rows stored for the source have a primary key without
    NULL and no two of them collide, a second copy of the same table
    into the result of a successful first one succeeds, reports the same
    count, and leaves every table as the first copy left it. *)
Theorem copy_again_changes_nothing (tx src dst : Database) (table : string)
    (tx1 : Database) (copied : nat) (warnings : list event) (d0 d : Table) :
  copyTableWithTx tx src dst table = (tx1, copied, None, warnings) →
  dst !! table = Some d0 → tx !! table = Some d → columns d = columns d0 →
  collision_free (columns d0) (rows_to_insert src dst table) = true →
  forallb (keyed (columns d0)) (rows_to_insert src dst table) = true →
  copyTableWithTx tx1 src dst table = (tx1, copied, None, warnings).
Proof.
  intros Hrun Hd0 Hd Hcols Hfree Hkeyed.
  destruct (copyTableWithTx_table _ _ _ _ _ _ _ _ _ Hrun Hd0 Hd Hcols)
    as (s & Hs & Ht1 & Hother).
  rewrite (rows_to_insert_carried _ _ _ _ _ Hs Hd0), <- Hcols in Hfree, Hkeyed.
  rewrite forallb_forall in Hkeyed.
  revert Hrun. unfold copyTableWithTx.
  destruct (intersectColumns _ _) as [|col commonCols] eqn:Hcommon; [done|].
  rewrite GetRowCount_lookup, Hs.
  destruct (length (rows s)) as [|m] eqn:Hlen; [by intros [= <- <- <-]|].
  unfold sql_select, prepare. rewrite Hs, app_nil_r.
  destruct (missing_column (columns s) _); [done|].
  simpl holds. rewrite filter_all by done.
  destruct (copy_rows tx table _ _ 0) as [[tx0 copied0] err] eqn:Hcopy.
  intros [= <- <- -> <-].
  destruct d as [dcols R]. cbn [columns rows] in *.
  destruct (copy_rows_inv _ _ _ _ _ _ _ _ _ Hd Hcopy) as (-> & Hm & Hall).
  edestruct (copy_rows_succeeds table (map Name (col :: commonCols))
               (map (project (columns s) (map Name (col :: commonCols))) (rows s))
               tx0 dcols _ 0%nat Ht1) as [tx2 Hcopy2].
  { apply Hm. intros Hnil%(f_equal length). rewrite length_map in Hnil. simpl in *. lia. }
  { done. }
  rewrite Hcopy2. do 3 f_equal.
  destruct (copy_rows_fold _ _ _ _ _ _ _ _ _ Ht1 Hcopy2) as [Ht2 Hother2].
  apply map_eq. intros table'. destruct (decide (table' = table)) as [->|Hne].
  - rewrite Ht2, Ht1. do 2 f_equal.
    unfold GetTableColumns in Hcommon. rewrite Hs, Hd0 in Hcommon.
    rewrite map_map.
    rewrite (map_ext _ (carried (columns s) dcols)); cycle 1.
    { intros r. rewrite <- Hcommon, Hcols. apply inserted_row_carried. }
    apply fold_upsert_twice; [done|].
    intros r Hr. apply Hkeyed. by apply list_elem_of_In.
  - by apply Hother2.
Qed.

Lemma copy_again_changes_nothing_witness :
  copyTableWithTx (copyTableWithTx test_db drifted_src test_db "settings").1.1.1
                  drifted_src test_db "settings"
  = ((copyTableWithTx test_db drifted_src test_db "settings").1.1.1, 1%nat, None, []).
Proof.
  apply (copy_again_changes_nothing test_db drifted_src test_db "settings" _ 1 []
           test_settings test_settings); vm_compute; reflexivity.
Defined.


(** ** Errors of the row copier *)

Lemma intersectColumns_nil scols dcols :
  intersectColumns scols dcols = []
  ↔ ∀ name, name ∈ map Name scols → name ∉ map Name dcols.
Proof.
  split.
  - intros Hnil name Hs Hd.
    assert (name ∈ map Name (intersectColumns scols dcols)) as Hin
      by (by apply elem_of_intersect_names).
    rewrite Hnil in Hin. by apply elem_of_nil in Hin.
  - intros Hall. apply filter_none. intros c Hc Hd.
    apply (Hall (Name c)); [|done]. by apply list_elem_of_In, in_map, list_elem_of_In.
Qed.


Lemma copy_error_shape_missing tx src dst table :
  dst !! table = None →
  copyTableWithTx tx src dst table = (tx, O, Some (NoCommonColumns table), []).
Proof.
  intros Hmissing. unfold copyTableWithTx.
  replace (intersectColumns _ _) with (@nil ColumnInfo); [done|].
  symmetry. apply intersectColumns_nil. unfold GetTableColumns.
  rewrite Hmissing. by intros ? _ ?%elem_of_nil.
Qed.


(** ** Copying a list of tables *)

Lemma TableExists_true c table : TableExists c table = true ↔ is_Some (c !! table).
Proof. unfold TableExists. apply bool_decide_eq_true. Qed.

Lemma copy_each_missing tx src dst tables table :
  table ∈ tables → dst !! table = None →
  (copy_each tx src dst tables).2 ≠ None.
Proof.
  intros Hin Hmissing. revert tx. induction tables as [|t tables IH]; intros tx.
  - by apply elem_of_nil in Hin.
  - simpl. destruct (copyTableWithTx tx src dst t) as [[[tx1 n] [e|]] w] eqn:Hcopy;
      [done|].
    apply elem_of_cons in Hin as [<-|Hin].
    + pose proof (copy_error_shape_missing tx src dst table Hmissing) as Hm.
      rewrite Hcopy in Hm. done.
    + destruct (copy_each tx1 src dst tables) as [[tx2 log] err] eqn:Hrest.
      simpl. specialize (IH Hin tx1). by rewrite Hrest in IH.
Qed.

Lemma copy_tables_all_exist tx src dst progress tables :
  (∀ table, table ∈ tables → is_Some (dst !! table)) →
  (copy_tables tx src dst progress tables).1.1 = (copy_each tx src dst tables).1.1
  ∧ ((copy_tables tx src dst progress tables).2 = None
     ↔ (copy_each tx src dst tables).2 = None).
Proof.
  revert tx. induction tables as [|table tables IH]; intros tx Hall; simpl; [done|].
  rewrite (proj2 (TableExists_true dst table)) by (apply Hall; by left).
  destruct (copyTableWithTx tx src dst table) as [[[tx1 n] [e|]] w]; [done|].
  destruct (IH tx1) as [Hdb Herr]; [intros t Ht; apply Hall; by right|].
  destruct (copy_tables tx1 src dst progress tables) as [[tx2 log] err].
  destruct (copy_each tx1 src dst tables) as [[tx2' log'] err']. done.
Qed.

Section CopyingTables.
Context {codec : Codec}.

(** X13. [CopyTablesTo] is all or nothing: when it returns an error the
    destination is as it was.  It fails when one of the tables does not
    exist in the destination.  For a non-empty list of valid identifiers
    that all exist in the destination, a real run of [Transfer] over the
    list without renames leaves the same destination and succeeds
    exactly when [CopyTablesTo] does. *)
Theorem copy_tables_to_all_or_nothing (c dst : Database) (tables : list string) :
  ((CopyTablesTo c dst tables).2 ≠ None → (CopyTablesTo c dst tables).1.1 = dst)
  ∧ (∀ table, table ∈ tables → dst !! table = None →
              (CopyTablesTo c dst tables).2 ≠ None)
  ∧ (∀ mode progress,
       tables ≠ [] → first_invalid tables = None →
       (∀ table, table ∈ tables → is_Some (dst !! table)) →
       out_dst (Transfer c dst (mkOptions mode tables false progress [] []))
       = (CopyTablesTo c dst tables).1.1
       ∧ (out_err (Transfer c dst (mkOptions mode tables false progress [] [])) = None
          ↔ (CopyTablesTo c dst tables).2 = None)).
Proof.
  split_and!.
  - unfold CopyTablesTo. by destruct (copy_each dst c dst tables) as [[tx log] [e|]].
  - intros table Hin Hmissing.
    pose proof (copy_each_missing dst c dst tables table Hin Hmissing) as Hfail.
    unfold CopyTablesTo. by destruct (copy_each dst c dst tables) as [[tx log] [e|]].
  - intros mode progress Hne Hvalid Hall.
    unfold Transfer, ResolveTables. cbn [Tables DryRun OnProgress LoadpointRenames
                                          VehicleRenames].
    destruct tables as [|table tables]; [done|]. rewrite Hvalid.
    destruct (copy_tables_all_exist dst c dst progress (table :: tables) Hall)
      as [Hdb Herr].
    unfold CopyTablesTo.
    destruct (copy_tables dst c dst progress (table :: tables)) as [[tx log] [e|]],
             (copy_each dst c dst (table :: tables)) as [[tx' log'] [e'|]];
      simpl in *; try done.
    + destruct Herr as [_ H]. by specialize (H eq_refl).
    + destruct Herr as [H _]. by specialize (H eq_refl).
Qed.

End CopyingTables.

(** ** What the progress callback receives *)

Lemma copyTableWithTx_count tx src dst table tx' n warnings :
  copyTableWithTx tx src dst table = (tx', n, None, warnings) →
  (∃ s, src !! table = Some s ∧ n = length (rows s))
  ∧ omap progress_of warnings = []
  ∧ omap missing_of warnings = [].
Proof.
  unfold copyTableWithTx.
  destruct (intersectColumns _ _) as [|col commonCols] eqn:Hcommon; [done|].
  rewrite GetRowCount_lookup.
  destruct (src !! table) as [s|] eqn:Hs; [|done].
  assert (∀ l : list ColumnInfo,
            omap progress_of (map (fun col => SkippedColumn table (Name col)) l) = []
            ∧ omap missing_of (map (fun col => SkippedColumn table (Name col)) l) = [])
    as Hw by (intros l; induction l; done).
  destruct (length (rows s)) as [|m] eqn:Hlen.
  { intros [= <- <- <-]. split; [by exists s|apply Hw]. }
  unfold sql_select, prepare. rewrite Hs, app_nil_r.
  destruct (missing_column (columns s) _); [done|].
  simpl holds. rewrite filter_all by done.
  destruct (copy_rows tx table _ _ 0) as [[tx1 copied1] err] eqn:Hcopy.
  intros [= <- <- -> <-]. split; [|apply Hw].
  exists s. split; [done|].
  apply copy_rows_count in Hcopy. rewrite length_map in Hcopy. by simpl in Hcopy.
Qed.

Lemma copy_tables_log tx src dst progress tables tx' log :
  copy_tables tx src dst progress tables = (tx', log, None) →
  omap progress_of log
  = (if progress then omap (expected_progress src dst) tables else [])
  ∧ omap missing_of log = filter (fun table => dst !! table = None) tables.
Proof.
  revert tx log. induction tables as [|table tables IH]; intros tx log; simpl.
  - intros [= _ <-]. by destruct progress.
  - unfold TableExists, expected_progress at 1.
    destruct (dst !! table) as [d|] eqn:Hd.
    + rewrite bool_decide_eq_true_2 by done.
      destruct (copyTableWithTx tx src dst table) as [[[tx1 n] [e|]] w] eqn:Hcopy;
        [done|].
      destruct (copy_tables tx1 src dst progress tables) as [[tx2 log2] err] eqn:Hrest.
      intros [= <- <- ->].
      destruct (IH _ _ Hrest) as [Hp Hm].
      apply copyTableWithTx_count in Hcopy as ((s & Hs & ->) & Hwp & Hwm).
      rewrite !omap_app, Hwp, Hwm, Hp, Hm, Hs.
      rewrite filter_cons_False by (by rewrite Hd).
      by destruct progress.
    + rewrite bool_decide_eq_false_2 by (by intros [? ?]).
      destruct (copy_tables tx src dst progress tables) as [[tx2 log2] err] eqn:Hrest.
      intros [= <- <- ->].
      destruct (IH _ _ Hrest) as [Hp Hm].
      rewrite filter_cons_True by done.
      change (omap ?f (MissingTable table :: log2)) with (omap f log2) at 1.
      change (omap missing_of (MissingTable table :: log2))
        with (table :: omap missing_of log2).
      rewrite Hp, Hm. by destruct progress.
Qed.

Section Progress.
Context {codec : Codec}.

(** X14. In a real run that ends without error the progress callback,
    when one is installed, is called once for each table that exists in
    the destination, in the order of the tables, with the row count of
    the source table; and the tables that are reported as skipped are
    the ones that the destination lacks, in order. *)
Theorem progress_reports_each_copied_table (src dst : Database)
    (opts : TransferOptions) (tables : list string) :
  DryRun opts = false →
  ResolveTables opts = inr tables →
  out_err (Transfer src dst opts) = None →
  omap progress_of (out_log (Transfer src dst opts))
  = (if OnProgress opts then omap (expected_progress src dst) tables else [])
  ∧ omap missing_of (out_log (Transfer src dst opts))
    = filter (fun table => dst !! table = None) tables.
Proof.
  intros Hdry Hresolve. unfold Transfer. rewrite Hresolve, Hdry.
  destruct (copy_tables dst src dst (OnProgress opts) tables)
    as [[tx log] [e|]] eqn:Hcopy; [done|].
  intros _. apply copy_tables_log in Hcopy.
  destruct (apply_renames RenameLoadpoint _ tx _) as [[dst1 results1] [e|]];
    [done|].
  by destruct (apply_renames RenameVehicle _ dst1 _) as [[dst2 results2] err].
Qed.

End Progress.

Lemma progress_reports_each_copied_table_witness :
  omap progress_of
    (out_log (Transfer (codec := flat_json) drifted_src test_db
                (mkOptions TransferConfig ["settings"; "tariffs"] false true [] [])))
  = [("settings", 1%nat)]
  ∧ omap missing_of
      (out_log (Transfer (codec := flat_json) drifted_src test_db
                  (mkOptions TransferConfig ["settings"; "tariffs"] false true [] [])))
    = ["tariffs"].
Proof.
  destruct (progress_reports_each_copied_table (codec := flat_json)
              drifted_src test_db
              (mkOptions TransferConfig ["settings"; "tariffs"] false true [] [])
              ["settings"; "tariffs"])
    as [Hprogress Hmissing].
  - reflexivity.
  - vm_compute. reflexivity.
  - vm_compute. reflexivity.
  - split; [rewrite Hprogress|rewrite Hmissing]; vm_compute; reflexivity.
Defined.

(** ** The tables of a run *)

Lemma all_chars_no_backquote p s :
  p "`"%char = false → all_chars p s = true → Contains s "`" = false.
Proof.
  intros Hp. induction s as [|c s IH]; [done|].
  cbn [all_chars]. intros [Hc Hs]%andb_true_iff.
  change (Contains (String c s) "`")
    with (Ascii.eqb "`"%char c && true || Contains s "`").
  rewrite IH by done.
  destruct (Ascii.eqb_spec "`"%char c) as [<-|Hne]; [congruence|done].
Qed.

Lemma validIdentifier_plain name :
  validIdentifier name = true → name ≠ "" ∧ Contains name "`" = false.
Proof.
  destruct name as [|c rest]; [done|]. cbn [validIdentifier].
  intros [Hc Hrest]%andb_true_iff. split; [done|].
  change (Contains (String c rest) "`")
    with (Ascii.eqb "`"%char c && true || Contains rest "`").
  rewrite (all_chars_no_backquote _ rest eq_refl Hrest).
  destruct (Ascii.eqb_spec "`"%char c) as [<-|Hne]; [done|done].
Qed.

Lemma first_invalid_None tables :
  first_invalid tables = None ↔ ∀ t, t ∈ tables → validIdentifier t = true.
Proof.
  induction tables as [|t tables IH]; simpl.
  - split; [|done]. by intros _ ? ?%elem_of_nil.
  - unfold ValidateIdentifier. destruct (validIdentifier t) eqn:Ht.
    + rewrite IH. split.
      * intros H t' [->|Ht']%elem_of_cons; [done|by apply H].
      * intros H t' Ht'. apply H. by right.
    + split; [done|]. intros H. specialize (H t ltac:(by left)). congruence.
Qed.

Lemma first_invalid_Some tables e :
  first_invalid tables = Some e →
  ∃ before name after,
    tables = before ++ name :: after
    ∧ (∀ t, t ∈ before → validIdentifier t = true)
    ∧ validIdentifier name = false
    ∧ e = InvalidIdentifier name.
Proof.
  induction tables as [|t tables IH]; simpl; [done|].
  unfold ValidateIdentifier. destruct (validIdentifier t) eqn:Ht.
  - intros (before & name & after & -> & Hb & Hn & ->)%IH.
    exists (t :: before), name, after. split_and!; [done| |done..].
    intros t' [->|Ht']%elem_of_cons; [done|by apply Hb].
  - intros [= <-]. exists [], t, tables. split_and!; [done| |done..].
    by intros ? ?%elem_of_nil.
Qed.

(** X15. The tables that [ResolveTables] returns are never none, they
    are the explicit list whenever one is given, and each of them is a
    valid identifier, so it is not empty and holds no backquote.  An
    error is either the unknown mode, with no explicit list, or the
    first name of the explicit list that is no valid identifier. *)
Theorem resolved_tables_are_identifiers (opts : TransferOptions) :
  (∀ tables,
     ResolveTables opts = inr tables →
     tables ≠ []
     ∧ (Tables opts ≠ [] → tables = Tables opts)
     ∧ ∀ table, table ∈ tables →
                validIdentifier table = true
                ∧ table ≠ "" ∧ Contains table "`" = false)
  ∧ (∀ e,
       ResolveTables opts = inl e →
       (Tables opts = [] ∧ e = UnknownTransferMode (Mode opts)
        ∧ Mode opts ≠ TransferConfig ∧ Mode opts ≠ TransferMetrics
        ∧ Mode opts ≠ TransferAll)
       ∨ ∃ before name after,
           Tables opts = before ++ name :: after
           ∧ (∀ t, t ∈ before → validIdentifier t = true)
           ∧ validIdentifier name = false
           ∧ e = InvalidIdentifier name).
Proof.
  unfold ResolveTables. split.
  - intros tables Hres.
    assert (tables ≠ [] ∧ (Tables opts ≠ [] → tables = Tables opts)
            ∧ ∀ t, t ∈ tables → validIdentifier t = true) as (H1 & H2 & H3).
    { destruct (Tables opts) as [|t ts] eqn:Hts.
      - destruct (Z.eqb_spec (Mode opts) TransferConfig);
          [|destruct (Z.eqb_spec (Mode opts) TransferMetrics);
            [|destruct (Z.eqb_spec (Mode opts) TransferAll); [|done]]];
          injection Hres as <-; (split_and!; [done|done|]);
          intros t Ht; repeat (apply elem_of_cons in Ht as [->|Ht]; [reflexivity|]);
          by apply elem_of_nil in Ht.
      - destruct (first_invalid (t :: ts)) eqn:Hinv; [done|].
        injection Hres as <-. split_and!; [done..|]. by apply first_invalid_None. }
    split_and!; [done..|]. intros table Ht. split; [by apply H3|].
    by apply validIdentifier_plain, H3.
  - intros e Hres. destruct (Tables opts) as [|t ts] eqn:Hts.
    + left. destruct (Z.eqb_spec (Mode opts) TransferConfig); [done|].
      destruct (Z.eqb_spec (Mode opts) TransferMetrics); [done|].
      destruct (Z.eqb_spec (Mode opts) TransferAll); [done|].
      by injection Hres as <-.
    + right. destruct (first_invalid (t :: ts)) eqn:Hinv; [|done].
      injection Hres as <-. by apply first_invalid_Some.
Qed.

(** ** The text of a value in a statement *)


Example escape_ex : escapeSQL "O'Brien" = "O''Brien".
Proof. reflexivity. Qed.

Lemma escapeSQL_cons c s :
  escapeSQL (String c s)
  = if Ascii.eqb c "'" then "''" +:+ escapeSQL s else String c (escapeSQL s).
Proof.
  unfold escapeSQL, ReplaceAll. cbn [replace_all HasPrefix String.length Nat.sub].
  rewrite Ascii.eqb_sym. by destruct (Ascii.eqb c "'").
Qed.

Lemma read_escaped v rest :
  HasPrefix rest "'" = false →
  read_sql_text (escapeSQL v +:+ "'" +:+ rest) = Some (v, rest).
Proof.
  intros Hrest. induction v as [|c v IH].
  - change (escapeSQL "" +:+ "'" +:+ rest) with (String "'" rest).
    cbn [read_sql_text]. rewrite Ascii.eqb_refl.
    destruct rest as [|d rest]; [done|].
    cbn [HasPrefix] in Hrest. rewrite andb_true_r, Ascii.eqb_sym in Hrest.
    by rewrite Hrest.
  - rewrite escapeSQL_cons. destruct (Ascii.eqb_spec c "'") as [->|Hne].
    + change (("''" +:+ escapeSQL v) +:+ "'" +:+ rest)
        with (String "'" (String "'" (escapeSQL v +:+ "'" +:+ rest))).
      cbn [read_sql_text]. rewrite Ascii.eqb_refl. cbn [read_sql_text].
      by rewrite IH.
    + change (String c (escapeSQL v) +:+ "'" +:+ rest)
        with (String c (escapeSQL v +:+ "'" +:+ rest)).
      cbn [read_sql_text]. rewrite (proj2 (Ascii.eqb_neq c "'")) by done.
      by rewrite IH.
Qed.

(** X16. The text that [formatValueForSQL] produces for a Go string is
    one SQL string literal with the string as its value, whatever
    follows it that does not begin with a quote; so two strings that
    get the same text are the same string. *)
Theorem formatted_text_reads_back {fmt : Format} (v colType : string) :
  (∀ rest, HasPrefix rest "'" = false →
           read_sql_literal (formatValueForSQL (AString v) colType +:+ rest)
           = Some (v, rest))
  ∧ (∀ w colType', formatValueForSQL (AString v) colType
                   = formatValueForSQL (AString w) colType' → v = w).
Proof.
  assert (∀ u rest, HasPrefix rest "'" = false →
            read_sql_literal (("'" +:+ escapeSQL u +:+ "'") +:+ rest)
            = Some (u, rest)) as Hread.
  { intros u rest Hrest.
    change (("'" +:+ escapeSQL u +:+ "'") +:+ rest)
      with (String "'" ((escapeSQL u +:+ "'") +:+ rest)).
    cbn [read_sql_literal]. rewrite Ascii.eqb_refl, append_assoc.
    by apply read_escaped. }
  split.
  - intros rest Hrest. by apply Hread.
  - intros w colType' Hsame. cbn [formatValueForSQL] in Hsame.
    pose proof (Hread v "" eq_refl) as Hv. pose proof (Hread w "" eq_refl) as Hw.
    rewrite Hsame, Hw in Hv. by injection Hv.
Qed.

(** ** The dry run and the real run of a transfer *)

Lemma preview_tables_log src dst tables log :
  preview_tables src dst tables = (log, None) →
  omap would_copy_of log = omap (expected_progress src dst) tables
  ∧ omap missing_of log = filter (fun table => dst !! table = None) tables.
Proof.
  revert log. induction tables as [|table tables IH]; intros log; simpl.
  - by intros [= <-].
  - unfold TableExists, expected_progress at 1.
    destruct (dst !! table) as [d|] eqn:Hd.
    + rewrite bool_decide_eq_true_2 by done. rewrite GetRowCount_lookup.
      destruct (src !! table) as [s|] eqn:Hs; [|done].
      destruct (preview_tables src dst tables) as [log1 err] eqn:Hrest.
      intros [= <- ->]. destruct (IH _ eq_refl) as [Hw Hm].
      rewrite filter_cons_False by (by rewrite Hd).
      change (omap would_copy_of (WouldCopy table (length (rows s)) :: log1))
        with ((table, length (rows s)) :: omap would_copy_of log1).
      change (omap missing_of (WouldCopy table (length (rows s)) :: log1))
        with (omap missing_of log1).
      by rewrite Hw, Hm.
    + rewrite bool_decide_eq_false_2 by (by intros [? ?]).
      destruct (preview_tables src dst tables) as [log1 err] eqn:Hrest.
      intros [= <- ->]. destruct (IH _ eq_refl) as [Hw Hm].
      rewrite filter_cons_True by done.
      change (omap would_copy_of (MissingTable table :: log1))
        with (omap would_copy_of log1).
      change (omap missing_of (MissingTable table :: log1))
        with (table :: omap missing_of log1).
      by rewrite Hw, Hm.
Qed.

Lemma preview_renames_no_tables {codec : Codec} dryRun mk src renames log err :
  (∀ o n r, would_copy_of (mk o n r) = None ∧ missing_of (mk o n r) = None) →
  preview_renames dryRun mk src renames = (log, err) →
  omap would_copy_of log = [] ∧ omap missing_of log = [].
Proof.
  intros Hmk. revert log err.
  induction renames as [|rename renames IH]; intros log err; simpl.
  - by intros [= <- _].
  - destruct (dryRun src (OldName rename) (NewName rename)) as [result [e|]].
    + by intros [= <- _].
    + destruct (preview_renames dryRun mk src renames) as [log1 err1].
      intros [= <- _]. destruct (IH _ _ eq_refl) as [Hw Hm].
      destruct (Hmk (OldName rename) (NewName rename) result) as [H1 H2].
      split.
      * change (omap would_copy_of (?e :: ?l))
          with (from_option (fun x => x :: omap would_copy_of l)
                            (omap would_copy_of l) (would_copy_of e)).
        by rewrite H1, Hw.
      * change (omap missing_of (?e :: ?l))
          with (from_option (fun x => x :: omap missing_of l)
                            (omap missing_of l) (missing_of e)).
        by rewrite H2, Hm.
Qed.

Section DryAndReal.
Context {codec : Codec}.

(** X17. When a dry run of a transfer ends without an error, the counts
    it prints are, table by table and in the order of the list, the row
    counts of the source tables that the destination has, and its
    warnings name the tables the destination lacks.  A real run of the
    same tables that ends without an error hands its progress callback
    the same tables and counts, and warns about the same tables. *)
Theorem dry_run_predicts_progress (src dst : Database) (opts : TransferOptions)
    (tables : list string) :
  DryRun opts = true →
  ResolveTables opts = inr tables →
  out_err (Transfer src dst opts) = None →
  omap would_copy_of (out_log (Transfer src dst opts))
  = omap (expected_progress src dst) tables
  ∧ omap missing_of (out_log (Transfer src dst opts))
    = filter (fun table => dst !! table = None) tables
  ∧ ∀ real,
      DryRun real = false → OnProgress real = true →
      ResolveTables real = inr tables →
      out_err (Transfer src dst real) = None →
      omap progress_of (out_log (Transfer src dst real))
      = omap would_copy_of (out_log (Transfer src dst opts))
      ∧ omap missing_of (out_log (Transfer src dst real))
        = omap missing_of (out_log (Transfer src dst opts)).
Proof.
  intros Hdry Hresolve Herr.
  assert (omap would_copy_of (out_log (Transfer src dst opts))
          = omap (expected_progress src dst) tables
          ∧ omap missing_of (out_log (Transfer src dst opts))
            = filter (fun table => dst !! table = None) tables) as [Hw Hm].
  { revert Herr. unfold Transfer. rewrite Hresolve, Hdry.
    destruct (preview_tables src dst tables) as [log [e|]] eqn:Htables; [done|].
    apply preview_tables_log in Htables as [Hw Hm].
    destruct (preview_renames RenameLoadpointDryRun _ _ _) as [log1 [e|]] eqn:H1;
      [done|].
    apply preview_renames_no_tables in H1 as [Hw1 Hm1]; [|done].
    destruct (preview_renames RenameVehicleDryRun _ _ _) as [log2 err] eqn:H2.
    apply preview_renames_no_tables in H2 as [Hw2 Hm2]; [|done].
    intros _. cbn [out_log].
    change (omap ?f (DryRunHeader ?n :: ?l)) with (omap f l).
    by rewrite !omap_app, Hw, Hm, Hw1, Hm1, Hw2, Hm2, !app_nil_r. }
  split_and!; [done..|].
  intros real Hreal Hprogress Hresolve' Herr'.
  rewrite Hw, Hm.
  unfold Transfer in Herr' |- *. rewrite Hresolve', Hreal in Herr' |- *.
  rewrite Hprogress in Herr' |- *.
  destruct (copy_tables dst src dst true tables) as [[tx log] [e|]] eqn:Hcopy;
    [done|].
  apply copy_tables_log in Hcopy.
  destruct (apply_renames RenameLoadpoint _ tx _) as [[dst1 results1] [e|]];
    [done|].
  by destruct (apply_renames RenameVehicle _ dst1 _) as [[dst2 results2] err].
Qed.

End DryAndReal.

Lemma dry_run_predicts_progress_witness :
  omap progress_of
    (out_log (Transfer (codec := flat_json) drifted_src test_db
                (mkOptions TransferConfig ["settings"; "tariffs"] false true [] [])))
  = omap would_copy_of
      (out_log (Transfer (codec := flat_json) drifted_src test_db
                  (mkOptions TransferConfig ["settings"; "tariffs"] true false [] []))).
Proof.
  destruct (dry_run_predicts_progress (codec := flat_json) drifted_src test_db
              (mkOptions TransferConfig ["settings"; "tariffs"] true false [] [])
              ["settings"; "tariffs"]) as (_ & _ & Hreal).
  - reflexivity.
  - reflexivity.
  - vm_compute. reflexivity.
  - apply (Hreal (mkOptions TransferConfig ["settings"; "tariffs"] false true [] [])).
    + reflexivity.
    + reflexivity.
    + reflexivity.
    + vm_compute. reflexivity.
Defined.

(** ** A rename that fails after the copy *)

Section FailedRename.
Context {codec : Codec}.

Lemma Rename_failed (k : kind) c oldName newName c' result e :
  Rename k c oldName newName = (c', (result, Some e)) → c' = c.
Proof.
  destruct k; simpl; unfold RenameLoadpoint, RenameVehicle.
  - destruct (renameInSessions c _ _ _) as [|[tx1 n1]]; [by intros [= <-]|].
    destruct (renameSettingsValue tx1 _ _ _) as [|[tx2 n2]]; [by intros [= <-]|].
    destruct (renameInConfigsJSON tx2 _ _ _) as [[tx3 n3] [e3|]]; [by intros [= <-]|done].
  - destruct (renameInSessions c _ _ _) as [|[tx1 n1]]; [by intros [= <-]|].
    destruct (renameSettingsKeys tx1 _ _) as [|[tx2 n2]]; [by intros [= <-]|].
    destruct (renameInConfigsJSON tx2 _ _ _) as [[tx3 n3] [e3|]]; [by intros [= <-]|done].
Qed.

Lemma copy_tables_error_context tx src dst progress tables tx' log e :
  copy_tables tx src dst progress tables = (tx', log, Some e) →
  ∃ table e', e = Wrapped ("failed to copy table " +:+ table) e'.
Proof.
  revert tx tx' log.
  induction tables as [|table tables IH]; intros tx tx' log; simpl; [done|].
  destruct (TableExists dst table).
  - destruct (copyTableWithTx tx src dst table) as [[[tx1 n] [e1|]] w].
    + intros [= _ _ <-]. by eexists _, _.
    + destruct (copy_tables tx1 src dst progress tables)
        as [[tx2 log2] err2] eqn:Hrest.
      intros [= _ _ ->]. by eapply IH.
  - destruct (copy_tables tx src dst progress tables)
      as [[tx2 log2] err2] eqn:Hrest.
    intros [= _ _ ->]. by eapply IH.
Qed.

Lemma apply_renames_done (k : kind) context c renames c' results e :
  apply_renames (Rename k) context c renames = (c', results, Some e) →
  ∃ done failed rest,
    renames = done ++ failed :: rest
    ∧ apply_renames (Rename k) context c done = (c', results, None).
Proof.
  revert c c' results.
  induction renames as [|rename renames IH]; intros c c' results; simpl; [done|].
  destruct (Rename k c _ _) as [c1 [result [e1|]]] eqn:Hrename.
  - apply Rename_failed in Hrename as ->. intros [= <- <- _].
    by exists [], rename, renames.
  - destruct (apply_renames (Rename k) context c1 renames)
      as [[c2 rs] err2] eqn:Hrest.
    intros [= <- <- ->]. apply IH in Hrest as (done & failed & rest & -> & Hdone).
    exists (rename :: done), failed, rest. split; [done|].
    simpl. by rewrite Hrename, Hdone.
Qed.

(** X18. A transfer is not undone by a rename that fails.  When a real
    run returns the error of a loadpoint or vehicle rename, the
    destination, the log and the results are those of a run that
    succeeds with the renames before the failing one: the copy and the
    earlier renames stay, and the failing rename leaves nothing. *)
Theorem failed_rename_keeps_the_copy (src dst : Database) (opts : TransferOptions)
    (cause : error) :
  DryRun opts = false →
  out_err (Transfer src dst opts) = Some (Wrapped "failed to rename loadpoint" cause)
  ∨ out_err (Transfer src dst opts) = Some (Wrapped "failed to rename vehicle" cause) →
  ∃ loadpoints vehicles,
    loadpoints `prefix_of` LoadpointRenames opts
    ∧ vehicles `prefix_of` VehicleRenames opts
    ∧ (length loadpoints + length vehicles
       < length (LoadpointRenames opts) + length (VehicleRenames opts))%nat
    ∧ let done := mkOptions (Mode opts) (Tables opts) false (OnProgress opts)
                            loadpoints vehicles in
      out_err (Transfer src dst done) = None
      ∧ out_dst (Transfer src dst opts) = out_dst (Transfer src dst done)
      ∧ out_log (Transfer src dst opts) = out_log (Transfer src dst done)
      ∧ applied (Transfer src dst opts) = applied (Transfer src dst done).
Proof.
  intros Hreal. cbn zeta. unfold Transfer, ResolveTables.
  rewrite Hreal. cbn [DryRun Mode Tables OnProgress LoadpointRenames VehicleRenames].
  fold (ResolveTables opts).
  destruct (ResolveTables opts) as [e|tables].
  { by intros [[=]|[=]]. }
  destruct (copy_tables dst src dst (OnProgress opts) tables)
    as [[tx log] [e|]] eqn:Hcopy.
  { apply copy_tables_error_context in Hcopy as (table & e' & ->).
    by intros [[=]|[=]]. }
  change RenameLoadpoint with (Rename Loadpoint) in *.
  change RenameVehicle with (Rename Vehicle) in *.
  destruct (apply_renames (Rename Loadpoint) _ tx (LoadpointRenames opts))
    as [[dst1 results1] [e|]] eqn:H1.
  - intros _.
    apply apply_renames_done in H1 as (done & failed & rest & Hl & Hdone).
    exists done, []. rewrite Hl, Hdone. simpl.
    split_and!; try done.
    + by eexists.
    + by apply prefix_nil.
    + rewrite length_app. simpl. lia.
    + by rewrite app_nil_r.
  - destruct (apply_renames (Rename Vehicle) _ dst1 (VehicleRenames opts))
      as [[dst2 results2] [e|]] eqn:H2; [|by intros [[=]|[=]]].
    intros _.
    apply apply_renames_done in H2 as (done & failed & rest & Hv & Hdone).
    exists (LoadpointRenames opts), done. rewrite H1, Hv, Hdone. simpl.
    split_and!; try done.
    + by eexists.
    + rewrite length_app. simpl. lia.
Qed.

End FailedRename.

Lemma failed_rename_keeps_the_copy_witness :
  ∃ loadpoints vehicles,
    loadpoints `prefix_of` [mkRename "Garage" "Carport"]
    ∧ vehicles `prefix_of` []
    ∧ (length loadpoints + length vehicles < 1 + 0)%nat
    ∧ let done := mkOptions TransferConfig ["settings"] false true
                            loadpoints vehicles in
      out_err (Transfer (codec := flat_json) drifted_src empty_dst done) = None
      ∧ out_dst (Transfer (codec := flat_json) drifted_src empty_dst
                   (mkOptions TransferConfig ["settings"] false true
                              [mkRename "Garage" "Carport"] []))
        = out_dst (Transfer (codec := flat_json) drifted_src empty_dst done)
      ∧ out_log (Transfer (codec := flat_json) drifted_src empty_dst
                   (mkOptions TransferConfig ["settings"] false true
                              [mkRename "Garage" "Carport"] []))
        = out_log (Transfer (codec := flat_json) drifted_src empty_dst done)
      ∧ applied (Transfer (codec := flat_json) drifted_src empty_dst
                   (mkOptions TransferConfig ["settings"] false true
                              [mkRename "Garage" "Carport"] []))
        = applied (Transfer (codec := flat_json) drifted_src empty_dst done).
Proof.
  eapply (failed_rename_keeps_the_copy (codec := flat_json) drifted_src empty_dst
            (mkOptions TransferConfig ["settings"] false true
                       [mkRename "Garage" "Carport"] [])).
  - reflexivity.
  - left. vm_compute. reflexivity.
Defined.

(** ** The flags of the commands *)

(** *** Reversal of strings *)

Lemma string_rev_app s t : String.rev_app s t = String.rev s +:+ t.
Proof.
  unfold String.rev. revert t. induction s as [|a s IH]; intros t; [done|].
  simpl. rewrite (IH (String a "")), IH. by rewrite append_assoc.
Qed.

Lemma string_rev_cons a s : String.rev (String a s) = String.rev s +:+ String a "".
Proof. unfold String.rev at 1. simpl. apply string_rev_app. Qed.

Lemma string_rev_append s t : String.rev (s +:+ t) = String.rev t +:+ String.rev s.
Proof.
  induction s as [|a s IH].
  - by rewrite append_nil_l, append_nil_r.
  - rewrite append_cons, !string_rev_cons, IH. by rewrite append_assoc.
Qed.

Lemma string_rev_involutive s : String.rev (String.rev s) = s.
Proof.
  induction s as [|a s IH]; [done|].
  by rewrite string_rev_cons, string_rev_append, IH.
Qed.

Lemma string_rev_length s : String.length (String.rev s) = String.length s.
Proof.
  induction s as [|a s IH]; [done|].
  rewrite string_rev_cons, length_append, IH. simpl. lia.
Qed.

Lemma Contains_byte_cons c s b :
  Contains (String c s) (String b "") = Ascii.eqb b c || Contains s (String b "").
Proof. simpl. by rewrite andb_true_r. Qed.

Lemma Contains_byte_append s t b :
  Contains (s +:+ t) (String b "")
  = Contains s (String b "") || Contains t (String b "").
Proof.
  induction s as [|a s IH].
  - rewrite append_nil_l. by destruct (Contains t _).
  - rewrite append_cons, !Contains_byte_cons, IH. by rewrite orb_assoc.
Qed.

Lemma Contains_byte_rev s b :
  Contains (String.rev s) (String b "") = Contains s (String b "").
Proof.
  induction s as [|a s IH]; [done|].
  rewrite string_rev_cons, Contains_byte_append, IH, !Contains_byte_cons.
  simpl. rewrite orb_false_r. apply orb_comm.
Qed.

(** *** Stripping *)

Lemma strip_one_None ws s :
  strip_one ws s = None ↔ existsb (HasPrefix s) ws = false.
Proof.
  induction ws as [|w ws IH]; simpl; [done|].
  destruct (HasPrefix s w); simpl; [split; discriminate|done].
Qed.

Lemma strip_one_Some ws s rest :
  strip_one ws s = Some rest → ∃ w, w ∈ ws ∧ s = w +:+ rest.
Proof.
  induction ws as [|w ws IH]; simpl; [done|].
  destruct (HasPrefix s w) eqn:Hw.
  - intros [= <-]. exists w. split; [by left|].
    apply HasPrefix_iff in Hw as [t ->]. by rewrite string_drop_app.
  - intros (w' & ? & ?)%IH. exists w'. split; [by right|done].
Qed.

Lemma strip_suffix ws n s : ∃ pre, s = pre +:+ strip ws n s.
Proof.
  revert s. induction n as [|n IH]; intros s; simpl.
  - by exists "".
  - destruct (strip_one ws s) as [rest|] eqn:H; [|by exists ""].
    apply strip_one_Some in H as (w & _ & ->).
    destruct (IH rest) as [pre Hpre]. exists (w +:+ pre).
    by rewrite append_assoc, <- Hpre.
Qed.

Lemma strip_done ws n s :
  Forall (fun w => w ≠ "") ws → (String.length s <= n)%nat →
  strip_one ws (strip ws n s) = None.
Proof.
  intros Hws. revert s. induction n as [|n IH]; intros s Hn; simpl.
  - destruct s; [|simpl in Hn; lia]. clear Hn.
    induction Hws as [|w ws Hw _ IHws]; simpl; [done|].
    by destruct w.
  - destruct (strip_one ws s) as [rest|] eqn:H; [|done].
    apply IH. apply strip_one_Some in H as (w & Hin & ->).
    rewrite length_append in Hn.
    assert (w ≠ "") by (by eapply Forall_forall in Hws).
    destruct w; [done|]. simpl in Hn. lia.
Qed.

Lemma strip_fixed ws n s : strip_one ws s = None → strip ws n s = s.
Proof. intros H. destruct n; simpl; [done|]. by rewrite H. Qed.

Lemma spaces_nonempty : Forall (fun w => w ≠ "") spaces.
Proof. by repeat constructor. Qed.

Lemma rev_spaces_nonempty : Forall (fun w => w ≠ "") (map String.rev spaces).
Proof. by repeat constructor. Qed.

Lemma existsb_suffix s :
  existsb (HasPrefix (String.rev s)) (map String.rev spaces)
  = existsb (HasSuffix s) spaces.
Proof. by induction spaces as [|w ws IH]; simpl; [|rewrite IH]. Qed.

Lemma HasPrefix_longer s t w :
  HasPrefix s w = true → HasPrefix (s +:+ t) w = true.
Proof.
  intros [u ->]%HasPrefix_iff. rewrite append_assoc. apply HasPrefix_app.
Qed.

Lemma existsb_prefix_longer ws s t :
  existsb (HasPrefix (s +:+ t)) ws = false → existsb (HasPrefix s) ws = false.
Proof.
  induction ws as [|w ws IH]; simpl; [done|].
  intros [Hw Hws]%orb_false_elim. rewrite (IH Hws), orb_false_r.
  destruct (HasPrefix s w) eqn:H; [|done].
  by rewrite (HasPrefix_longer _ t _ H) in Hw.
Qed.

(** What [TrimSpace] returns has no white space at either end, and is a
    part of its argument. *)
Lemma TrimSpace_part s : ∃ pre post, s = pre +:+ TrimSpace s +:+ post.
Proof.
  unfold TrimSpace, TrimRightSpace, TrimLeftSpace.
  destruct (strip_suffix spaces (String.length s) s) as [pre Hpre].
  set (t := strip spaces (String.length s) s) in *.
  destruct (strip_suffix (map String.rev spaces) (String.length t) (String.rev t))
    as [post Hpost].
  exists pre, (String.rev post). rewrite Hpre at 1. f_equal.
  apply (f_equal String.rev) in Hpost.
  by rewrite string_rev_involutive, string_rev_append in Hpost.
Qed.

Lemma TrimSpace_trimmed s : trimmed (TrimSpace s) = true.
Proof.
  unfold trimmed. apply andb_true_intro. split; apply negb_true_iff.
  - unfold TrimSpace, TrimRightSpace, TrimLeftSpace.
    set (t := strip spaces (String.length s) s).
    assert (existsb (HasPrefix t) spaces = false) as Ht.
    { apply strip_one_None, strip_done; [apply spaces_nonempty|done]. }
    destruct (strip_suffix (map String.rev spaces) (String.length t) (String.rev t))
      as [post Hpost].
    apply (f_equal String.rev) in Hpost.
    rewrite string_rev_involutive, string_rev_append in Hpost.
    rewrite Hpost in Ht at 1. by apply existsb_prefix_longer in Ht.
  - unfold TrimSpace, TrimRightSpace.
    rewrite <- existsb_suffix, string_rev_involutive.
    apply strip_one_None, strip_done; [apply rev_spaces_nonempty|].
    by rewrite string_rev_length.
Qed.

Lemma TrimSpace_fixed s : trimmed s = true → TrimSpace s = s.
Proof.
  intros [Hl Hr]%andb_prop. apply negb_true_iff in Hl, Hr.
  unfold TrimSpace, TrimRightSpace, TrimLeftSpace.
  rewrite (strip_fixed spaces _ s) by (by apply strip_one_None).
  rewrite strip_fixed; [apply string_rev_involutive|].
  apply strip_one_None. by rewrite existsb_suffix.
Qed.

Lemma TrimSpace_keeps_out s b :
  Contains s (String b "") = false → Contains (TrimSpace s) (String b "") = false.
Proof.
  destruct (TrimSpace_part s) as (pre & post & Hs). rewrite Hs at 1.
  rewrite !Contains_byte_append.
  by intros [_ [? _]%orb_false_elim]%orb_false_elim.
Qed.

(** *** Splitting and joining *)

Lemma Split_not_nil s sep : Split s sep ≠ [].
Proof.
  destruct s as [|c s]; simpl; [done|].
  destruct (Ascii.eqb c sep); [done|]. by destruct (Split s sep).
Qed.

Lemma Split_pieces s sep piece :
  piece ∈ Split s sep → Contains piece (String sep "") = false.
Proof.
  revert piece. induction s as [|c s IH]; intros piece; simpl.
  - by intros ->%list_elem_of_singleton.
  - destruct (Ascii.eqb c sep) eqn:Hc.
    + intros [->|?]%elem_of_cons; [done|by apply IH].
    + destruct (Split s sep) as [|p ps] eqn:Hsplit;
        [by destruct (Split_not_nil s sep)|].
      intros [->|?]%elem_of_cons.
      * rewrite Contains_byte_cons, Ascii.eqb_sym, Hc. apply IH. by left.
      * apply IH. by right.
Qed.

Lemma Split_piece s sep :
  Contains s (String sep "") = false → Split s sep = [s].
Proof.
  induction s as [|c s IH]; [done|].
  rewrite Contains_byte_cons. intros [Hc Hs]%orb_false_elim.
  simpl. rewrite Ascii.eqb_sym, Hc. by rewrite (IH Hs).
Qed.

Lemma Split_append s t sep :
  Contains s (String sep "") = false →
  Split (s +:+ String sep t) sep = s :: Split t sep.
Proof.
  induction s as [|c s IH].
  - intros _. rewrite append_nil_l. simpl. by rewrite Ascii.eqb_refl.
  - rewrite Contains_byte_cons. intros [Hc Hs]%orb_false_elim.
    rewrite append_cons. simpl. rewrite Ascii.eqb_sym, Hc. by rewrite (IH Hs).
Qed.

Lemma Split_Join pieces sep :
  pieces ≠ [] →
  Forall (fun piece => Contains piece (String sep "") = false) pieces →
  Split (Join pieces (String sep "")) sep = pieces.
Proof.
  intros Hne Hall. induction Hall as [|p ps Hp Hps IH]; [done|].
  destruct ps as [|q ps].
  - simpl. by apply Split_piece.
  - change (Join (p :: q :: ps) (String sep ""))
      with (p +:+ String sep (Join (q :: ps) (String sep ""))).
    rewrite Split_append by done. by rewrite IH.
Qed.


Lemma map_TrimSpace_plain names :
  Forall plain_name names → map TrimSpace names = names.
Proof.
  induction 1 as [|name names (_ & Htrim & _) _ IH]; [done|].
  simpl. by rewrite IH, TrimSpace_fixed.
Qed.

(** X19. Every name that [parseNames] returns is not empty, has no
    white space at either end and holds no comma.  It inverts
    [strings.Join]: a list of such names, joined by commas, is parsed
    into that list; and for pieces without a comma, the text joined
    from them is parsed into the trimmed pieces that are not blank, in
    order. *)
Theorem parseNames_inverts_join :
  (∀ s name, name ∈ parseNames s → plain_name name)
  ∧ (∀ names, Forall plain_name names → parseNames (Join names ",") = names)
  ∧ (∀ pieces, Forall (fun piece => Contains piece "," = false) pieces →
               parseNames (Join pieces ",")
               = filter (fun name => name ≠ "") (map TrimSpace pieces)).
Proof.
  assert (∀ pieces, Forall (fun piece => Contains piece "," = false) pieces →
                    parseNames (Join pieces ",")
                    = filter (fun name => name ≠ "") (map TrimSpace pieces))
    as Hpieces.
  { intros pieces Hall. unfold parseNames.
    destruct pieces as [|p ps]; [done|]. by rewrite Split_Join. }
  split_and!; [clear Hpieces| |done].
  - intros s name [Hne (piece & -> & Hin)%list_elem_of_fmap]%list_elem_of_filter.
    split_and!; [done|apply TrimSpace_trimmed|].
    by apply TrimSpace_keeps_out, (Split_pieces s).
  - intros names Hall. rewrite Hpieces.
    + rewrite map_TrimSpace_plain by done.
      induction Hall as [|name names (Hne & _) _ IH]; [done|].
      rewrite filter_cons_True by done. by rewrite IH.
    + eapply Forall_impl; [done|]. by intros name (_ & _ & ?).
Qed.

(** *** Cutting at the first separator *)

Lemma SplitN2_cases s sep :
  (SplitN2 s sep = [s] ∧ Contains s (String sep "") = false)
  ∨ ∃ a b, SplitN2 s sep = [a; b] ∧ s = a +:+ String sep b
           ∧ Contains a (String sep "") = false.
Proof.
  induction s as [|c s IH]; [by left|].
  simpl SplitN2. rewrite Contains_byte_cons, (Ascii.eqb_sym sep c).
  destruct (Ascii.eqb_spec c sep) as [->|Hc].
  - right. by exists "", s.
  - destruct IH as [[-> Hs]|(a & b & -> & -> & Ha)].
    + left. by rewrite Hs.
    + right. exists (String c a), b. split_and!; [done..|].
      rewrite Contains_byte_cons, Ha, orb_false_r.
      by apply Ascii.eqb_neq.
Qed.

Lemma SplitN2_append a b sep :
  Contains a (String sep "") = false →
  SplitN2 (a +:+ String sep b) sep = [a; b].
Proof.
  induction a as [|c a IH].
  - intros _. rewrite append_nil_l. simpl. by rewrite Ascii.eqb_refl.
  - rewrite Contains_byte_cons. intros [Hc Ha]%orb_false_elim.
    rewrite append_cons. simpl. rewrite Ascii.eqb_sym, Hc. by rewrite (IH Ha).
Qed.

(** *** White space around a separator *)

Lemma HasPrefix_append_byte a b t w :
  HasPrefix (a +:+ String b t) w = true →
  HasPrefix a w = true ∨ Contains w (String b "") = true.
Proof.
  revert w. induction a as [|x a IH]; intros [|c w]; try by left.
  - rewrite append_nil_l. simpl. intros [Hc _]%andb_prop.
    right. by rewrite Ascii.eqb_sym, Hc.
  - rewrite append_cons. simpl HasPrefix. intros [Hc [H|H]%IH]%andb_prop.
    + left. by rewrite Hc, H.
    + right. rewrite Contains_byte_cons, H. apply orb_true_r.
Qed.

Lemma trimmed_append a b t :
  Forall (fun w => Contains w (String b "") = false) spaces →
  trimmed a = true → trimmed t = true → trimmed (a +:+ String b t) = true.
Proof.
  unfold trimmed. intros Hb [Ha _]%andb_prop [_ Ht]%andb_prop.
  apply negb_true_iff in Ha, Ht.
  apply andb_true_intro. split; apply negb_true_iff.
  - clear Ht. induction Hb as [|w ws Hw _ IH]; [done|].
    simpl in *. apply orb_false_elim in Ha as [Haw Ha].
    rewrite (IH Ha), orb_false_r.
    destruct (HasPrefix (a +:+ String b t) w) eqn:H; [|done].
    apply HasPrefix_append_byte in H as [H|H]; congruence.
  - clear Ha. induction Hb as [|w ws Hw _ IH]; [done|].
    simpl in *. apply orb_false_elim in Ht as [Htw Ht].
    rewrite (IH Ht), orb_false_r.
    unfold HasSuffix in *.
    destruct (HasPrefix (String.rev (a +:+ String b t)) (String.rev w)) eqn:H; [|done].
    rewrite string_rev_append, string_rev_cons, append_assoc in H.
    change (String b "" +:+ String.rev a) with (String b (String.rev a)) in H.
    apply HasPrefix_append_byte in H as [H|H]; [congruence|].
    rewrite Contains_byte_rev in H. congruence.
Qed.

Lemma spaces_no_colon : Forall (fun w => Contains w ":" = false) spaces.
Proof. by repeat constructor. Qed.

Lemma pair_text_plain rename :
  plain_rename rename →
  TrimSpace (pair_text rename) = pair_text rename
  ∧ pair_text rename ≠ ""
  ∧ Contains (pair_text rename) "," = false
  ∧ SplitN2 (pair_text rename) ":" = [OldName rename; NewName rename].
Proof.
  intros ((_ & Ho & Hoc) & Hcolon & (_ & Hn & Hnc)). unfold pair_text.
  split_and!.
  - apply TrimSpace_fixed, trimmed_append; [apply spaces_no_colon|done..].
  - by destruct (OldName rename).
  - change (":" +:+ NewName rename) with (String ":" (NewName rename)).
    rewrite Contains_byte_append, Hoc, Contains_byte_cons, Hnc. done.
  - by apply SplitN2_append.
Qed.

Lemma eqb_empty s : String.eqb s "" = bool_decide (s = "").
Proof. by destruct s. Qed.

Lemma parseRenames_pairs s : parseRenames s = parse_pairs (Split s ",").
Proof. unfold parseRenames. by destruct s. Qed.

Lemma parse_pairs_plain pieces renames :
  Forall (fun piece => Contains piece "," = false) pieces →
  parse_pairs pieces = inr renames → Forall plain_rename renames.
Proof.
  intros Hall. revert renames.
  induction Hall as [|piece pieces Hpiece _ IH]; intros renames; simpl.
  { by intros [= <-]. }
  rewrite eqb_empty. case_bool_decide as Hblank; [by apply IH|].
  pose proof (TrimSpace_keeps_out piece "," Hpiece) as Hpair.
  destruct (SplitN2_cases (TrimSpace piece) ":")
    as [[-> _]|(a & b & -> & Hcut & Ha)]; [done|].
  rewrite Hcut in Hpair.
  rewrite Contains_byte_append, Contains_byte_cons in Hpair.
  apply orb_false_elim in Hpair as [Hac [_ Hbc]%orb_false_elim].
  rewrite !eqb_empty.
  case_bool_decide as Hold; [done|]. case_bool_decide as Hnew; [done|].
  simpl. destruct (parse_pairs pieces) as [e|rest]; [done|].
  intros [= <-]. constructor; [|by apply IH].
  unfold plain_rename, plain_name. simpl.
  split_and!; try done; try apply TrimSpace_trimmed;
    by apply TrimSpace_keeps_out.
Qed.

Lemma parse_pairs_texts renames :
  Forall plain_rename renames →
  parse_pairs (map pair_text renames) = inr renames.
Proof.
  induction 1 as [|rename renames Hplain _ IH]; [done|].
  destruct (pair_text_plain rename Hplain) as (Htrim & Hne & _ & Hcut).
  destruct Hplain as ((Hold & Ho & _) & _ & (Hnew & Hn & _)).
  simpl. rewrite Htrim, eqb_empty, bool_decide_eq_false_2 by done.
  rewrite Hcut, !TrimSpace_fixed by done.
  rewrite !eqb_empty, !bool_decide_eq_false_2 by done.
  simpl. rewrite IH. by destruct rename.
Qed.

Lemma parse_pairs_error pieces e :
  parse_pairs pieces = inl e →
  ∃ pair, pair ∈ map TrimSpace pieces ∧ pair ≠ ""
          ∧ ((e = ExpectedOldNew pair ∧ Contains pair ":" = false)
             ∨ (e = EmptyName pair
                ∧ ∃ a b, pair = a +:+ ":" +:+ b ∧ Contains a ":" = false
                         ∧ (TrimSpace a = "" ∨ TrimSpace b = ""))).
Proof.
  induction pieces as [|piece pieces IH]; simpl; [done|].
  assert (parse_pairs pieces = inl e →
          ∃ pair, pair ∈ TrimSpace piece :: map TrimSpace pieces ∧ pair ≠ ""
            ∧ ((e = ExpectedOldNew pair ∧ Contains pair ":" = false)
               ∨ (e = EmptyName pair
                  ∧ ∃ a b, pair = a +:+ ":" +:+ b ∧ Contains a ":" = false
                           ∧ (TrimSpace a = "" ∨ TrimSpace b = "")))) as Hrest.
  { intros (pair & Hin & H)%IH. exists pair. split; [by right|done]. }
  rewrite eqb_empty. case_bool_decide as Hblank; [done|].
  destruct (SplitN2_cases (TrimSpace piece) ":")
    as [[-> Hnone]|(a & b & -> & Hcut & Ha)].
  - intros [= <-]. exists (TrimSpace piece). split_and!; [by left|done|by left].
  - rewrite !eqb_empty.
    destruct (decide (TrimSpace a = "")) as [Hold|Hold].
    { rewrite bool_decide_eq_true_2 by done. simpl. intros [= <-].
      exists (TrimSpace piece). split_and!; [by left|done|].
      right. split; [done|]. exists a, b. split_and!; [done..|by left]. }
    rewrite (bool_decide_eq_false_2 _ Hold). simpl.
    destruct (decide (TrimSpace b = "")) as [Hnew|Hnew].
    { rewrite bool_decide_eq_true_2 by done. intros [= <-].
      exists (TrimSpace piece). split_and!; [by left|done|].
      right. split; [done|]. exists a, b. split_and!; [done..|by right]. }
    rewrite (bool_decide_eq_false_2 _ Hnew).
    destruct (parse_pairs pieces) as [e'|rest]; [|done].
    intros [= ->]. by apply Hrest.
Qed.

(** X20. Every rename that [parseRenames] returns has an old and a new
    name that are not empty, have no white space at either end and hold
    no comma, and the old name holds no colon.  A list of such renames,
    written as [OldName:NewName] and joined by commas, is parsed into
    that list.  An error quotes a trimmed piece of the text that is not
    blank and either has no colon, or has nothing but white space
    before or after its first colon. *)
Theorem parseRenames_inverts_pairs :
  (∀ s renames, parseRenames s = inr renames → Forall plain_rename renames)
  ∧ (∀ renames, Forall plain_rename renames →
                parseRenames (Join (map pair_text renames) ",") = inr renames)
  ∧ (∀ s e, parseRenames s = inl e →
            ∃ pair, pair ∈ map TrimSpace (Split s ",") ∧ pair ≠ ""
              ∧ ((e = ExpectedOldNew pair ∧ Contains pair ":" = false)
                 ∨ (e = EmptyName pair
                    ∧ ∃ a b, pair = a +:+ ":" +:+ b ∧ Contains a ":" = false
                             ∧ (TrimSpace a = "" ∨ TrimSpace b = "")))).
Proof.
  split_and!.
  - intros s renames. rewrite parseRenames_pairs.
    apply parse_pairs_plain, Forall_forall. intros piece. apply Split_pieces.
  - intros renames Hall. rewrite parseRenames_pairs.
    destruct renames as [|r rs]; [done|].
    rewrite Split_Join; [by apply parse_pairs_texts|done|].
    apply Forall_fmap. eapply Forall_impl; [done|].
    intros rename Hplain. by apply pair_text_plain.
  - intros s e. rewrite parseRenames_pairs. apply parse_pairs_error.
Qed.

(** *** The transfer command *)

Lemma first_invalid_blank tables :
  "" ∈ tables → ∃ name, first_invalid tables = Some (InvalidIdentifier name).
Proof.
  induction tables as [|t tables IH]; [by intros ?%elem_of_nil|].
  simpl. unfold ValidateIdentifier.
  destruct (validIdentifier t) eqn:Ht; [|by eexists].
  intros [<-|Hin]%elem_of_cons; [done|by apply IH].
Qed.

Lemma first_invalid_valid tables :
  Forall (fun table => validIdentifier table = true) tables →
  first_invalid tables = None.
Proof.
  induction 1 as [|t tables Ht _ IH]; [done|].
  simpl. unfold ValidateIdentifier. by rewrite Ht.
Qed.

Lemma first_invalid_is tables e :
  first_invalid tables = Some e →
  ∃ name, name ∈ tables ∧ validIdentifier name = false
          ∧ e = InvalidIdentifier name.
Proof.
  induction tables as [|t tables IH]; [done|].
  simpl. unfold ValidateIdentifier.
  destruct (validIdentifier t) eqn:Ht.
  - intros (name & ? & ?)%IH. exists name. split; [by right|done].
  - intros [= <-]. exists t. split; [by left|done].
Qed.

Lemma parseMode_known modeStr :
  parseMode modeStr
  = (if String.eqb modeStr "metrics" then TransferMetrics
     else if String.eqb modeStr "all" then TransferAll
     else TransferConfig).
Proof.
  unfold parseMode.
  destruct (String.eqb_spec modeStr "config") as [->|_]; [done|].
  by repeat case_match.
Qed.

(** X21. For the options that [runTransfer] builds from its flags:
    without [--tables] the tables are those of the mode, where a mode
    text that is not [metrics] or [all] means [config]; with [--tables]
    they are the trimmed pieces of the text, blank pieces included, and
    a blank piece makes [ResolveTables] fail.  The only error of
    [ResolveTables] is a piece that is no valid identifier (never the
    unknown mode), and the command then returns it without a change to
    the destination. *)
Theorem transfer_flags_resolve {codec : Codec}
    (modeStr tables renameLoadpoints renameVehicles : string)
    (dryRun verbose : bool) (opts : TransferOptions) :
  transfer_options modeStr tables renameLoadpoints renameVehicles
                   dryRun verbose = inr opts →
  (tables = "" →
   ResolveTables opts
   = inr (if String.eqb modeStr "metrics" then GetMetricsTables
          else if String.eqb modeStr "all" then GetAllTables
          else GetConfigTables))
  ∧ (tables ≠ "" →
     Tables opts = map TrimSpace (Split tables ",")
     ∧ (Forall (fun table => validIdentifier table = true) (Tables opts) →
        ResolveTables opts = inr (Tables opts))
     ∧ ("" ∈ Tables opts →
        ∃ name, ResolveTables opts = inl (InvalidIdentifier name)))
  ∧ (∀ e, ResolveTables opts = inl e →
          (∃ name, e = InvalidIdentifier name ∧ name ∈ Tables opts
                   ∧ validIdentifier name = false)
          ∧ ∀ src dst,
              runTransfer src dst modeStr tables renameLoadpoints
                          renameVehicles dryRun verbose
              = (dst, [],
                 Some (Failed "transfer failed"
                         (Wrapped "failed to resolve tables" e)))).
Proof.
  intros Hopts.
  assert (∀ e, ResolveTables opts = inl e →
            ∀ src dst,
              runTransfer src dst modeStr tables renameLoadpoints
                          renameVehicles dryRun verbose
              = (dst, [],
                 Some (Failed "transfer failed"
                         (Wrapped "failed to resolve tables" e)))) as Hrun.
  { intros e He src dst. unfold runTransfer. rewrite Hopts.
    unfold Transfer. by rewrite He. }
  revert Hopts Hrun. unfold transfer_options.
  destruct (if String.eqb renameLoadpoints "" then _ else _)
    as [e|loadpoints]; [done|].
  destruct (if String.eqb renameVehicles "" then _ else _)
    as [e|vehicles]; [done|].
  intros [= <-]. unfold ResolveTables.
  cbn [Tables Mode]. rewrite parseMode_known. intros Hrun. split_and!.
  - intros ->. simpl. by repeat case_match.
  - intros Hne. rewrite (proj2 (String.eqb_neq tables "")) by done.
    destruct (map TrimSpace (Split tables ",")) as [|t ts] eqn:Hts.
    { apply fmap_nil_inv in Hts. by destruct (Split_not_nil tables ","). }
    split_and!; [done|..].
    + intros Hvalid. by rewrite first_invalid_valid.
    + intros (name & ->)%first_invalid_blank. by exists name.
  - intros e He. split; [|by apply Hrun]. clear Hrun. revert He.
    destruct (if String.eqb tables "" then _ else _) as [|t ts] eqn:Hts.
    + by repeat case_match.
    + destruct (first_invalid (t :: ts)) as [e'|] eqn:Hfirst; [|done].
      intros [= <-]. apply first_invalid_is in Hfirst as (name & ? & ? & ->).
      by exists name.
Qed.

Lemma transfer_flags_resolve_witness :
  ∃ name,
    ResolveTables (mkOptions TransferConfig ["settings"; ""] false false [] [])
    = inl (InvalidIdentifier name).
Proof.
  destruct (transfer_flags_resolve (codec := flat_json)
              "confg" "settings, " "" "" false false
              (mkOptions TransferConfig ["settings"; ""] false false [] []))
    as (_ & Htables & _).
  - vm_compute. reflexivity.
  - destruct Htables as (_ & _ & Hblank); [discriminate|].
    apply Hblank. vm_compute. apply list_elem_of_further, list_elem_of_here.
Defined.

(** *** The rename command *)

Section RenameCommand.
Context {codec : Codec}.

Lemma rename_each_error dryRun verbose k c renames c' log flag e :
  rename_each dryRun verbose k c renames = (c', log, Some (InvalidFlag flag e)) →
  False.
Proof.
  revert c c' log. induction renames as [|rename renames IH]; intros c c' log;
    simpl; [done|].
  destruct dryRun.
  - destruct (RenameDryRun k c _ _) as [result [e1|]]; [done|].
    destruct (rename_each true verbose k c renames) as [[c2 log2] err2] eqn:Hrest.
    intros [= _ _ ->]. by eapply IH.
  - destruct (Rename k c _ _) as [c1 [result [e1|]]]; [done|].
    destruct (rename_each false verbose k c1 renames) as [[c2 log2] err2] eqn:Hrest.
    intros [= _ _ ->]. by eapply IH.
Qed.

Lemma rename_flag_error dryRun verbose k c text c' log flag e :
  rename_flag dryRun verbose k c text = (c', log, Some (InvalidFlag flag e)) →
  flag = "--" +:+ kind_name k ∧ c' = c ∧ log = [].
Proof.
  unfold rename_flag. destruct (String.eqb text ""); [done|].
  destruct (parseRenames text) as [e1|renames].
  - by intros [= <- <- <- _].
  - by intros ?%rename_each_error.
Qed.

(** X22. When [runRename] returns the error of a flag that does not
    parse, either it is [--loadpoint] and nothing has been done, or it
    is [--vehicle] and the database and the lines are those of the run
    with the same [--loadpoint] and no [--vehicle], which ends without
    an error: the loadpoint renames have been applied before the
    vehicle flag is parsed. *)
Theorem rename_command_flag_errors (dryRun verbose : bool) (c : Database)
    (renameLoadpoints renameVehicles flag : string) (e : parse_error) :
  (runRename dryRun verbose c renameLoadpoints renameVehicles).2
  = Some (InvalidFlag flag e) →
  (flag = "--loadpoint"
   ∧ (runRename dryRun verbose c renameLoadpoints renameVehicles).1 = (c, []))
  ∨ (flag = "--vehicle"
     ∧ runRename dryRun verbose c renameLoadpoints ""
       = ((runRename dryRun verbose c renameLoadpoints renameVehicles).1, None)).
Proof.
  unfold runRename.
  destruct (rename_flag dryRun verbose Loadpoint c renameLoadpoints)
    as [[c1 log1] [e1|]] eqn:Hfirst.
  - simpl. intros [= ->].
    apply rename_flag_error in Hfirst as (-> & -> & ->). by left.
  - destruct (rename_flag dryRun verbose Vehicle c1 renameVehicles)
      as [[c2 log2] err] eqn:Hsecond.
    simpl. intros ->.
    apply rename_flag_error in Hsecond as (-> & -> & ->). right.
    split; [done|]. unfold rename_flag. simpl. by rewrite app_nil_r.
Qed.

End RenameCommand.

Lemma rename_command_flag_errors_witness :
  CountSessions Loadpoint
    (runRename (codec := flat_json) false false test_db "Garage:Carport" "").1.1
    "Carport"
  = (3%nat, None).
Proof.
  destruct (rename_command_flag_errors (codec := flat_json) false false test_db
              "Garage:Carport" "e-Golf" "--vehicle" (ExpectedOldNew "e-Golf"))
    as [[Hflag _]|[_ Hrun]].
  - vm_compute. reflexivity.
  - discriminate Hflag.
  - rewrite Hrun. vm_compute. reflexivity.
Defined.
